(** * hakurei: configuration, transactional system ops and outcome planning

    A shallow embedding of the Go sources
      - package hst            (config.go, container.go: Config, ContainerConfig,
                                CgroupConfig, Flags and their JSON form),
      - package system         (cgroup.go: the cgroup op; the engine that
                                commits and reverts ops),
      - package outcome        (outcome.go, spcgroup.go: wait delay and the
                                planner loop),
    followed by the properties proved about them.

    Go values are modelled as follows.  A Go [string] is a [string]; an [int],
    [uint64] or [time.Duration] is a [Z]; a nil-able pointer is an [option];
    a [(value, error)] result is a sum [A + error]; an [error] that may be nil
    is an [option error]; a [map[string]string] is a [gmap string string]. *)

From Stdlib Require Import ZArith Lia Ascii String.
From Stdlib.Strings Require Import Byte.
From stdpp Require Import base option list sorting strings gmap pretty vector.

Set Warnings "-register-all".
Local Open Scope Z_scope.

(** ** Go runtime and standard library *)

(** A call either returns or panics. *)
Inductive outcome (A : Type) : Type :=
| Returned (a : A)
| Panicked (msg : string).
Arguments Returned {A} a.
Arguments Panicked {A} msg.

(** Package-level error values created with [errors.New]; Go compares them
    by identity. *)
Inductive sentinel : Type :=
| ErrConfigNull
| ErrIdentityBounds
| ErrEnviron
| ErrCgroupPath
| errNotEnabled.

#[global] Instance sentinel_eq_dec : EqDecision sentinel.
Proof. solve_decision. Defined.

(** The error values that occur in the modelled packages. *)
Inductive error : Type :=
| Errno (n : Z)                                   (* syscall.Errno *)
| PathError (op pathname : string) (err : error)  (* *fs.PathError *)
| Sentinel (s : sentinel)
| AbsoluteError (pathname : string)               (* check.AbsoluteError *)
| AppError (Step : string) (Err : error) (Msg : string)           (* *hst.AppError *)
| OpError (Op : string) (Err : error) (Msg : string) (Revert : bool) (* *system.OpError *)
| joinError (errs : list error)                   (* errors.Join *)
| errorString (text : string).                    (* any other message-only error *)

Definition ENOENT : Z := 2.
Definition EEXIST : Z := 17.
Definition EINVAL : Z := 22.
Definition ENOTEMPTY : Z := 39.

(** What [errors.Is] is asked for in the sources. *)
Inductive target : Type :=
| IsSentinel (s : sentinel)
| IsErrno (n : Z)
| IsErrExist        (* os.ErrExist *)
| IsErrNotExist.    (* os.ErrNotExist *)

(** [syscall.Errno.Is] and plain equality on an unwrapped error. *)
Definition error_matches (t : target) (e : error) : bool :=
  match t, e with
  | IsSentinel s, Sentinel s' => bool_decide (s = s')
  | IsErrno n, Errno m => m =? n
  | IsErrExist, Errno m => (m =? EEXIST) || (m =? ENOTEMPTY)
  | IsErrNotExist, Errno m => m =? ENOENT
  | _, _ => false
  end.

(** [errors.Is]: the error itself, or anything reached through [Unwrap]. *)
Fixpoint errors_Is (e : error) (t : target) : bool :=
  error_matches t e ||
  match e with
  | PathError _ _ err => errors_Is err t
  | AppError _ err _ => errors_Is err t
  | OpError _ err _ _ => errors_Is err t
  | joinError errs => existsb (fun e' => errors_Is e' t) errs
  | _ => false
  end.

(** [errors.Join]: nil values are dropped; nil when nothing is left. *)
Definition errors_Join (errs : list (option error)) : option error :=
  match omap id errs with
  | [] => None
  | es => Some (joinError es)
  end.

Definition NUL : ascii := Ascii.zero.
Definition slash : ascii := "/"%char.

Fixpoint strings_IndexByte_found (s : string) (c : ascii) : bool :=
  match s with
  | EmptyString => false
  | String a r => Ascii.eqb a c || strings_IndexByte_found r c
  end.

(** [strings.HasPrefix(s, prefix)]. *)
Definition strings_HasPrefix (s prefix : string) : bool := String.prefix prefix s.

(** [strings.TrimPrefix(s, prefix)]. *)
Fixpoint drop_prefix (prefix s : string) : option string :=
  match prefix, s with
  | EmptyString, _ => Some s
  | String a p, String b r => if Ascii.eqb a b then drop_prefix p r else None
  | String _ _, EmptyString => None
  end.

Definition strings_TrimPrefix (s prefix : string) : string :=
  default s (drop_prefix prefix s).

(** [strings.Split(s, sep)] for a one-byte separator. *)
Fixpoint strings_Split (s : string) (sep : ascii) : list string :=
  match s with
  | EmptyString => [EmptyString]
  | String c r =>
      if Ascii.eqb c sep then EmptyString :: strings_Split r sep
      else match strings_Split r sep with
           | [] => [String c EmptyString]
           | h :: t => String c h :: t
           end
  end.

(** [strings.Join(elems, "/")]. *)
Definition join_slash (elems : list string) : string := String.concat "/" elems.

(** [path.IsAbs]. *)
Definition path_IsAbs (p : string) : bool :=
  match p with
  | String c _ => Ascii.eqb c slash
  | EmptyString => false
  end.

(** One element of [path.Clean]'s scan; [out] holds the elements written so
    far, the last one first.  Empty and [.] elements are dropped, [..]
    removes the last element when there is one to remove, stays put at the
    root, and is kept in front of a relative path. *)
Definition clean_elem (rooted : bool) (out : list string) (e : string) : list string :=
  if bool_decide (e = "") || bool_decide (e = ".") then out
  else if bool_decide (e = "..") then
    match out with
    | [] => if rooted then [] else [".."]
    | top :: rest => if bool_decide (top = "..") then ".." :: out else rest
    end
  else e :: out.

(** [path.Clean]: the shortest path equivalent to [p] by lexical processing. *)
Definition path_Clean (p : string) : string :=
  if bool_decide (p = "") then "."
  else
    let rooted := path_IsAbs p in
    let out := rev (fold_left (clean_elem rooted) (strings_Split p slash) []) in
    if rooted then String slash (join_slash out)
    else match out with
         | [] => "."
         | _ => join_slash out
         end.

(** [path.Join]: empty elements are ignored, the rest joined and cleaned. *)
Definition path_Join (elem : list string) : string :=
  match filter (fun e => e ≠ "") elem with
  | [] => ""
  | es => path_Clean (join_slash es)
  end.

(** [filepath.Join] and [path.Join] agree on Linux. *)
Definition filepath_Join (elem : list string) : string := path_Join elem.

(** [hex.EncodeToString]: two digits of [hextable] per byte. *)
Definition hextable : string := "0123456789abcdef".

Definition hexdigit (n : N) : ascii :=
  default "0"%char (String.get (N.to_nat n) hextable).

Definition hex_byte (b : byte) : string :=
  String (hexdigit (N.shiftr (Byte.to_N b) 4))
    (String (hexdigit (N.land (Byte.to_N b) 15)) EmptyString).

Fixpoint hex_EncodeToString (src : list byte) : string :=
  match src with
  | [] => EmptyString
  | b :: r => hex_byte b +:+ hex_EncodeToString r
  end.

(** ** Package check *)

Module check.

(** [check.Absolute]: a pathname known to be absolute. *)
Record Absolute : Type := unsafeAbs { pathname : string }.

(** Modelled from the spec: [check.NewAbs] is not among the sources; the
    constructor fails if its input is not absolute or contains a null byte. *)
Definition NewAbs (p : string) : Absolute + error :=
  if path_IsAbs p && negb (strings_IndexByte_found p NUL)
  then inl (unsafeAbs p)
  else inr (AbsoluteError p).

(** Modelled from the spec: [Absolute.Append] is not among the sources; an
    absolute path is kept cleaned and appending yields a new absolute path,
    that is the elements are joined to the receiver with [filepath.Join]. *)
Definition Append (a : Absolute) (elem : list string) : Absolute :=
  unsafeAbs (filepath_Join (pathname a :: elem)).

End check.

(** ** JSON documents, as [encoding/json] reads and writes them *)

Inductive json : Type :=
| JNull
| JBool (b : bool)
| JNumber (n : Z)
| JString (s : string)
| JArray (elems : list json)
| JObject (fields : list (string * json)).

(** The value a document holds under the name [key]: the last one, should
    the name be written more than once. *)
Fixpoint json_field (key : string) (fields : list (string * json)) : option json :=
  match fields with
  | [] => None
  | (k, v) :: r =>
      match json_field key r with
      | Some v' => Some v'
      | None => if bool_decide (k = key) then Some v else None
      end
  end.

(** *** Writing *)

(** A byte within the bounds that [unicode/utf8] accepts at its place. *)
Definition utf8_within (b : ascii) (lo hi : nat) : bool :=
  (lo <=? nat_of_ascii b)%nat && (nat_of_ascii b <=? hi)%nat.

(** The size of the rune that [s] starts with, if it is encoded as
    [utf8.DecodeRuneInString] accepts it: the first byte decides the size and
    the bounds of the second, and every later byte is a continuation
    byte. *)
Definition utf8_size (s : string) : option nat :=
  match s with
  | EmptyString => None
  | String b0 r =>
      let n := nat_of_ascii b0 in
      if (n <? 128)%nat then Some 1%nat
      else if (n <? 194)%nat then None
      else if (n <? 224)%nat then
        match r with
        | String b1 _ => if utf8_within b1 128 191 then Some 2%nat else None
        | _ => None
        end
      else if (n <? 240)%nat then
        match r with
        | String b1 (String b2 _) =>
            if utf8_within b1 (if (n =? 224)%nat then 160 else 128)
                 (if (n =? 237)%nat then 159 else 191)
               && utf8_within b2 128 191
            then Some 3%nat else None
        | _ => None
        end
      else if (n <? 245)%nat then
        match r with
        | String b1 (String b2 (String b3 _)) =>
            if utf8_within b1 (if (n =? 240)%nat then 144 else 128)
                 (if (n =? 244)%nat then 143 else 191)
               && utf8_within b2 128 191 && utf8_within b3 128 191
            then Some 4%nat else None
        | _ => None
        end
      else None
  end.

(** U+FFFD, the replacement character, in UTF-8. *)
Definition utf8_RuneError : string :=
  String (ascii_of_nat 239) (String (ascii_of_nat 191) (String (ascii_of_nat 189) "")).

(** The text of a Go string as the encoder writes it and a decoder reads it
    back: a byte that does not start a well-formed rune is replaced by
    U+FFFD.  [skip] counts the bytes still to copy of the rune under way. *)
Fixpoint json_coerce_from (skip : nat) (s : string) : string :=
  match s with
  | EmptyString => EmptyString
  | String b r =>
      match skip with
      | S n => String b (json_coerce_from n r)
      | O =>
          match utf8_size s with
          | Some n => String b (json_coerce_from (n - 1) r)
          | None => utf8_RuneError +:+ json_coerce_from 0 r
          end
      end
  end.

Definition json_coerce (s : string) : string := json_coerce_from 0 s.

(** A Go string as a JSON value. *)
Definition json_of_string (s : string) : json := JString (json_coerce s).

(** A struct field as the encoder sees it: its name, whether it is left out
    (it is tagged [omitempty] and holds its zero value), and its value. *)
Definition json_row : Type := string * bool * json.

(** The fields written for a struct, in declaration order. *)
Definition json_fields (rows : list json_row) : list (string * json) :=
  flat_map (fun row : json_row => if row.1.2 then [] else [(row.1.1, row.2)]) rows.

(** *** Reading *)

(** Upper case of an ASCII letter. *)
Definition upper (a : ascii) : ascii :=
  let n := nat_of_ascii a in
  if (97 <=? n)%nat && (n <=? 122)%nat then ascii_of_nat (n - 32) else a.

(** [foldName] of the decoder, as far as a name in ASCII can tell: letters
    become upper case, and so do the two runes beyond ASCII that fold to a
    letter of ASCII, U+017F (long s) and U+212A (the Kelvin sign).  Any other
    rune folds to a rune beyond ASCII and is left as it is here. *)
Fixpoint foldName (s : string) : string :=
  match s with
  | EmptyString => EmptyString
  | String a r =>
      match r with
      | String b r' =>
          if Ascii.eqb a (ascii_of_nat 197) && Ascii.eqb b (ascii_of_nat 191)
          then String "S" (foldName r')
          else
            match r' with
            | String c r'' =>
                if Ascii.eqb a (ascii_of_nat 226) && Ascii.eqb b (ascii_of_nat 132)
                   && Ascii.eqb c (ascii_of_nat 170)
                then String "K" (foldName r'')
                else String (upper a) (foldName r)
            | EmptyString => String (upper a) (foldName r)
            end
      | EmptyString => String (upper a) (foldName r)
      end
  end.

(** The field of a struct that a key of a document stands for, [names] being
    the JSON names of the fields in declaration order: the field of that
    very name, or else the first one that is the same under folding. *)
Definition json_match (names : list string) (key : string) : option string :=
  if bool_decide (key ∈ names) then Some key
  else List.find (fun name => bool_decide (foldName name = foldName key)) names.

(** The values that a document gives for the field [name], in the order of
    the document. *)
Definition json_values (names : list string) (name : string)
  (fields : list (string * json)) : list json :=
  snd <$> filter (fun kv => json_match names kv.1 = Some name) fields.

(** Decoding results carry the value on the left and the error on the right,
    in the order of a Go result pair. *)
Definition json_type_error {A : Type} (key : string) : A + error :=
  inr (errorString ("json: cannot unmarshal into Go struct field " +:+ key)).

Notation "'try' x ':=' m 'in' k" :=
  (match m with inl x => k | inr err => inr err end)
  (at level 10, x name, m at level 100, k at level 200, only parsing).

(** The decoder stores the values of a field one after the other, each into
    what the one before has left; an error makes the result an error. *)
Definition json_decode {A : Type} (store : A -> json -> A + error) (zero : A)
  (values : list json) : A + error :=
  foldl (fun acc v => match acc with inl a => store a v | inr err => inr err end)
    (inl zero) values.

(** Decoding of a [bool] field: null leaves it as it is. *)
Definition json_bool (names : list string) (key : string) (fields : list (string * json))
  : bool + error :=
  json_decode
    (fun b v =>
       match v with
       | JNull => inl b
       | JBool b' => inl b'
       | _ => json_type_error key
       end)
    false (json_values names key fields).

(** Decoding of a [string] field that holds [zero]. *)
Definition json_string (zero : string) (names : list string) (key : string)
  (fields : list (string * json)) : string + error :=
  json_decode
    (fun s v =>
       match v with
       | JNull => inl s
       | JString s' => inl s'
       | _ => json_type_error key
       end)
    zero (json_values names key fields).

(** Decoding of an integer field that holds [zero], with the bounds of its
    Go type. *)
Definition json_int (lo hi : Z) (zero : Z) (names : list string) (key : string)
  (fields : list (string * json)) : Z + error :=
  json_decode
    (fun n v =>
       match v with
       | JNull => inl n
       | JNumber n' =>
           if (lo <=? n') && (n' <=? hi) then inl n' else json_type_error key
       | _ => json_type_error key
       end)
    zero (json_values names key fields).

(** The elements of a [[]string] read from an array: null leaves an element
    as it is, which is what the slice held there before, or empty.  (Beyond
    the length of the slice but within its capacity the decoder finds what
    an earlier, longer array has left; this is taken to be empty.) *)
Fixpoint json_elems (old : list string) (l : list json) : option (list string) :=
  match l with
  | [] => Some []
  | v :: r =>
      match v with
      | JString s => cons s <$> json_elems (tail old) r
      | JNull => cons (default EmptyString (head old)) <$> json_elems (tail old) r
      | _ => None
      end
  end.

(** Decoding of a [[]string] field; null makes it nil. *)
Definition json_strings (names : list string) (key : string)
  (fields : list (string * json)) : option (list string) + error :=
  json_decode
    (fun old v =>
       match v with
       | JNull => inl None
       | JArray l =>
           match json_elems (default [] old) l with
           | Some ss => inl (Some ss)
           | None => json_type_error key
           end
       | _ => json_type_error key
       end)
    None (json_values names key fields).

(** A value of a [map[string]string] read from a document: each is stored
    into a fresh string, which null leaves empty. *)
Definition json_text (v : json) : option string :=
  match v with
  | JString s => Some s
  | JNull => Some EmptyString
  | _ => None
  end.

(** Decoding of a [map[string]string] field; null makes it nil, and an object
    is added key by key to the map there is, a later value replacing an
    earlier one. *)
Definition json_string_map (names : list string) (key : string)
  (fields : list (string * json)) : option (gmap string string) + error :=
  json_decode
    (fun old v =>
       match v with
       | JNull => inl None
       | JObject kvs =>
           match mapM (fun kv => pair kv.1 <$> json_text kv.2) kvs with
           | Some l => inl (Some (list_to_map (reverse l) ∪ default ∅ old))
           | None => json_type_error key
           end
       | _ => json_type_error key
       end)
    None (json_values names key fields).

Definition min_int64 : Z := - 2 ^ 63.
Definition max_int64 : Z := 2 ^ 63 - 1.
Definition max_uint64 : Z := 2 ^ 64 - 1.

(** ** Package hst *)

Module hst.

(** Modelled from the spec: the instance ID type is not among the sources; an
    ID is 16 bytes and its textual form is 32 lowercase hex characters. *)
Definition ID : Type := vec byte 16.

(** Modelled from the spec: [ID.String] is not among the sources; the textual
    form of an ID is the lowercase hex encoding of its bytes. *)
Definition ID_String (id : ID) : string := hex_EncodeToString (vec_to_list id).

(** Modelled from the spec: [IdentityStart] is not among the sources; an
    identity is an integer in [1, 9999], 0 being reserved for system
    services. *)
Definition IdentityStart : Z := 1.

(** Modelled from the spec: [IdentityEnd] is not among the sources; see
    [IdentityStart]. *)
Definition IdentityEnd : Z := 9999.

Definition WaitDelayDefault : Z := 5 * 1000000000.
Definition WaitDelayMax : Z := 30 * 1000000000.

(** [Flags], a [uintptr] bit set. *)
Definition Flags : Type := Z.

Definition FMultiarch : Flags := Z.shiftl 1 0.
Definition FSeccompCompat : Flags := Z.shiftl 1 1.
Definition FDevel : Flags := Z.shiftl 1 2.
Definition FUserns : Flags := Z.shiftl 1 3.
Definition FHostNet : Flags := Z.shiftl 1 4.
Definition FHostAbstract : Flags := Z.shiftl 1 5.
Definition FTty : Flags := Z.shiftl 1 6.
Definition FMapRealUID : Flags := Z.shiftl 1 7.
Definition FDevice : Flags := Z.shiftl 1 8.
Definition FShareRuntime : Flags := Z.shiftl 1 9.
Definition FShareTmpdir : Flags := Z.shiftl 1 10.
Definition fMax : Flags := Z.shiftl 1 11.
Definition FAll : Flags := fMax - 1.

Definition CgroupRoot : string := "/sys/fs/cgroup".
Definition defaultCgroupSlice : string := CgroupRoot +:+ "/hakurei.slice".

Record CgroupConfig : Type := {
  Slice : string;
  LimitCPU : Z;
  LimitMemory : Z;
  LimitPids : Z;
}.

Record ContainerConfig : Type := {
  Hostname : string;
  WaitDelay : Z;
  Env : option (gmap string string);
  (* an entry is kept in its JSON form: FilesystemConfigJSON is not among the sources *)
  Filesystem : option (list json);
  Username : string;
  Shell : option check.Absolute;
  Home : option check.Absolute;
  Path : option check.Absolute;
  Args : option (list string);
  Flags_ : Flags;
  Cgroup : option CgroupConfig;
}.

Definition set_Flags (c : ContainerConfig) (f : Flags) : ContainerConfig :=
  {| Hostname := Hostname c; WaitDelay := WaitDelay c; Env := Env c;
     Filesystem := Filesystem c; Username := Username c; Shell := Shell c;
     Home := Home c; Path := Path c; Args := Args c; Flags_ := f;
     Cgroup := Cgroup c |}.

(** [CgroupConfig.slicePath]. *)
Definition slicePath (c : CgroupConfig) : check.Absolute + error :=
  let base := Slice c in
  let base := if bool_decide (base = "") then defaultCgroupSlice else base in
  let base := if negb (path_IsAbs base) then path_Join [CgroupRoot; base] else base in
  let cleaned := path_Clean base in
  match check.NewAbs cleaned with
  | inr _ => inr (Sentinel ErrCgroupPath)
  | inl abs => inl abs
  end.

(** [CgroupConfig.Validate]. *)
Definition CgroupConfig_Validate (c : option CgroupConfig) : option error :=
  match c with
  | None => None
  | Some c =>
      if LimitPids c <? 0 then
        Some (AppError "validate configuration" (Errno EINVAL)
                "cgroup limit pids cannot be negative")
      else match slicePath c with
           | inr err => Some (AppError "validate configuration" err "invalid cgroup slice")
           | inl _ => None
           end
  end.

(** [ContainerConfig.validateCgroup]. *)
Definition validateCgroup (config : ContainerConfig) : option error :=
  match Cgroup config with
  | None => None
  | Some c => CgroupConfig_Validate (Some c)
  end.

(** [CgroupConfig.SlicePath]. *)
Definition SlicePath (c : option CgroupConfig) : check.Absolute + error :=
  match c with
  | None => inr (Errno EINVAL)
  | Some c => slicePath c
  end.

(** [CgroupConfig.instanceRoot]. *)
Definition instanceRoot (c : CgroupConfig) (identity : string) : check.Absolute + error :=
  match slicePath c with
  | inr err => inr err
  | inl slice => inl (check.Append slice ["hakurei-" +:+ identity])
  end.

(** [CgroupConfig.InstancePath]. *)
Definition InstancePath (c : option CgroupConfig) (identity : string) (id : option ID)
  : check.Absolute + error :=
  match c, id with
  | Some c, Some id =>
      match instanceRoot c identity with
      | inr err => inr err
      | inl root => inl (check.Append root [ID_String id])
      end
  | _, _ => inr (Errno EINVAL)
  end.

(** *** The JSON form of [ContainerConfig] *)

(** [containerConfigJSON]: the embedded [*ContainerConfigF] and one boolean
    per flag. *)
Record containerConfigJSON : Type := {
  ContainerConfigF : option ContainerConfig;
  SeccompCompat : bool;
  Devel : bool;
  Userns : bool;
  HostNet : bool;
  HostAbstract : bool;
  Tty : bool;
  Multiarch : bool;
  MapRealUID : bool;
  Device : bool;
  ShareRuntime : bool;
  ShareTmpdir : bool;
}.

(** Modelled from the spec: the JSON form of [check.Absolute] is not among
    the sources; a path is persisted as its pathname string and is checked by
    the constructor when read back. *)
Definition Absolute_json (a : option check.Absolute) : json :=
  match a with
  | None => JNull
  | Some a => json_of_string (check.pathname a)
  end.

(** Modelled from the spec: reading a [check.Absolute] back is not among the
    sources; the pathname goes through the constructor.  Null makes the
    pointer nil. *)
Definition json_Absolute (names : list string) (key : string)
  (fields : list (string * json)) : option check.Absolute + error :=
  json_decode
    (fun old v =>
       match v with
       | JNull => inl None
       | JString s =>
           match check.NewAbs s with
           | inl a => inl (Some a)
           | inr err => inr err
           end
       | _ => json_type_error key
       end)
    None (json_values names key fields).

(** [encoding/json] on [CgroupConfig], field by field as tagged. *)
Definition CgroupConfig_rows (c : CgroupConfig) : list json_row :=
  [ ("slice", bool_decide (Slice c = ""), json_of_string (Slice c));
    ("limit_cpu", LimitCPU c =? 0, JNumber (LimitCPU c));
    ("limit_memory", LimitMemory c =? 0, JNumber (LimitMemory c));
    ("limit_pids", LimitPids c =? 0, JNumber (LimitPids c)) ].

(** The JSON names of the fields of [CgroupConfig]. *)
Definition CgroupConfig_names : list string :=
  ["slice"; "limit_cpu"; "limit_memory"; "limit_pids"].

Definition CgroupConfig_json (c : CgroupConfig) : json :=
  JObject (json_fields (CgroupConfig_rows c)).

(** Decoding of a [*CgroupConfig] field: null makes the pointer nil, and an
    object is read into the struct there is, or into a new one. *)
Definition json_CgroupConfig (names : list string) (key : string)
  (fields : list (string * json)) : option CgroupConfig + error :=
  json_decode
    (fun old v =>
       match v with
       | JNull => inl None
       | JObject fs =>
           let g := default {| Slice := ""; LimitCPU := 0; LimitMemory := 0;
                               LimitPids := 0 |} old in
           try slice := json_string (Slice g) CgroupConfig_names "slice" fs in
           try cpu := json_int 0 max_uint64 (LimitCPU g) CgroupConfig_names "limit_cpu" fs in
           try memory :=
             json_int 0 max_uint64 (LimitMemory g) CgroupConfig_names "limit_memory" fs in
           try pids :=
             json_int min_int64 max_int64 (LimitPids g) CgroupConfig_names "limit_pids" fs in
           inl (Some {| Slice := slice; LimitCPU := cpu; LimitMemory := memory;
                        LimitPids := pids |})
       | _ => json_type_error key
       end)
    None (json_values names key fields).

(** The order in which the encoder writes the keys of a map. *)
Definition key_le (a b : string * string) : Prop := String.leb a.1 b.1 = true.

#[global] Instance key_le_dec (a b : string * string) : Decision (key_le a b) :=
  decide (String.leb a.1 b.1 = true).

(** The fields of the embedded [ContainerConfigF] in declaration order.  The
    [Flags] field is tagged [json:"-"] and has no row. *)
Definition ContainerConfigF_rows (c : ContainerConfig) : list json_row :=
  [ ("hostname", bool_decide (Hostname c = ""), json_of_string (Hostname c));
    ("wait_delay", WaitDelay c =? 0, JNumber (WaitDelay c));
    ("env", false, match Env c with
                   | None => JNull
                   | Some m =>
                       JObject ((fun kv => (json_coerce kv.1, json_of_string kv.2))
                                  <$> merge_sort key_le (map_to_list m))
                   end);
    ("filesystem", false, match Filesystem c with
                          | None => JNull
                          | Some l => JArray l
                          end);
    ("username", bool_decide (Username c = ""), json_of_string (Username c));
    ("shell", false, Absolute_json (Shell c));
    ("home", false, Absolute_json (Home c));
    ("path", bool_decide (Path c = None), Absolute_json (Path c));
    ("args", false, match Args c with
                    | None => JNull
                    | Some l => JArray (json_of_string <$> l)
                    end);
    ("cgroup", bool_decide (Cgroup c = None),
       match Cgroup c with
       | None => JNull
       | Some g => CgroupConfig_json g
       end) ].

(** The JSON names of the embedded fields. *)
Definition ContainerConfigF_tags : list string :=
  ["hostname"; "wait_delay"; "env"; "filesystem"; "username"; "shell"; "home";
   "path"; "args"; "cgroup"].

(** The boolean fields of [containerConfigJSON]; all but [map_real_uid] are
    tagged [omitempty]. *)
Definition containerConfigJSON_rows (v : containerConfigJSON) : list json_row :=
  [ ("seccomp_compat", negb (SeccompCompat v), JBool (SeccompCompat v));
    ("devel", negb (Devel v), JBool (Devel v));
    ("userns", negb (Userns v), JBool (Userns v));
    ("host_net", negb (HostNet v), JBool (HostNet v));
    ("host_abstract", negb (HostAbstract v), JBool (HostAbstract v));
    ("tty", negb (Tty v), JBool (Tty v));
    ("multiarch", negb (Multiarch v), JBool (Multiarch v));
    ("map_real_uid", false, JBool (MapRealUID v));
    ("device", negb (Device v), JBool (Device v));
    ("share_runtime", negb (ShareRuntime v), JBool (ShareRuntime v));
    ("share_tmpdir", negb (ShareTmpdir v), JBool (ShareTmpdir v)) ].

(** The JSON names of the fields of [containerConfigJSON]: those of the
    embedded struct, which are promoted, and the booleans. *)
Definition containerConfigJSON_names : list string :=
  ContainerConfigF_tags
  ++ ["seccomp_compat"; "devel"; "userns"; "host_net"; "host_abstract"; "tty";
      "multiarch"; "map_real_uid"; "device"; "share_runtime"; "share_tmpdir"].

(** [json.Marshal] on a [containerConfigJSON]: the fields of the embedded
    struct first, then the booleans. *)
Definition json_Marshal (v : containerConfigJSON) : json :=
  JObject
    (json_fields
       (match ContainerConfigF v with
        | None => []
        | Some c => ContainerConfigF_rows c
        end ++ containerConfigJSON_rows v)).

(** Decoding of the embedded struct, newly allocated.  The decoder never
    writes [Flags], which keeps its zero value.  The mount points are kept as
    the documents they are read from.  (Go reports the first error in
    document order, this model in declaration order.) *)
Definition json_ContainerConfigF (fields : list (string * json)) : ContainerConfig + error :=
  let names := containerConfigJSON_names in
  try hostname := json_string "" names "hostname" fields in
  try wait_delay := json_int min_int64 max_int64 0 names "wait_delay" fields in
  try env := json_string_map names "env" fields in
  try filesystem :=
    json_decode
      (fun old v =>
         match v with
         | JNull => inl None
         | JArray l => inl (Some l)
         | _ => json_type_error "filesystem"
         end)
      None (json_values names "filesystem" fields) in
  try username := json_string "" names "username" fields in
  try shell := json_Absolute names "shell" fields in
  try home := json_Absolute names "home" fields in
  try path := json_Absolute names "path" fields in
  try args := json_strings names "args" fields in
  try cgroup := json_CgroupConfig names "cgroup" fields in
  inl {| Hostname := hostname; WaitDelay := wait_delay; Env := env;
         Filesystem := filesystem; Username := username; Shell := shell;
         Home := home; Path := path; Args := args; Flags_ := 0;
         Cgroup := cgroup |}.

(** [json.Unmarshal(data, &v)] for [v *containerConfigJSON]: null resets the
    pointer; the embedded pointer is allocated when a key of the document
    stands for one of its fields, whatever the value. *)
Definition json_Unmarshal (data : json) : option containerConfigJSON + error :=
  match data with
  | JNull => inl None
  | JObject fields =>
      let names := containerConfigJSON_names in
      try embedded :=
        (if existsb (fun tag => negb (bool_decide (json_values names tag fields = [])))
              ContainerConfigF_tags
         then match json_ContainerConfigF fields with
              | inl c => inl (Some c)
              | inr err => inr err
              end
         else inl None) in
      try seccomp_compat := json_bool names "seccomp_compat" fields in
      try devel := json_bool names "devel" fields in
      try userns := json_bool names "userns" fields in
      try host_net := json_bool names "host_net" fields in
      try host_abstract := json_bool names "host_abstract" fields in
      try tty := json_bool names "tty" fields in
      try multiarch := json_bool names "multiarch" fields in
      try map_real_uid := json_bool names "map_real_uid" fields in
      try device := json_bool names "device" fields in
      try share_runtime := json_bool names "share_runtime" fields in
      try share_tmpdir := json_bool names "share_tmpdir" fields in
      inl (Some {| ContainerConfigF := embedded;
                   SeccompCompat := seccomp_compat; Devel := devel; Userns := userns;
                   HostNet := host_net; HostAbstract := host_abstract; Tty := tty;
                   Multiarch := multiarch; MapRealUID := map_real_uid;
                   Device := device; ShareRuntime := share_runtime;
                   ShareTmpdir := share_tmpdir |})
  | _ => inr (errorString "json: cannot unmarshal into Go value of type hst.containerConfigJSON")
  end.

(** [flags & f != 0]. *)
Definition has_flag (flags f : Flags) : bool := negb (Z.land flags f =? 0).

(** [ContainerConfig.MarshalJSON]. *)
Definition MarshalJSON (c : option ContainerConfig) : json + error :=
  match c with
  | None => inr (Errno EINVAL)
  | Some c =>
      inl (json_Marshal
             {| ContainerConfigF := Some c;
                SeccompCompat := has_flag (Flags_ c) FSeccompCompat;
                Devel := has_flag (Flags_ c) FDevel;
                Userns := has_flag (Flags_ c) FUserns;
                HostNet := has_flag (Flags_ c) FHostNet;
                HostAbstract := has_flag (Flags_ c) FHostAbstract;
                Tty := has_flag (Flags_ c) FTty;
                Multiarch := has_flag (Flags_ c) FMultiarch;
                MapRealUID := has_flag (Flags_ c) FMapRealUID;
                Device := has_flag (Flags_ c) FDevice;
                ShareRuntime := has_flag (Flags_ c) FShareRuntime;
                ShareTmpdir := has_flag (Flags_ c) FShareTmpdir |})
  end.

(** [if b { c.Flags |= f }]. *)
Definition or_flag (b : bool) (f : Flags) (c : ContainerConfig) : ContainerConfig :=
  if b then set_Flags c (Z.lor (Flags_ c) f) else c.

(** [ContainerConfig.UnmarshalJSON]; the receiver is overwritten as a whole,
    so only whether it is nil matters.  Dereferencing a nil [v] or a nil
    embedded pointer panics. *)
Definition UnmarshalJSON (c : option ContainerConfig) (data : json)
  : outcome (ContainerConfig + error) :=
  match c with
  | None => Returned (inr (Errno EINVAL))
  | Some _ =>
      match json_Unmarshal data with
      | inr err => Returned (inr err)
      | inl None => Panicked "invalid memory address or nil pointer dereference"
      | inl (Some v) =>
          match ContainerConfigF v with
          | None => Panicked "invalid memory address or nil pointer dereference"
          | Some c =>
              let c := or_flag (SeccompCompat v) FSeccompCompat c in
              let c := or_flag (Devel v) FDevel c in
              let c := or_flag (Userns v) FUserns c in
              let c := or_flag (HostNet v) FHostNet c in
              let c := or_flag (HostAbstract v) FHostAbstract c in
              let c := or_flag (Tty v) FTty c in
              let c := or_flag (Multiarch v) FMultiarch c in
              let c := or_flag (MapRealUID v) FMapRealUID c in
              let c := or_flag (Device v) FDevice c in
              let c := or_flag (ShareRuntime v) FShareRuntime c in
              let c := or_flag (ShareTmpdir v) FShareTmpdir c in
              Returned (inl c)
          end
      end
  end.

(** *** [Config] and its validation *)

Record ExtraPermConfig : Type := {
  Ensure : bool;
  ExtraPerm_Path : option check.Absolute;
  Read : bool;
  Write : bool;
  Execute : bool;
}.

Section Config.

(** [BusConfig] and its [CheckInterfaces] method are not among the sources. *)
Context {BusConfig : Type}.
Variable CheckInterfaces : option BusConfig -> string -> option error.
(** [strconv.Quote]. *)
Variable strconv_Quote : string -> string.

Record Config : Type := {
  Config_ID : string;
  Enablements : option Z;
  SessionBus : option BusConfig;
  SystemBus : option BusConfig;
  DirectWayland : bool;
  ExtraPerms : list ExtraPermConfig;
  Identity : Z;
  Groups : list string;
  Container : option ContainerConfig;
}.

(** The key the loop over [Env] stops at; Go leaves the order of a map range
    unspecified, the order taken here is that of [map_to_list]. *)
Definition bad_env_key (env : option (gmap string string)) : option string :=
  fst <$> List.find
    (fun kv => strings_IndexByte_found kv.1 "="%char || strings_IndexByte_found kv.1 NUL)
    (map_to_list (default ∅ env)).

(** [Config.Validate]. *)
Definition Validate (config : option Config) : option error :=
  match config with
  | None => Some (AppError "validate configuration" (Sentinel ErrConfigNull)
                    "invalid configuration")
  | Some config =>
      if (Identity config <? IdentityStart) || (Identity config >? IdentityEnd) then
        Some (AppError "validate configuration" (Sentinel ErrIdentityBounds)
                ("identity " +:+ pretty (Identity config) +:+ " out of range"))
      else
      match CheckInterfaces (SessionBus config) "session" with
      | Some err => Some err
      | None =>
      match CheckInterfaces (SystemBus config) "system" with
      | Some err => Some err
      | None =>
      match Container config with
      | None => Some (AppError "validate configuration" (Sentinel ErrConfigNull)
                        "configuration missing container state")
      | Some container =>
      if bool_decide (Home container = None) then
        Some (AppError "validate configuration" (Sentinel ErrConfigNull)
                "container configuration missing path to home directory")
      else if bool_decide (Shell container = None) then
        Some (AppError "validate configuration" (Sentinel ErrConfigNull)
                "container configuration missing path to shell")
      else if bool_decide (Path container = None) then
        Some (AppError "validate configuration" (Sentinel ErrConfigNull)
                "container configuration missing path to initial program")
      else
      match validateCgroup container with
      | Some err => Some err
      | None =>
      match bad_env_key (Env container) with
      | Some key => Some (AppError "validate configuration" (Sentinel ErrEnviron)
                            ("invalid environment variable " +:+ strconv_Quote key))
      | None => None
      end end end end end
  end.

End Config.

End hst.

(** ** Package system *)

Module system.

(** [hst.Enablement], a byte-sized bit set. *)
Definition Enablement : Type := Z.

(** Modelled from the spec: the enablement bits are not among the sources; the
    set ranges over Wayland, X11, D-Bus and PulseAudio, in this order. *)
Definition EWayland : Enablement := Z.shiftl 1 0.
Definition EX11 : Enablement := Z.shiftl 1 1.
Definition EDBus : Enablement := Z.shiftl 1 2.
Definition EPulse : Enablement := Z.shiftl 1 3.

(** Modelled from the spec: [EM], the first bit past the enablements, is not
    among the sources. *)
Definition EM : Enablement := Z.shiftl 1 4.

(** Modelled from the spec: the op engine extends the enablement set with two
    classification bits, [User] for host per-user state and [Process] for
    per-invocation state; their declaration is not among the sources. *)
Definition User : Enablement := Z.shiftl EM 0.
Definition Process : Enablement := Z.shiftl EM 1.

(** [Criteria] specifies the types of op to revert; nil when absent. *)
Definition Criteria : Type := Enablement.

(** Modelled from the spec: [Criteria.hasType] is not among the sources.  An op
    whose tag does not intersect the mask is skipped; [TestCriteria] fixes the
    nil case: nil criteria accept every type but [User]. *)
Definition hasType (ec : option Criteria) (t : Enablement) : bool :=
  match ec with
  | None => negb (t =? User)
  | Some ec => negb (Z.land ec t =? 0)
  end.

(** Modelled from the spec: the [OpError] constructors are not among the
    sources; an [OpError] carries the op tag, the wrapped cause, an optional
    message, and whether it was raised by a revert. *)
Definition newOpError (op : string) (err : error) (revert : bool) : error :=
  OpError op err "" revert.

(** Modelled from the spec: [newOpErrorMessage] is not among the sources; it
    is [newOpError] with a message. *)
Definition newOpErrorMessage (op : string) (err : error) (message : string)
  (revert : bool) : error :=
  OpError op err message revert.

(** What reaches the message sink [sys.msg] and [sys.println]. *)
Inductive logArg : Type :=
| LStr (s : string)
| LInt (n : Z)
| LErr (e : error).

Inductive Msg : Type :=
| Verbosef (format : string) (args : list logArg)
| Println (args : list logArg).

(** [CgroupLimits] configures basic cgroup v2 resource controllers. *)
Record CgroupLimits : Type := {
  CPU : Z;
  Memory : Z;
  Pids : Z;
}.

Record cgroupOp : Type := {
  base : string;
  path : string;
  limits : CgroupLimits;
  created : list string;
  files : list string;
}.

Definition add_created (c : cgroupOp) (dir : string) : cgroupOp :=
  {| base := base c; path := path c; limits := limits c;
     created := created c ++ [dir]; files := files c |}.

Definition add_file (c : cgroupOp) (file : string) : cgroupOp :=
  {| base := base c; path := path c; limits := limits c;
     created := created c; files := files c ++ [file] |}.

(** [cgroupOp.Type]. *)
Definition cgroupOp_Type (c : cgroupOp) : Enablement := Process.

(** [cgroupOp.Is] against another cgroup op. *)
Definition cgroupOp_Is (c t : cgroupOp) : bool :=
  bool_decide (base c = base t) && bool_decide (path c = path t)
  && (CPU (limits c) =? CPU (limits t)) && (Memory (limits c) =? Memory (limits t))
  && (Pids (limits c) =? Pids (limits t)).

(** [cgroupOp.Path]. *)
Definition cgroupOp_Path (c : cgroupOp) : string := path c.

Section System.

(** The host the ops act on, reached through the methods of the
    [syscallDispatcher] and through package [os]. *)
Context {H : Type}.

Record syscalls : Type := {
  stat : string -> H -> option error;
  mkdir : string -> Z -> H -> H * option error;
  remove : string -> H -> H * option error;
  os_WriteFile : string -> string -> Z -> H -> H * option error;
  os_Remove : string -> H -> H * option error;
}.

Variable k : syscalls.
(** [strconv.Quote], the [%q] verb. *)
Variable strconv_Quote : string -> string.

(** The host together with the messages emitted so far. *)
Record world : Type := {
  host : H;
  msgs : list Msg;
}.

Definition verbosef (format : string) (args : list logArg) (w : world) : world :=
  {| host := host w; msgs := msgs w ++ [Verbosef format args] |}.

Definition println (args : list logArg) (w : world) : world :=
  {| host := host w; msgs := msgs w ++ [Println args] |}.

Definition on_host {A : Type} (f : H -> H * A) (w : world) : world * A :=
  let '(h, a) := f (host w) in ({| host := h; msgs := msgs w |}, a).

(** The loop of [cgroupOp.ensurePath] over [parts[i:]], [n] being
    [len(parts)]. *)
Fixpoint ensurePath_range (n i : nat) (parts : list string) (cur : string)
  (c : cgroupOp) (w : world) : cgroupOp * world * option error :=
  match parts with
  | [] => (c, w, None)
  | part :: rest =>
      if bool_decide (part = "") then ensurePath_range n (S i) rest cur c w
      else
        let cur := filepath_Join [cur; part] in
        let '(w, err) := on_host (mkdir k cur 493) w in
        match err with
        | None => ensurePath_range n (S i) rest cur (add_created c cur) w
        | Some err =>
            if errors_Is err IsErrExist then
              if bool_decide (i = (n - 1)%nat) then
                (c, w, Some (newOpErrorMessage "cgroup" err
                               ("cgroup " +:+ strconv_Quote cur +:+ " already exists")
                               false))
              else ensurePath_range n (S i) rest cur c w
            else (c, w, Some (newOpError "cgroup" err false))
        end
  end.

(** [cgroupOp.ensurePath]. *)
Definition ensurePath (c : cgroupOp) (w : world) : cgroupOp * world * option error :=
  let rel := strings_TrimPrefix (path c) (base c) in
  let rel := strings_TrimPrefix rel "/" in
  if bool_decide (rel = "") then
    (c, w, Some (newOpErrorMessage "cgroup" (Errno EINVAL)
                   "cgroup path cannot equal slice" false))
  else
    let parts := strings_Split rel slash in
    ensurePath_range (length parts) 0 parts (base c) c w.

(** [cgroupOp.writeControllerFile]. *)
Definition writeControllerFile (name value : string) (c : cgroupOp) (w : world)
  : cgroupOp * world * option error :=
  let file := filepath_Join [path c; name] in
  let '(w, err) := on_host (os_WriteFile k file value 420) w in
  match err with
  | Some err => (c, w, Some (newOpError "cgroup" err false))
  | None => (add_file c file, w, None)
  end.

(** [cgroupOp.applyLimits]. *)
Definition applyLimits (c : cgroupOp) (w : world) : cgroupOp * world * option error :=
  let '(c, w, err) :=
    if CPU (limits c) >? 0
    then writeControllerFile "cpu.max" (pretty (CPU (limits c)) +:+ " 100000") c w
    else (c, w, None) in
  match err with
  | Some err => (c, w, Some err)
  | None =>
      let '(c, w, err) :=
        if Memory (limits c) >? 0
        then writeControllerFile "memory.max" (pretty (Memory (limits c))) c w
        else (c, w, None) in
      match err with
      | Some err => (c, w, Some err)
      | None =>
          if Pids (limits c) >? 0
          then writeControllerFile "pids.max" (pretty (Pids (limits c))) c w
          else (c, w, None)
      end
  end.

(** [cgroupOp.apply]. *)
Definition cgroupOp_apply (c : cgroupOp) (w : world) : cgroupOp * world * option error :=
  let w := verbosef "configuring cgroup %q" [LStr (path c)] w in
  if negb (strings_HasPrefix (path c) (base c)) then
    (c, w, Some (newOpErrorMessage "cgroup" (Errno EINVAL)
                   "cgroup path escapes slice" false))
  else
    match stat k (base c) (host w) with
    | Some err => (c, w, Some (newOpError "cgroup" err false))
    | None =>
        let '(c, w, err) := ensurePath c w in
        match err with
        | Some err => (c, w, Some err)
        | None => applyLimits c w
        end
    end.

(** The first loop of [cgroupOp.revert], over the recorded files, last one
    first. *)
Fixpoint revert_files (files : list string) (w : world) : world :=
  match files with
  | [] => w
  | file :: rest =>
      let '(w, err) := on_host (os_Remove k file) w in
      let w :=
        match err with
        | Some err =>
            if errors_Is err IsErrNotExist then w
            else verbosef "cannot remove cgroup file %q: %v" [LStr file; LErr err] w
        | None => w
        end in
      revert_files rest w
  end.

(** The second loop of [cgroupOp.revert], over the created directories, last
    one first. *)
Fixpoint revert_created (dirs : list string) (errs : list error) (w : world)
  : world * list error :=
  match dirs with
  | [] => (w, errs)
  | dir :: rest =>
      let '(w, err) := on_host (remove k dir) w in
      match err with
      | None => revert_created rest errs w
      | Some err =>
          if errors_Is err IsErrNotExist then revert_created rest errs w
          else if errors_Is err (IsErrno ENOTEMPTY) then
            revert_created rest errs (verbosef "skipping busy cgroup path %q" [LStr dir] w)
          else revert_created rest (errs ++ [newOpError "cgroup" err true]) w
      end
  end.

(** [cgroupOp.revert]. *)
Definition cgroupOp_revert (c : cgroupOp) (ec : option Criteria) (w : world)
  : world * option error :=
  if bool_decide (ec ≠ None) && negb (hasType ec Process) then
    (verbosef "skipping revert for cgroup %q" [LStr (path c)] w, None)
  else
    let w := revert_files (rev (files c)) w in
    let '(w, errs) := revert_created (rev (created c)) [] w in
    (w, errors_Join (Some <$> errs)).

(** *** The op interface and the engine *)

(** The ops other than the cgroup op (directories, ACL updates, X11 host
    entries, sockets, the D-Bus proxy) are not among the sources; such an op
    is given by its methods and by whatever it records in itself. *)
Context {S : Type}.

Record externOp : Type := {
  ext_self : S;
  ext_tag : string;
  ext_Type : Enablement;
  ext_apply : S -> world -> S * world * option error;
  ext_revert : S -> option Criteria -> world -> world * option error;
}.

(** An [Op] held by the engine. *)
Inductive Op : Type :=
| OpCgroup (c : cgroupOp)
| OpExtern (o : externOp).

(** The tag an op reports its errors under. *)
Definition Op_tag (o : Op) : string :=
  match o with
  | OpCgroup _ => "cgroup"
  | OpExtern o => ext_tag o
  end.

(** [Op.Type]. *)
Definition Op_Type (o : Op) : Enablement :=
  match o with
  | OpCgroup c => cgroupOp_Type c
  | OpExtern o => ext_Type o
  end.

(** [Op.apply]; ops are held by reference, so what [apply] records in the op
    is there when [revert] runs. *)
Definition Op_apply (o : Op) (w : world) : Op * world * option error :=
  match o with
  | OpCgroup c =>
      let '(c, w, err) := cgroupOp_apply c w in (OpCgroup c, w, err)
  | OpExtern o =>
      let '(s, w, err) := ext_apply o (ext_self o) w in
      (OpExtern {| ext_self := s; ext_tag := ext_tag o; ext_Type := ext_Type o;
                   ext_apply := ext_apply o; ext_revert := ext_revert o |}, w, err)
  end.

(** [Op.revert]. *)
Definition Op_revert (o : Op) (ec : option Criteria) (w : world) : world * option error :=
  match o with
  | OpCgroup c => cgroupOp_revert c ec w
  | OpExtern o => ext_revert o (ext_self o) ec w
  end.

(** [I], the transaction: a user id, the ops in registration order, and the
    two latches. *)
Record I : Type := {
  uid : Z;
  ops : list Op;
  committed : bool;
  reverted : bool;
}.

(** [I.Cgroup]. *)
Definition Cgroup (sys : option I) (base target : option check.Absolute)
  (limits : CgroupLimits) : outcome I :=
  match sys, base, target with
  | Some sys, Some base, Some target =>
      Returned {| uid := uid sys;
                  ops := ops sys ++ [OpCgroup {| base := check.pathname base;
                                                 path := check.pathname target;
                                                 limits := limits;
                                                 created := []; files := [] |}];
                  committed := committed sys; reverted := reverted sys |}
  | _, _, _ => Panicked "invalid cgroup specification"
  end.

(** Modelled from the spec: the engine's revert loop is not among the sources;
    the ops are reverted last one first, each receives the criteria, and the
    errors are collected. *)
Fixpoint revert_ops (ec : option Criteria) (ops : list Op) (w : world)
  : world * list (option error) :=
  match ops with
  | [] => (w, [])
  | o :: rest =>
      let '(w, err) := Op_revert o ec w in
      let '(w, errs) := revert_ops ec rest w in
      (w, err :: errs)
  end.

(** Modelled from the spec: [I.Revert] is not among the sources; it is callable
    once, executes all ops in reverse order under the optional [criteria], and
    joins the accumulated errors. *)
Definition Revert (sys : I) (ec : option Criteria) (w : world)
  : outcome (I * world * option error) :=
  if reverted sys then Panicked "attempting to revert twice"
  else
    let '(w, errs) := revert_ops ec (rev (ops sys)) w in
    Returned ({| uid := uid sys; ops := ops sys; committed := committed sys;
                 reverted := true |}, w, errors_Join errs).

(** Modelled from the spec: the loop of [I.Commit] is not among the sources;
    the ops are applied in insertion order up to the first failure.  The
    result holds the ops applied, the ops left (the failing one first) and
    the failure. *)
Fixpoint commit_ops (todo applied : list Op) (w : world)
  : list Op * list Op * world * option error :=
  match todo with
  | [] => (applied, [], w, None)
  | o :: rest =>
      let '(o, w, err) := Op_apply o w in
      match err with
      | Some err => (applied, o :: rest, w, Some err)
      | None => commit_ops rest (applied ++ [o]) w
      end
  end.

(** Modelled from the spec: how [I.Commit] reports rollback errors is not
    among the sources; they are logged, each through [println] as
    [TestCommitRevert] expects. *)
Definition print_errors (errs : list (option error)) (w : world) : world :=
  fold_left (fun w e => println [LErr e] w) (omap id errs) w.

(** Modelled from the spec: [I.Commit] is not among the sources; it is callable
    once and executes the ops in order.  When op [i] fails the ops [[0, i)] are
    reverted in reverse order, the rollback errors are logged, and the
    original error is returned; the engine is committed regardless.  An op
    wraps its own failure in an [OpError] under its tag, as [cgroupOp.apply]
    does, and [Commit] returns it as it is.  The messages are those expected
    by [TestCommitRevert]. *)
Definition Commit (sys : I) (w : world) : outcome (I * world * option error) :=
  if committed sys then Panicked "attempting to commit twice"
  else
    let '(applied, rest, w, err) := commit_ops (ops sys) [] w in
    let sys := {| uid := uid sys; ops := applied ++ rest; committed := true;
                  reverted := reverted sys |} in
    match err with
    | None => Returned (sys, w, None)
    | Some err =>
        let w := verbosef "commit faulted after %d ops, rolling back partial commit"
                   [LInt (Z.of_nat (length applied))] w in
        let '(w, errs) := revert_ops None (rev applied) w in
        Returned (sys, print_errors errs w, Some err)
    end.

End System.

Arguments syscalls H : clear implicits.
Arguments world H : clear implicits.
Arguments externOp H S : clear implicits.
Arguments Op H S : clear implicits.
Arguments I H S : clear implicits.

End system.

(** ** Package outcome *)

Module outcome.

Section Outcome.

(** [H] and [S] are the host and the op state of package system; [X] stands
    for the exported fields of the outcome ops that are not among the
    sources, [B] for [hst.BusConfig] and [P] for [env.Paths]. *)
Context {H S X B P : Type}.

(** The implementations of [outcomeOp]; only [spCgroupOp] is among the
    sources. *)
Inductive outcomeOp : Type :=
| spParamsOp (x : X)
| spCgroupOp (Path : string)
| spRuntimeOp (x : X)
| spTmpdirOp (x : X)
| spAccountOp (x : X)
| spWaylandOp (x : X)
| spX11Op (x : X)
| spPulseOp (x : X)
| spDBusOp (x : X)
| spFilesystemOp (x : X).

(** The position of an op in the planner's sequence. *)
Inductive opKind : Type :=
| KParams | KCgroup | KRuntime | KTmpdir | KAccount
| KWayland | KX11 | KPulse | KDBus | KFilesystem.

Definition kind (op : outcomeOp) : opKind :=
  match op with
  | spParamsOp _ => KParams
  | spCgroupOp _ => KCgroup
  | spRuntimeOp _ => KRuntime
  | spTmpdirOp _ => KTmpdir
  | spAccountOp _ => KAccount
  | spWaylandOp _ => KWayland
  | spX11Op _ => KX11
  | spPulseOp _ => KPulse
  | spDBusOp _ => KDBus
  | spFilesystemOp _ => KFilesystem
  end.

Record shimParams : Type := {
  PrivPID : Z;
  Verbose : bool;
  WaitDelay : Z;
  Ops : option (list outcomeOp);
}.

Definition set_Ops (shim : shimParams) (ops : option (list outcomeOp)) : shimParams :=
  {| PrivPID := PrivPID shim; Verbose := Verbose shim; WaitDelay := WaitDelay shim;
     Ops := ops |}.

(** [stringPair] stores a value and its string representation. *)
Record stringPair (T : Type) : Type := {
  v : T;
  s : string;
}.
Arguments v {T} _.
Arguments s {T} _.

(** [newInt]. *)
Definition newInt (n : Z) : stringPair Z := {| v := n; s := pretty n |}.

(** [outcomeState]; of the unexported fields only [id] and [identity], which
    the cgroup op reads, are kept. *)
Record outcomeState : Type := {
  Shim : option shimParams;
  ID : option hst.ID;
  id : option (stringPair hst.ID);
  Identity : Z;
  identity : option (stringPair Z);
  UserID : Z;
  Container : option hst.ContainerConfig;
  Mapuid : Z;
  Mapgid : Z;
  Paths : option P;
}.

Definition set_Shim (st : outcomeState) (shim : option shimParams) : outcomeState :=
  {| Shim := shim; ID := ID st; id := id st; Identity := Identity st;
     identity := identity st; UserID := UserID st; Container := Container st;
     Mapuid := Mapuid st; Mapgid := Mapgid st; Paths := Paths st |}.

(** What [newOutcomeState] obtains from the [syscallDispatcher], the logger
    and [Hsu]. *)
Record dispatched : Type := {
  getpid : Z;
  IsVerbose : bool;
  MustID : Z;
  CopyPaths : P;
  getuid : Z;
  getgid : Z;
  overflowUid : Z;
  overflowGid : Z;
}.

(** The bounds and the default enforced on [Container.WaitDelay] by
    [newOutcomeState]. *)
Definition shimWaitDelay (d : Z) : Z :=
  if d <? 0 then 0
  else if d =? 0 then hst.WaitDelayDefault
  else if d >? hst.WaitDelayMax then hst.WaitDelayMax
  else d.

(** [newOutcomeState]; a config without container state is dereferenced. *)
Definition newOutcomeState (k : dispatched) (id : option hst.ID) (config : @hst.Config B)
  : outcome outcomeState :=
  match hst.Container config with
  | None => Panicked "invalid memory address or nil pointer dereference"
  | Some container =>
      let shim := {| PrivPID := getpid k; Verbose := IsVerbose k;
                     WaitDelay := shimWaitDelay (hst.WaitDelay container);
                     Ops := None |} in
      let '(mapuid, mapgid) :=
        if hst.has_flag (hst.Flags_ container) hst.FMapRealUID
        then (getuid k, getgid k)
        else (overflowUid k, overflowGid k) in
      Returned {| Shim := Some shim; ID := id; id := None;
                  Identity := hst.Identity config; identity := None;
                  UserID := MustID k; Container := Some container;
                  Mapuid := mapuid; Mapgid := mapgid; Paths := Some (CopyPaths k) |}
  end.

(** [outcomeStateSys] wraps [outcomeState] and the transaction; the fields
    copied from the config for ops that are not among the sources are left
    out. *)
Record outcomeStateSys : Type := {
  useRuntimeDir : bool;
  sharePath : option check.Absolute;
  runtimeSharePath : option check.Absolute;
  sys : option (system.I H S);
  state : outcomeState;
}.

Definition set_sys (st : outcomeStateSys) (i : option (system.I H S)) : outcomeStateSys :=
  {| useRuntimeDir := useRuntimeDir st; sharePath := sharePath st;
     runtimeSharePath := runtimeSharePath st; sys := i; state := state st |}.

Definition set_state (st : outcomeStateSys) (o : outcomeState) : outcomeStateSys :=
  {| useRuntimeDir := useRuntimeDir st; sharePath := sharePath st;
     runtimeSharePath := runtimeSharePath st; sys := sys st; state := o |}.

(** The result of an op's [toSystem]: the op and the state as it leaves
    them, and the error. *)
Definition planned : Type := outcome (outcomeOp * outcomeStateSys * option error).

Definition nil_dereference {A : Type} : outcome A :=
  Panicked "invalid memory address or nil pointer dereference".

(** [spCgroupOp.toSystem].  (The source hands the textual id to
    [InstancePath], whose parameter is the id; the id is what is passed
    here.) *)
Definition spCgroupOp_toSystem (Path : string) (st : outcomeStateSys) : planned :=
  match Container (state st) with
  | None => nil_dereference
  | Some container =>
      match hst.Cgroup container with
      | None => Returned (spCgroupOp Path, st, Some (Sentinel errNotEnabled))
      | Some cgroup =>
          match hst.SlicePath (Some cgroup) with
          | inr err => Returned (spCgroupOp Path, st, Some err)
          | inl slicePath =>
              match identity (state st), id (state st) with
              | Some identity, Some id =>
                  match hst.InstancePath (Some cgroup) (s identity) (Some (v id)) with
                  | inr err => Returned (spCgroupOp Path, st, Some err)
                  | inl instancePath =>
                      match system.Cgroup (sys st) (Some slicePath) (Some instancePath)
                              {| system.CPU := hst.LimitCPU cgroup;
                                 system.Memory := hst.LimitMemory cgroup;
                                 system.Pids := hst.LimitPids cgroup |} with
                      | Panicked msg => Panicked msg
                      | Returned i =>
                          Returned (spCgroupOp (check.pathname instancePath),
                                    set_sys st (Some i), None)
                      end
                  end
              | _, _ => nil_dereference
              end
          end
      end
  end.

(** The [toSystem] methods that are not among the sources; such a method
    leaves its fields, the state and an error. *)
Variable extern_toSystem :
  outcomeOp -> outcomeStateSys -> outcome (X * outcomeStateSys * option error).
(** The zero value of their fields. *)
Variable zero : X.

(** The op with its fields as [toSystem] leaves them; an op stays the
    implementation it is. *)
Definition set_fields (op : outcomeOp) (x : X) : outcomeOp :=
  match op with
  | spParamsOp _ => spParamsOp x
  | spCgroupOp Path => spCgroupOp Path
  | spRuntimeOp _ => spRuntimeOp x
  | spTmpdirOp _ => spTmpdirOp x
  | spAccountOp _ => spAccountOp x
  | spWaylandOp _ => spWaylandOp x
  | spX11Op _ => spX11Op x
  | spPulseOp _ => spPulseOp x
  | spDBusOp _ => spDBusOp x
  | spFilesystemOp _ => spFilesystemOp x
  end.

(** [outcomeOp.toSystem], dispatched on the implementation. *)
Definition outcomeOp_toSystem (op : outcomeOp) (st : outcomeStateSys) : planned :=
  match op with
  | spCgroupOp Path => spCgroupOp_toSystem Path st
  | _ =>
      match extern_toSystem op st with
      | Panicked msg => Panicked msg
      | Returned (x, st, err) => Returned (set_fields op x, st, err)
      end
  end.

(** The ops of [outcomeStateSys.toSystem], in its order. *)
Definition toSystem_ops : list outcomeOp :=
  [ spParamsOp zero; spCgroupOp "";
    spRuntimeOp zero; spTmpdirOp zero; spAccountOp zero;
    spWaylandOp zero; spX11Op zero; spPulseOp zero; spDBusOp zero;
    spFilesystemOp zero ].

(** [state.Shim.Ops = append(state.Shim.Ops, op)]. *)
Definition append_op (st : outcomeStateSys) (shim : shimParams) (op : outcomeOp)
  : outcomeStateSys :=
  set_state st
    (set_Shim (state st) (Some (set_Ops shim (Some (default [] (Ops shim) ++ [op]))))).

(** The loop of [outcomeStateSys.toSystem]. *)
Fixpoint toSystem_range (ops : list outcomeOp) (st : outcomeStateSys)
  : outcome (outcomeStateSys * option error) :=
  match ops with
  | [] => Returned (st, None)
  | op :: rest =>
      match outcomeOp_toSystem op st with
      | Panicked msg => Panicked msg
      | Returned (op, st, Some err) =>
          if errors_Is err (IsSentinel errNotEnabled) then toSystem_range rest st
          else Returned (st, Some err)
      | Returned (op, st, None) =>
          match Shim (state st) with
          | None => nil_dereference
          | Some shim => toSystem_range rest (append_op st shim op)
          end
      end
  end.

(** The runs of the loop over [ops] from [st]: [kept] holds the ops whose
    [toSystem] returned nil, as it left them; an op that returns the
    not-enabled error is passed over; any other error, or a panic, ends the
    run. *)
Inductive planning : list outcomeOp -> outcomeStateSys -> list outcomeOp
                     -> outcome (outcomeStateSys * option error) -> Prop :=
| planning_done st : planning [] st [] (Returned (st, None))
| planning_kept op ops st op' st' shim kept r :
    outcomeOp_toSystem op st = Returned (op', st', None) ->
    Shim (state st') = Some shim ->
    planning ops (append_op st' shim op') kept r ->
    planning (op :: ops) st (op' :: kept) r
| planning_omitted op ops st op' st' err kept r :
    outcomeOp_toSystem op st = Returned (op', st', Some err) ->
    errors_Is err (IsSentinel errNotEnabled) = true ->
    planning ops st' kept r ->
    planning (op :: ops) st kept r
| planning_aborted op ops st op' st' err :
    outcomeOp_toSystem op st = Returned (op', st', Some err) ->
    errors_Is err (IsSentinel errNotEnabled) = false ->
    planning (op :: ops) st [] (Returned (st', Some err))
| planning_panicked op ops st msg :
    outcomeOp_toSystem op st = Panicked msg ->
    planning (op :: ops) st [] (Panicked msg)
| planning_no_shim op ops st op' st' :
    outcomeOp_toSystem op st = Returned (op', st', None) ->
    Shim (state st') = None ->
    planning (op :: ops) st [] nil_dereference.

(** [newWithMessage] is not among the sources; it yields a message-only
    error. *)
Definition newWithMessage (msg : string) : error := errorString msg.

(** [outcomeStateSys.toSystem]. *)
Definition toSystem (st : outcomeStateSys) : outcome (outcomeStateSys * option error) :=
  match Shim (state st) with
  | None => Returned (st, Some (newWithMessage "invalid ops state reached"))
  | Some shim =>
      if bool_decide (Ops shim ≠ None)
      then Returned (st, Some (newWithMessage "invalid ops state reached"))
      else
        toSystem_range toSystem_ops
          (set_state st (set_Shim (state st) (Some (set_Ops shim (Some [])))))
  end.

End Outcome.

Arguments outcomeOp X : clear implicits.
Arguments shimParams X : clear implicits.
Arguments outcomeState X P : clear implicits.
Arguments outcomeStateSys H S X P : clear implicits.
Arguments dispatched P : clear implicits.

End outcome.

(** ** A small host to run the ops on *)

Module tmpfs.

(** A path maps to [None] when it is a directory and to its content when it
    is a file. *)
Definition t : Type := list (string * option string).

Definition lookup (p : string) (h : t) : option (option string) :=
  snd <$> List.find (fun e => bool_decide (e.1 = p)) h.

Definition parent (p : string) : string := path_Join [p; ".."].

Definition has_entries (p : string) (h : t) : bool :=
  existsb (fun e => bool_decide (parent e.1 = p) && negb (bool_decide (e.1 = p))) h.

Definition delete (p : string) (h : t) : t :=
  List.filter (fun e => negb (bool_decide (e.1 = p))) h.

Definition stat (p : string) (h : t) : option error :=
  match lookup p h with
  | Some _ => None
  | None => Some (PathError "stat" p (Errno ENOENT))
  end.

Definition mkdir (p : string) (mode : Z) (h : t) : t * option error :=
  match lookup p h, lookup (parent p) h with
  | Some _, _ => (h, Some (PathError "mkdir" p (Errno EEXIST)))
  | None, Some None => (h ++ [(p, None)], None)
  | None, _ => (h, Some (PathError "mkdir" p (Errno ENOENT)))
  end.

Definition remove (p : string) (h : t) : t * option error :=
  match lookup p h with
  | None => (h, Some (PathError "remove" p (Errno ENOENT)))
  | Some _ =>
      if has_entries p h then (h, Some (PathError "remove" p (Errno ENOTEMPTY)))
      else (delete p h, None)
  end.

Definition WriteFile (p data : string) (mode : Z) (h : t) : t * option error :=
  match lookup (parent p) h, lookup p h with
  | Some None, Some None => (h, Some (PathError "open" p (Errno 21)))
  | Some None, _ => (delete p h ++ [(p, Some data)], None)
  | _, _ => (h, Some (PathError "open" p (Errno ENOENT)))
  end.

Definition k : system.syscalls t :=
  {| system.stat := stat; system.mkdir := mkdir; system.remove := remove;
     system.os_WriteFile := WriteFile; system.os_Remove := remove |}.

(** [strconv.Quote] on text that needs no escaping. *)
Definition Quote (s : string) : string :=
  String (ascii_of_nat 34) (s +:+ String (ascii_of_nat 34) EmptyString).

Definition world0 (h : t) : system.world t := {| system.host := h; system.msgs := [] |}.

End tmpfs.

(** * Notions used in the statements, and example values *)

(** ** Notions: Strings and paths *)

Definition no_slash (e : string) : Prop := strings_IndexByte_found e slash = false.

(** A path element that [path.Clean] copies as it is. *)
Definition regular (e : string) : Prop :=
  e ≠ "" ∧ e ≠ "." ∧ e ≠ ".." ∧ no_slash e.

(** The elements that [path.Clean] keeps of a rooted path. *)
Definition rooted_elems (p : string) : list string :=
  rev (fold_left (clean_elem true) (strings_Split p slash) []).

Definition no_nul (e : string) : Prop := strings_IndexByte_found e NUL = false.

(** *** Hex encoding *)

Fixpoint string_forall (P : ascii → bool) (s : string) : bool :=
  match s with
  | EmptyString => true
  | String a r => P a && string_forall P r
  end.

(** A digit of [hextable]. *)
Definition is_lower_hex (c : ascii) : bool := strings_IndexByte_found hextable c.

(** ** Notions: Slice resolution *)

(** The path a slice resolves to. *)
Definition resolved_slice (c : hst.CgroupConfig) : string :=
  if bool_decide (hst.Slice c = "") then "/sys/fs/cgroup/hakurei.slice"
  else if path_IsAbs (hst.Slice c) then path_Clean (hst.Slice c)
  else path_Clean ("/sys/fs/cgroup/" +:+ hst.Slice c).

(** ** Notions: Instance paths *)

(** A directory, with the separator that precedes an entry. *)
Definition as_dir (p : string) : string :=
  if bool_decide (p = "/") then "/" else p +:+ "/".

Definition example_id : hst.ID :=
  [# x01; x23; x45; x67; x89; xab; xcd; xef; x01; x23; x45; x67; x89; xab; xcd; xef ].

Definition default_cgroup : hst.CgroupConfig :=
  {| hst.Slice := ""; hst.LimitCPU := 0; hst.LimitMemory := 0; hst.LimitPids := 0 |}.

Definition root_cgroup : hst.CgroupConfig :=
  {| hst.Slice := "/"; hst.LimitCPU := 0; hst.LimitMemory := 0; hst.LimitPids := 0 |}.

(** ** Notions: Validation *)

Definition example_container (wait_delay : Z) (flags : hst.Flags)
  (cgroup : option hst.CgroupConfig) : hst.ContainerConfig :=
  {| hst.Hostname := "localhost"; hst.WaitDelay := wait_delay;
     hst.Env := Some {[ "TERM" := "xterm" ]}; hst.Filesystem := None;
     hst.Username := "chronos";
     hst.Shell := Some (check.unsafeAbs "/bin/sh");
     hst.Home := Some (check.unsafeAbs "/home/chronos");
     hst.Path := Some (check.unsafeAbs "/bin/app");
     hst.Args := Some ["app-start"]; hst.Flags_ := flags; hst.Cgroup := cgroup |}.

Definition example_config (identity : Z) (container : hst.ContainerConfig)
  : @hst.Config unit :=
  {| hst.Config_ID := "com.example.app"; hst.Enablements := None;
     hst.SessionBus := None; hst.SystemBus := None; hst.DirectWayland := false;
     hst.ExtraPerms := []; hst.Identity := identity; hst.Groups := ["video"];
     hst.Container := Some container |}.

(** A [CheckInterfaces] that finds nothing to object to. *)
Definition no_objection (bus : option unit) (segment : string) : option error := None.

(** What [Config.Validate] requires besides the identity bounds and the
    cgroup section. *)
Definition plain_checks_ok {B : Type} (CheckInterfaces : option B → string → option error)
  (config : @hst.Config B) (container : hst.ContainerConfig) : Prop :=
  CheckInterfaces (hst.SessionBus config) "session" = None
  ∧ CheckInterfaces (hst.SystemBus config) "system" = None
  ∧ hst.Container config = Some container
  ∧ hst.Home container ≠ None
  ∧ hst.Shell container ≠ None
  ∧ hst.Path container ≠ None
  ∧ hst.bad_env_key (hst.Env container) = None.

(** ** Notions: Wait delay *)

Definition example_dispatched : outcome.dispatched unit :=
  {| outcome.getpid := 1000; outcome.IsVerbose := false; outcome.MustID := 0;
     outcome.CopyPaths := tt; outcome.getuid := 1000; outcome.getgid := 100;
     outcome.overflowUid := 65534; outcome.overflowGid := 65534 |}.

(** ** Notions: The JSON form of the container flags *)

(** The flag fields of the JSON form, with the bit each stands for, in the
    order of the struct. *)
Definition flag_tags : list (string * hst.Flags) :=
  [ ("seccomp_compat", hst.FSeccompCompat); ("devel", hst.FDevel);
    ("userns", hst.FUserns); ("host_net", hst.FHostNet);
    ("host_abstract", hst.FHostAbstract); ("tty", hst.FTty);
    ("multiarch", hst.FMultiarch); ("map_real_uid", hst.FMapRealUID);
    ("device", hst.FDevice); ("share_runtime", hst.FShareRuntime);
    ("share_tmpdir", hst.FShareTmpdir) ].

(** The boolean segments for a flags value: all are left out when false but
    [map_real_uid]. *)
Definition flag_rows (flags : hst.Flags) : list json_row :=
  (fun tag => (tag.1,
               negb (bool_decide (tag.1 = "map_real_uid")) && negb (hst.has_flag flags tag.2),
               JBool (hst.has_flag flags tag.2))) <$> flag_tags.

(** The flags rebuilt from eleven booleans, in the order of [UnmarshalJSON]. *)
Definition flags_of_bools (seccomp_compat devel userns host_net host_abstract tty
  multiarch map_real_uid device share_runtime share_tmpdir : bool) : hst.Flags :=
  let or_bit (b : bool) (bit f : Z) := if b then Z.lor f bit else f in
  or_bit share_tmpdir hst.FShareTmpdir
    (or_bit share_runtime hst.FShareRuntime
       (or_bit device hst.FDevice
          (or_bit map_real_uid hst.FMapRealUID
             (or_bit multiarch hst.FMultiarch
                (or_bit tty hst.FTty
                   (or_bit host_abstract hst.FHostAbstract
                      (or_bit host_net hst.FHostNet
                         (or_bit userns hst.FUserns
                            (or_bit devel hst.FDevel
                               (or_bit seccomp_compat hst.FSeccompCompat 0)))))))))).

(** The flags read back from the flags' own booleans. *)
Definition flags_roundtrip (f : hst.Flags) : hst.Flags :=
  flags_of_bools (hst.has_flag f hst.FSeccompCompat) (hst.has_flag f hst.FDevel)
    (hst.has_flag f hst.FUserns) (hst.has_flag f hst.FHostNet)
    (hst.has_flag f hst.FHostAbstract) (hst.has_flag f hst.FTty)
    (hst.has_flag f hst.FMultiarch) (hst.has_flag f hst.FMapRealUID)
    (hst.has_flag f hst.FDevice) (hst.has_flag f hst.FShareRuntime)
    (hst.has_flag f hst.FShareTmpdir).

(** The document written for a container config, as segments. *)
Definition container_rows (c : hst.ContainerConfig) : list json_row :=
  hst.ContainerConfigF_rows c ++ flag_rows (hst.Flags_ c).

(** What the Go types of a container config guarantee: integers within the
    range of their type and absolute paths that their constructor accepts. *)
Definition valid_Absolute (a : option check.Absolute) : Prop :=
  match a with
  | None => True
  | Some a => check.NewAbs (check.pathname a) = inl a
  end.

Definition ContainerConfig_wf (c : hst.ContainerConfig) : Prop :=
  (min_int64 <= hst.WaitDelay c <= max_int64)
  ∧ valid_Absolute (hst.Shell c)
  ∧ valid_Absolute (hst.Home c)
  ∧ valid_Absolute (hst.Path c)
  ∧ match hst.Cgroup c with
    | None => True
    | Some g => (0 <= hst.LimitCPU g <= max_uint64)
                ∧ (0 <= hst.LimitMemory g <= max_uint64)
                ∧ (min_int64 <= hst.LimitPids g <= max_int64)
    end.

Definition example_flags : hst.Flags := Z.lor hst.FMapRealUID hst.FDevel.

(** ** Notions: Strings in a document *)

(** [utf8.ValidString]: every byte starts or continues a well-formed rune;
    [skip] counts the bytes still to pass of the rune under way. *)
Fixpoint utf8_valid_from (skip : nat) (s : string) : bool :=
  match s with
  | EmptyString => true
  | String b r =>
      match skip with
      | S n => utf8_valid_from n r
      | O =>
          match utf8_size s with
          | Some n => utf8_valid_from (n - 1) r
          | None => false
          end
      end
  end.

Definition utf8_ValidString (s : string) : bool := utf8_valid_from 0 s.

Definition valid_text (s : string) : Prop := utf8_ValidString s = true.

Definition valid_text_path (a : option check.Absolute) : Prop :=
  match a with
  | None => True
  | Some a => valid_text (check.pathname a)
  end.

(** A container config that a document holds as it is: its strings are
    valid UTF-8, and it has no mount points, whose JSON form is not among the
    sources. *)
Definition ContainerConfig_text (c : hst.ContainerConfig) : Prop :=
  valid_text (hst.Hostname c)
  ∧ valid_text (hst.Username c)
  ∧ match hst.Env c with
    | None => True
    | Some m => map_Forall (fun k v => valid_text k ∧ valid_text v) m
    end
  ∧ Forall valid_text (default [] (hst.Args c))
  ∧ valid_text_path (hst.Shell c)
  ∧ valid_text_path (hst.Home c)
  ∧ valid_text_path (hst.Path c)
  ∧ match hst.Cgroup c with
    | None => True
    | Some g => valid_text (hst.Slice g)
    end
  ∧ default [] (hst.Filesystem c) = [].

(** An absolute path as it comes back. *)
Definition Absolute_coerce (a : option check.Absolute) : option check.Absolute :=
  (fun a => check.unsafeAbs (json_coerce (check.pathname a))) <$> a.

(** A cgroup section as it comes back. *)
Definition CgroupConfig_coerce (g : hst.CgroupConfig) : hst.CgroupConfig :=
  {| hst.Slice := json_coerce (hst.Slice g); hst.LimitCPU := hst.LimitCPU g;
     hst.LimitMemory := hst.LimitMemory g; hst.LimitPids := hst.LimitPids g |}.

(** The environment as it comes back. *)
Definition Env_coerce (m : gmap string string) : gmap string string :=
  list_to_map (reverse ((fun kv => (json_coerce kv.1, json_coerce kv.2))
                          <$> merge_sort hst.key_le (map_to_list m)))
  ∪ ∅.

(** The embedded struct as it comes back, with no flags. *)
Definition ContainerConfig_coerce (c : hst.ContainerConfig) : hst.ContainerConfig :=
  {| hst.Hostname := json_coerce (hst.Hostname c); hst.WaitDelay := hst.WaitDelay c;
     hst.Env := Env_coerce <$> hst.Env c; hst.Filesystem := hst.Filesystem c;
     hst.Username := json_coerce (hst.Username c);
     hst.Shell := Absolute_coerce (hst.Shell c);
     hst.Home := Absolute_coerce (hst.Home c);
     hst.Path := Absolute_coerce (hst.Path c);
     hst.Args := (fun l : list string => json_coerce <$> l) <$> hst.Args c;
     hst.Flags_ := 0;
     hst.Cgroup := CgroupConfig_coerce <$> hst.Cgroup c |}.


(** ** Notions: The cgroup op *)

(** [target] lies beneath [base]: it is [base], a separator, and at least one
    more byte. *)
Definition lies_beneath (base target : string) : bool :=
  match drop_prefix (as_dir base) target with
  | Some rest => negb (bool_decide (rest = ""))
  | None => false
  end.

(** The refusal of [cgroupOp.apply]. *)
Definition escapes_slice : error :=
  OpError "cgroup" (Errno EINVAL) "cgroup path escapes slice" false.

Definition sibling_op : system.cgroupOp :=
  {| system.base := "/tmp/b"; system.path := "/tmp/bc";
     system.limits := {| system.CPU := 50000; system.Memory := 0; system.Pids := 0 |};
     system.created := []; system.files := [] |}.

Definition sibling_host : tmpfs.t :=
  [("/", None); ("/tmp", None); ("/tmp/b", None); ("/tmp/bc", None)].

(** ** Notions: The engine *)

Section EngineNotions.

Context {H S : Type} (k : system.syscalls H) (Q : string → string).

(** The ops [os] applied in order from [w] all succeed; they leave the ops
    [os'] and the world [w']. *)
Inductive applied : system.world H → list (system.Op H S) → list (system.Op H S)
                    → system.world H → Prop :=
| applied_nil w : applied w [] [] w
| applied_cons w o o' w1 os os' w2 :
    system.Op_apply k Q o w = (o', w1, None) →
    applied w1 os os' w2 →
    applied w (o :: os) (o' :: os') w2.

(** The ops [os] reverted in order from [w] under [ec]; they leave the world
    [w'] and return [errs], one result per op. *)
Inductive reverted_in_order (ec : option system.Criteria)
  : system.world H → list (system.Op H S) → system.world H → list (option error) → Prop :=
| reverted_nil w : reverted_in_order ec w [] w []
| reverted_cons w o w1 e os w2 es :
    system.Op_revert k o ec w = (w1, e) →
    reverted_in_order ec w1 os w2 es →
    reverted_in_order ec w (o :: os) w2 (e :: es).

(** Of the ops [os], taken in order from [w], those whose type intersects
    [ec] are reverted and return [errs]; the others leave a verbose message
    and nothing else. *)
Inductive reverted_selectively (ec : system.Criteria)
  : system.world H → list (system.Op H S) → system.world H → list (option error) → Prop :=
| selectively_nil w : reverted_selectively ec w [] w []
| selectively_run w o w1 e os w2 es :
    Z.land ec (system.Op_Type o) ≠ 0 →
    system.Op_revert k o (Some ec) w = (w1, e) →
    reverted_selectively ec w1 os w2 es →
    reverted_selectively ec w (o :: os) w2 (e :: es)
| selectively_skip w o format args os w2 es :
    Z.land ec (system.Op_Type o) = 0 →
    reverted_selectively ec (system.verbosef format args w) os w2 es →
    reverted_selectively ec w (o :: os) w2 es.

(** An op reports a failed [apply] as an [OpError] under its own tag. *)
Definition reports_own_tag (o : system.Op H S) : Prop :=
  ∀ w o' w' e, system.Op_apply k Q o w = (o', w', Some e) →
    ∃ cause msg, e = OpError (system.Op_tag o) cause msg false.

(** An op whose type the criteria leave out skips its [revert] with a verbose
    message. *)
Definition honours_criteria (o : system.Op H S) : Prop :=
  ∀ (ec : system.Criteria) w, Z.land ec (system.Op_Type o) = 0 →
    ∃ format args,
      system.Op_revert k o (Some ec) w = (system.verbosef format args w, None).

End EngineNotions.

(** ** Notions: Planning *)

(** The kinds of [toSystem_ops]. *)
Definition planner_order : list outcome.opKind :=
  [ outcome.KParams; outcome.KCgroup; outcome.KRuntime; outcome.KTmpdir;
    outcome.KAccount; outcome.KWayland; outcome.KX11; outcome.KPulse; outcome.KDBus;
    outcome.KFilesystem ].

(** No op other than the planner itself touches the shim parameters. *)
Definition leaves_Shim {H S X P : Type}
  (extern_toSystem : outcome.outcomeOp X → outcome.outcomeStateSys H S X P
                     → outcome (X * outcome.outcomeStateSys H S X P * option error))
  : Prop :=
  ∀ op st x st' e, extern_toSystem op st = Returned (x, st', e) →
    outcome.Shim (outcome.state st') = outcome.Shim (outcome.state st).

(** ** Notions: Runs on the small host *)

Definition lifecycle_host : tmpfs.t := [("/", None); ("/tmp", None)].

(** The op of [TestCgroupOp]. *)
Definition lifecycle_op : system.cgroupOp :=
  {| system.base := "/tmp"; system.path := "/tmp/hakurei-1/instance";
     system.limits := {| system.CPU := 50000; system.Memory := 2048; system.Pids := 16 |};
     system.created := []; system.files := [] |}.

(** An op whose target is outside of its base. *)
Definition escaping_op : system.cgroupOp :=
  {| system.base := "/tmp/hakurei-1"; system.path := "/etc";
     system.limits := {| system.CPU := 0; system.Memory := 0; system.Pids := 0 |};
     system.created := []; system.files := [] |}.

(** The lifecycle op and the world once it is applied. *)
Definition lifecycle_applied : system.cgroupOp * system.world tmpfs.t * option error :=
  Eval vm_compute in
    system.cgroupOp_apply tmpfs.k tmpfs.Quote lifecycle_op (tmpfs.world0 lifecycle_host).

Definition faulty_transaction : system.I tmpfs.t unit :=
  {| system.uid := 48879;
     system.ops := [system.OpCgroup lifecycle_op; system.OpCgroup escaping_op];
     system.committed := false; system.reverted := false |}.

Definition committed_transaction : system.I tmpfs.t unit :=
  {| system.uid := 48879;
     system.ops := [system.OpCgroup lifecycle_applied.1.1];
     system.committed := true; system.reverted := false |}.

(** Ops other than the cgroup op that do nothing; those of the enablements
    are not enabled. *)
Definition idle_toSystem (op : outcome.outcomeOp unit)
  (st : outcome.outcomeStateSys tmpfs.t unit unit unit)
  : outcome (unit * outcome.outcomeStateSys tmpfs.t unit unit unit * option error) :=
  Returned (tt, st,
            match outcome.kind op with
            | outcome.KWayland | outcome.KX11 | outcome.KPulse | outcome.KDBus =>
                Some (Sentinel errNotEnabled)
            | _ => None
            end).

Definition example_shim : outcome.shimParams unit :=
  {| outcome.PrivPID := 1000; outcome.Verbose := false;
     outcome.WaitDelay := 5000000000; outcome.Ops := None |}.

Definition example_state : outcome.outcomeStateSys tmpfs.t unit unit unit :=
  {| outcome.useRuntimeDir := false; outcome.sharePath := None;
     outcome.runtimeSharePath := None;
     outcome.sys := Some {| system.uid := 1000042; system.ops := [];
                            system.committed := false; system.reverted := false |};
     outcome.state :=
       {| outcome.Shim := Some example_shim; outcome.ID := Some example_id;
          outcome.id := Some {| outcome.v := example_id;
                                outcome.s := hst.ID_String example_id |};
          outcome.Identity := 42; outcome.identity := Some (outcome.newInt 42);
          outcome.UserID := 10; outcome.Container := Some (example_container 0 0 None);
          outcome.Mapuid := 65534; outcome.Mapgid := 65534; outcome.Paths := Some tt |} |}.

(** * More of the sources *)

(** ** Package hst: string forms *)

(** The single flags that [Flags.String] names in its switch. *)
Definition Flags_name (flags : hst.Flags) : option string :=
  if flags =? hst.FMultiarch then Some "multiarch"
  else if flags =? hst.FSeccompCompat then Some "compat"
  else if flags =? hst.FDevel then Some "devel"
  else if flags =? hst.FUserns then Some "userns"
  else if flags =? hst.FHostNet then Some "net"
  else if flags =? hst.FHostAbstract then Some "abstract"
  else if flags =? hst.FTty then Some "tty"
  else if flags =? hst.FMapRealUID then Some "mapuid"
  else if flags =? hst.FDevice then Some "device"
  else if flags =? hst.FShareRuntime then Some "runtime"
  else if flags =? hst.FShareTmpdir then Some "tmpdir"
  else None.

(** The loop [for f := Flags(1); f < fMax; f <<= 1] of the default case;
    [rec] is the call [f.String()].  A step is taken per test of the loop
    condition; [None] when the steps run out. *)
Fixpoint Flags_String_loop (rec : hst.Flags -> option string) (steps : nat)
  (flags f : hst.Flags) (s : list string) : option (list string) :=
  match steps with
  | O => None
  | S steps =>
      if f <? hst.fMax then
        if hst.has_flag flags f then
          match rec f with
          | Some name => Flags_String_loop rec steps flags (Z.shiftl f 1) (s ++ [name])
          | None => None
          end
        else Flags_String_loop rec steps flags (Z.shiftl f 1) s
      else Some s
  end.

(** [Flags.String]; [None] when the fuel runs out. *)
Fixpoint Flags_String (fuel : nat) (flags : hst.Flags) : option string :=
  match fuel with
  | O => None
  | S fuel =>
      match Flags_name flags with
      | Some name => Some name
      | None =>
          match Flags_String_loop (Flags_String fuel) fuel flags 1 [] with
          | None => None
          | Some [] => Some "none"
          | Some s => Some (String.concat ", " s)
          end
      end
  end.

(** [buf[i] = c]. *)
Fixpoint set_byte (i : nat) (c : ascii) (buf : string) : string :=
  match buf, i with
  | EmptyString, _ => EmptyString
  | String _ r, O => String c r
  | String a r, S i => String a (set_byte i c r)
  end.

(** [ExtraPermConfig.String]. *)
Definition ExtraPermConfig_String (e : option hst.ExtraPermConfig) : string :=
  match e with
  | None => "<invalid>"
  | Some e =>
      match hst.ExtraPerm_Path e with
      | None => "<invalid>"
      | Some p =>
          let buf := "---" in
          let buf := if hst.Ensure e then buf +:+ "+" else buf in
          let buf := buf +:+ ":" in
          let buf := buf +:+ check.pathname p in
          let buf := if hst.Read e then set_byte 0 "r" buf else buf in
          let buf := if hst.Write e then set_byte 1 "w" buf else buf in
          let buf := if hst.Execute e then set_byte 2 "x" buf else buf in
          buf
      end
  end.

(** The defined flags and their names, in the order of their bits. *)
Definition Flags_table : list (hst.Flags * string) :=
  [ (hst.FMultiarch, "multiarch"); (hst.FSeccompCompat, "compat");
    (hst.FDevel, "devel"); (hst.FUserns, "userns"); (hst.FHostNet, "net");
    (hst.FHostAbstract, "abstract"); (hst.FTty, "tty");
    (hst.FMapRealUID, "mapuid"); (hst.FDevice, "device");
    (hst.FShareRuntime, "runtime"); (hst.FShareTmpdir, "tmpdir") ].

(** The names of the flags set in [flags], in the order of their bits. *)
Definition flag_names (flags : hst.Flags) : list string :=
  omap (fun entry : hst.Flags * string =>
          if hst.has_flag flags entry.1 then Some entry.2 else None)
    Flags_table.

(** An environment variable name that [Config.Validate] objects to. *)
Definition bad_env_name (key : string) : bool :=
  strings_IndexByte_found key "="%char || strings_IndexByte_found key NUL.

(** ** A host that keeps a journal *)

Module journal.

(** The calls of [system.syscalls] that act on the host. *)
Inductive call : Type :=
| Mkdir (name : string) (perm : Z)
| Remove (name : string)
| WriteFile (name data : string) (perm : Z)
| OsRemove (name : string).

(** The calls made so far, the first one first. *)
Definition t : Type := list call.

Section Journal.

(** What the host answers to [stat] and to each call, given the calls that
    came before: any host that answers by its state is of this form. *)
Variable stat_answer : t -> string -> option error.
Variable answer : t -> call -> option error.

Definition record (c : call) (h : t) : t * option error := (h ++ [c], answer h c).

Definition k : system.syscalls t :=
  {| system.stat name h := stat_answer h name;
     system.mkdir name perm := record (Mkdir name perm);
     system.remove name := record (Remove name);
     system.os_WriteFile name data perm := record (WriteFile name data perm);
     system.os_Remove name := record (OsRemove name) |}.

End Journal.

End journal.

(** ** Notions: What the cgroup op does to the host *)

(** The directories from the one named by the elements [cs] down to the one
    named by [cs ++ rel], the nearest first. *)
Fixpoint descend (cs rel : list string) : list string :=
  match rel with
  | [] => []
  | e :: rel => String slash (join_slash (cs ++ [e])) :: descend (cs ++ [e]) rel
  end.

(** The controller files of the limits that are set, with their contents. *)
Definition limit_files (l : system.CgroupLimits) : list (string * string) :=
  (if system.CPU l >? 0 then [("cpu.max", pretty (system.CPU l) +:+ " 100000")] else [])
  ++ (if system.Memory l >? 0 then [("memory.max", pretty (system.Memory l))] else [])
  ++ (if system.Pids l >? 0 then [("pids.max", pretty (system.Pids l))] else []).

(** The calls of a [cgroupOp.apply] that meets no failure, for a slice of
    elements [cs] and a target [rel] beneath it. *)
Definition apply_plan (cs rel : list string) (l : system.CgroupLimits) : list journal.call :=
  ((fun dir => journal.Mkdir dir 493) <$> descend cs rel)
  ++ ((fun file : string * string =>
         journal.WriteFile (String slash (join_slash (cs ++ rel ++ [file.1]))) file.2 420)
        <$> limit_files l).

(** A removal result that [cgroupOp.revert] does not report. *)
Definition tolerated (err : option error) : bool :=
  match err with
  | None => true
  | Some err => errors_Is err IsErrNotExist || errors_Is err (IsErrno ENOTEMPTY)
  end.

(** What an op keeps of itself across [apply]: what identifies it, and what
    it had recorded before. *)
Definition extends (c c' : system.cgroupOp) : Prop :=
  system.base c' = system.base c
  ∧ system.path c' = system.path c
  ∧ system.limits c' = system.limits c
  ∧ system.created c `prefix_of` system.created c'
  ∧ system.files c `prefix_of` system.files c'.

(** An error as [cgroupOp.revert] reports it: a directory removal that failed
    for a reason other than the directory being gone or still in use. *)
Definition revert_report (err : error) : Prop :=
  ∃ cause, err = OpError "cgroup" cause "" true
           ∧ errors_Is cause IsErrNotExist = false
           ∧ errors_Is cause (IsErrno ENOTEMPTY) = false.

(** ** Package container *)

Module container.

(** Values of package [syscall] on Linux. *)
Definition SIGKILL : Z := 9.
Definition SIGUSR2 : Z := 12.
Definition ENOSYS : Z := 38.
Definition O_RDONLY : Z := 0.
Definition O_CLOEXEC : Z := 0x80000.
Definition CLONE_NEWNS : Z := 0x20000.
Definition CLONE_NEWCGROUP : Z := 0x2000000.
Definition CLONE_NEWUTS : Z := 0x4000000.
Definition CLONE_NEWIPC : Z := 0x8000000.
Definition CLONE_NEWUSER : Z := 0x10000000.
Definition CLONE_NEWPID : Z := 0x20000000.
Definition CLONE_NEWNET : Z := 0x40000000.

(** [CancelSignal] is the signal expected by container init on context
    cancel. *)
Definition CancelSignal : Z := SIGUSR2.

(** [initSetupTimeout], in nanoseconds. *)
Definition initSetupTimeout : Z := 5 * 1000000000.

(** A [StartError] contains additional information on a container startup
    failure. *)
Record StartError : Type := {
  Fatal : bool;
  Step : string;
  Err : error;
  Origin : bool;
  Passthrough : bool;
}.

(** What the methods of [Container] return as an [error]: the address of a
    [StartError], or another error. *)
Inductive failure : Type :=
| Started (e : StartError)
| Other (e : error).

(** What reaches the logger [p.msg]. *)
Inductive Msg : Type :=
| Verbosef (format : string) (args : list system.logArg)
| Verbose (text : string).

Section Container.

(** [F] stands for [*os.File], [IO] for the readers and writers handed to
    the child, [C] for a custom cancel function, [O] for a setup op of
    [Ops] and [R] for [std.NativeRule]; none of them is among the sources. *)
Context {F IO C O R : Type}.

(** [Params] holds container configuration and is safe to serialise. *)
Record Params : Type := {
  Dir : option check.Absolute;
  Env : list string;
  Path : option check.Absolute;
  Args : list string;
  CgroupPath : option check.Absolute;
  ForwardCancel : bool;
  AdoptWaitDelay : Z;
  Uid : Z;
  Gid : Z;
  Hostname : string;
  Ops : option (list O);
  SeccompRules : option (list R);
  SeccompFlags : Z;
  SeccompPresets : Z;
  SeccompDisable : bool;
  ParentPerm : Z;
  RetainSession : bool;
  HostNet : bool;
  HostAbstract : bool;
  Privileged : bool;
}.

(** [syscall.SysProcAttr], the fields that [Start] sets. *)
Record SysProcAttr : Type := {
  Setsid : bool;
  Pdeathsig : Z;
  Cloneflags : Z;
  AmbientCaps : list Z;
  UseCgroupFD : bool;
  CgroupFD : Z;
}.

(** The function held by [exec.Cmd.Cancel]: unset, the call of a custom
    [Container.Cancel], or the delivery of a signal to the process. *)
Inductive cancelFunc : Type :=
| CancelUnset
| CancelCustom (f : C)
| CancelSignalProcess (sig : Z).

(** [exec.Cmd], the fields that [Container] reads and writes; [Process]
    holds the process id once started. *)
Record Cmd : Type := {
  Process : option Z;
  cmd_Stdin : option IO;
  cmd_Stdout : option IO;
  cmd_Stderr : option IO;
  cmd_Args : list string;
  cmd_WaitDelay : Z;
  cmd_Cancel : cancelFunc;
  cmd_Dir : string;
  cmd_SysProcAttr : option SysProcAttr;
  cmd_Env : list string;
  cmd_ExtraFiles : list F;
}.

(** [Container]: [cancel] holds whether the context has been cancelled, nil
    when the container has no cancel function; [wait] holds whether the
    channel has been closed, nil before [Start] makes it. *)
Record Container : Type := {
  ExtraFiles : list F;
  setup : option F;
  cancel : option bool;
  wait : option bool;
  Stdin : option IO;
  Stdout : option IO;
  Stderr : option IO;
  Cancel : option C;
  WaitDelay : Z;
  cmd : option Cmd;
  params : Params;
}.

(** [initParams], what [Serve] sends to the container init. *)
Record initParams : Type := {
  init_Params : Params;
  HostUid : Z;
  HostGid : Z;
  Count : Z;
  init_Verbose : bool;
}.

(** The host as the methods reach it, through packages [os], [os/exec],
    [syscall], [runtime] and [encoding/gob] and through the functions of
    this package that are not among the sources ([OverflowUid],
    [OverflowGid], [Setup], [SetNoNewPrivs] and the Landlock calls). *)
Context {W : Type}.

Record kernel : Type := {
  os_ReadDir : string -> W -> W * (list string + error);
  CloseOnExec : Z -> W -> W;
  OverflowUid : W -> W * Z;
  OverflowGid : W -> W * Z;
  os_OpenFile : string -> Z -> Z -> W -> W * (F + error);
  File_Fd : F -> Z;
  File_Close : F -> W -> W * option error;
  File_SetDeadline : F -> Z -> W -> W * option error;
  Setup : list F -> W -> W * (list F * Z * F + error);
  LockOSThread : W -> W;
  SetNoNewPrivs : W -> W * option error;
  LandlockGetABI : W -> W * (Z + error);
  RulesetAttr_Create : Z -> Z -> W -> W * (Z + error);
  LandlockRestrictSelf : Z -> Z -> W -> W * option error;
  Close : Z -> W -> W * option error;
  exec_Start : Cmd -> W -> W * (Z + error);
  exec_Wait : Cmd -> W -> W * option error;
  gob_Encode : F -> initParams -> W -> W * option error;
  Getuid : W -> Z;
  Getgid : W -> Z;
}.

(** The constants of this repository that [Container] uses and that are not
    among the sources. *)
Record constants : Type := {
  initName : string;
  setupEnv : string;
  PresetDenyTTY : Z;
  CAP_SYS_ADMIN : Z;
  CAP_SETPCAP : Z;
  CAP_DAC_OVERRIDE : Z;
  LANDLOCK_SCOPE_SIGNAL : Z;
  LANDLOCK_SCOPE_ABSTRACT_UNIX_SOCKET : Z;
  fhs_Root : string;
  fhs_AbsRoot : check.Absolute;
}.

Variable k : kernel.
Variable pkg : constants.
(** [strconv.Atoi]. *)
Variable strconv_Atoi : string -> Z + error.

(** The process: the host, the package variables [closeOnExecOnce] and
    [closeOnExecErr], and the logger with what it was sent. *)
Record machine : Type := {
  os : W;
  closeOnExecOnce : bool;
  closeOnExecErr : option error;
  IsVerbose : bool;
  msgs : list Msg;
}.

Definition set_os (m : machine) (w : W) : machine :=
  {| os := w; closeOnExecOnce := closeOnExecOnce m; closeOnExecErr := closeOnExecErr m;
     IsVerbose := IsVerbose m; msgs := msgs m |}.

Definition say (msg : Msg) (m : machine) : machine :=
  {| os := os m; closeOnExecOnce := closeOnExecOnce m; closeOnExecErr := closeOnExecErr m;
     IsVerbose := IsVerbose m; msgs := msgs m ++ [msg] |}.

(** A call on the host. *)
Definition call {A : Type} (f : W -> W * A) (m : machine) : machine * A :=
  let '(w, a) := f (os m) in (set_os m w, a).

(** The loop of [ensureCloseOnExec] over the entries; the error is what is
    left in [closeOnExecErr]. *)
Fixpoint closeOnExec_range (entries : list string) (w : W) : W * option error :=
  match entries with
  | [] => (w, None)
  | ent :: rest =>
      match strconv_Atoi ent with
      | inr err => (w, Some err)
      | inl fd => closeOnExec_range rest (CloseOnExec k fd w)
      end
  end.

(** [ensureCloseOnExec]. *)
Definition ensureCloseOnExec (m : machine) : machine * option failure :=
  let m :=
    if closeOnExecOnce m then m
    else
      let '(w, entries) := os_ReadDir k "/proc/self/fd/" (os m) in
      let '(w, err) :=
        match entries with
        | inr err => (w, Some err)
        | inl entries => closeOnExec_range entries w
        end in
      {| os := w; closeOnExecOnce := true; closeOnExecErr := err;
         IsVerbose := IsVerbose m; msgs := msgs m |} in
  match closeOnExecErr m with
  | None => (m, None)
  | Some err =>
      (m, Some (Started {| Fatal := true; Step := "set FD_CLOEXEC on all open files";
                           Err := err; Origin := false; Passthrough := true |}))
  end.

(** *** Field updates *)

Definition set_ids (q : Params) (uid gid : Z) : Params :=
  {| Dir := Dir q; Env := Env q; Path := Path q; Args := Args q;
     CgroupPath := CgroupPath q; ForwardCancel := ForwardCancel q;
     AdoptWaitDelay := AdoptWaitDelay q; Uid := uid; Gid := gid;
     Hostname := Hostname q; Ops := Ops q; SeccompRules := SeccompRules q;
     SeccompFlags := SeccompFlags q; SeccompPresets := SeccompPresets q;
     SeccompDisable := SeccompDisable q; ParentPerm := ParentPerm q;
     RetainSession := RetainSession q; HostNet := HostNet q;
     HostAbstract := HostAbstract q; Privileged := Privileged q |}.

Definition set_SeccompPresets (q : Params) (presets : Z) : Params :=
  {| Dir := Dir q; Env := Env q; Path := Path q; Args := Args q;
     CgroupPath := CgroupPath q; ForwardCancel := ForwardCancel q;
     AdoptWaitDelay := AdoptWaitDelay q; Uid := Uid q; Gid := Gid q;
     Hostname := Hostname q; Ops := Ops q; SeccompRules := SeccompRules q;
     SeccompFlags := SeccompFlags q; SeccompPresets := presets;
     SeccompDisable := SeccompDisable q; ParentPerm := ParentPerm q;
     RetainSession := RetainSession q; HostNet := HostNet q;
     HostAbstract := HostAbstract q; Privileged := Privileged q |}.

Definition set_AdoptWaitDelay (q : Params) (d : Z) : Params :=
  {| Dir := Dir q; Env := Env q; Path := Path q; Args := Args q;
     CgroupPath := CgroupPath q; ForwardCancel := ForwardCancel q;
     AdoptWaitDelay := d; Uid := Uid q; Gid := Gid q;
     Hostname := Hostname q; Ops := Ops q; SeccompRules := SeccompRules q;
     SeccompFlags := SeccompFlags q; SeccompPresets := SeccompPresets q;
     SeccompDisable := SeccompDisable q; ParentPerm := ParentPerm q;
     RetainSession := RetainSession q; HostNet := HostNet q;
     HostAbstract := HostAbstract q; Privileged := Privileged q |}.

Definition set_Dir_SeccompRules (q : Params) (dir : option check.Absolute)
  (rules : option (list R)) : Params :=
  {| Dir := dir; Env := Env q; Path := Path q; Args := Args q;
     CgroupPath := CgroupPath q; ForwardCancel := ForwardCancel q;
     AdoptWaitDelay := AdoptWaitDelay q; Uid := Uid q; Gid := Gid q;
     Hostname := Hostname q; Ops := Ops q; SeccompRules := rules;
     SeccompFlags := SeccompFlags q; SeccompPresets := SeccompPresets q;
     SeccompDisable := SeccompDisable q; ParentPerm := ParentPerm q;
     RetainSession := RetainSession q; HostNet := HostNet q;
     HostAbstract := HostAbstract q; Privileged := Privileged q |}.

Definition set_CgroupPath (q : Params) (pathname : option check.Absolute) : Params :=
  {| Dir := Dir q; Env := Env q; Path := Path q; Args := Args q;
     CgroupPath := pathname; ForwardCancel := ForwardCancel q;
     AdoptWaitDelay := AdoptWaitDelay q; Uid := Uid q; Gid := Gid q;
     Hostname := Hostname q; Ops := Ops q; SeccompRules := SeccompRules q;
     SeccompFlags := SeccompFlags q; SeccompPresets := SeccompPresets q;
     SeccompDisable := SeccompDisable q; ParentPerm := ParentPerm q;
     RetainSession := RetainSession q; HostNet := HostNet q;
     HostAbstract := HostAbstract q; Privileged := Privileged q |}.

(** The container with other parameters, setup pipe, wait channel and
    cancellation state. *)
Definition set_Container (p : Container) (q : Params) (setup : option F)
  (cancel wait : option bool) (c : option Cmd) : Container :=
  {| ExtraFiles := ExtraFiles p; setup := setup; cancel := cancel; wait := wait;
     Stdin := Stdin p; Stdout := Stdout p; Stderr := Stderr p; Cancel := Cancel p;
     WaitDelay := WaitDelay p; cmd := c; params := q |}.

Definition set_params (p : Container) (q : Params) : Container :=
  set_Container p q (setup p) (cancel p) (wait p) (cmd p).

Definition set_cmd (p : Container) (c : option Cmd) : Container :=
  set_Container p (params p) (setup p) (cancel p) (wait p) c.

(** What [Start] writes into [p.cmd] before the cgroup directory is
    opened. *)
Definition prepare_cmd (p : Container) (c : Cmd) : Cmd :=
  {| Process := Process c;
     cmd_Stdin := if bool_decide (cmd_Stdin c = None) then Stdin p else cmd_Stdin c;
     cmd_Stdout := if bool_decide (cmd_Stdout c = None) then Stdout p else cmd_Stdout c;
     cmd_Stderr := if bool_decide (cmd_Stderr c = None) then Stderr p else cmd_Stderr c;
     cmd_Args := [initName pkg];
     cmd_WaitDelay := WaitDelay p;
     cmd_Cancel := match Cancel p with
                   | Some f => CancelCustom f
                   | None => CancelSignalProcess CancelSignal
                   end;
     cmd_Dir := fhs_Root pkg;
     cmd_SysProcAttr := cmd_SysProcAttr c;
     cmd_Env := cmd_Env c;
     cmd_ExtraFiles := cmd_ExtraFiles c |}.

Definition set_launch (c : Cmd) (attr : option SysProcAttr) (env : list string)
  (extra : list F) (process : option Z) : Cmd :=
  {| Process := process; cmd_Stdin := cmd_Stdin c; cmd_Stdout := cmd_Stdout c;
     cmd_Stderr := cmd_Stderr c; cmd_Args := cmd_Args c; cmd_WaitDelay := cmd_WaitDelay c;
     cmd_Cancel := cmd_Cancel c; cmd_Dir := cmd_Dir c; cmd_SysProcAttr := attr;
     cmd_Env := env; cmd_ExtraFiles := extra |}.

(** *** [Start] *)

(** The attributes [Start] gives the child. *)
Definition start_attr (q : Params) (cgroupFile : option F) : SysProcAttr :=
  let attr :=
    {| Setsid := negb (RetainSession q);
       Pdeathsig := SIGKILL;
       Cloneflags :=
         Z.lor (Z.lor (Z.lor (Z.lor (Z.lor CLONE_NEWUSER CLONE_NEWPID) CLONE_NEWNS)
                         CLONE_NEWIPC) CLONE_NEWUTS) CLONE_NEWCGROUP;
       AmbientCaps := [CAP_SYS_ADMIN pkg; CAP_SETPCAP pkg; CAP_DAC_OVERRIDE pkg];
       UseCgroupFD := false;
       CgroupFD := 0 |} in
  let attr :=
    match cgroupFile with
    | Some f =>
        {| Setsid := Setsid attr; Pdeathsig := Pdeathsig attr;
           Cloneflags := Cloneflags attr; AmbientCaps := AmbientCaps attr;
           UseCgroupFD := true; CgroupFD := File_Fd k f |}
    | None => attr
    end in
  if negb (HostNet q)
  then {| Setsid := Setsid attr; Pdeathsig := Pdeathsig attr;
          Cloneflags := Z.lor (Cloneflags attr) CLONE_NEWNET;
          AmbientCaps := AmbientCaps attr;
          UseCgroupFD := UseCgroupFD attr; CgroupFD := CgroupFD attr |}
  else attr.

(** The Landlock block of [Start]; the error, if any, is the result of
    [Start]. *)
Definition start_landlock (q : Params) (m : machine) : machine * option failure :=
  let scoped := LANDLOCK_SCOPE_SIGNAL pkg in
  let scoped :=
    if negb (HostAbstract q) then Z.lor scoped (LANDLOCK_SCOPE_ABSTRACT_UNIX_SOCKET pkg)
    else scoped in
  let '(m, abi) := call (LandlockGetABI k) m in
  match abi with
  | inr err =>
      if HostAbstract q then (m, None)
      else (m, Some (Started {| Fatal := false; Step := "get landlock ABI"; Err := err;
                                Origin := false; Passthrough := false |}))
  | inl abi =>
      if abi <? 6 then
        if HostAbstract q then (m, None)
        else (m, Some (Started
                         {| Fatal := false;
                            Step := "kernel version too old for LANDLOCK_SCOPE_ABSTRACT_UNIX_SOCKET";
                            Err := Errno ENOSYS; Origin := true; Passthrough := false |}))
      else
        let m := say (Verbosef "landlock abi version %d" [system.LInt abi]) m in
        let '(m, rulesetFd) := call (RulesetAttr_Create k scoped 0) m in
        match rulesetFd with
        | inr err =>
            (m, Some (Started {| Fatal := true; Step := "create landlock ruleset";
                                 Err := err; Origin := false; Passthrough := false |}))
        | inl rulesetFd =>
            let m := say (Verbosef "enforcing landlock ruleset %s" [system.LInt scoped]) m in
            let '(m, err) := call (LandlockRestrictSelf k rulesetFd 0) m in
            match err with
            | Some err =>
                let '(m, _) := call (Close k rulesetFd) m in
                (m, Some (Started {| Fatal := true; Step := "enforce landlock ruleset";
                                     Err := err; Origin := false; Passthrough := false |}))
            | None =>
                let '(m, err) := call (Close k rulesetFd) m in
                match err with
                | Some err =>
                    (say (Verbosef "cannot close landlock ruleset: %v" [system.LErr err]) m,
                     None)
                | None => (m, None)
                end
            end
        end
  end.

(** The function that [Start] runs on the locked thread. *)
Definition start_thread (q : Params) (c : Cmd) (m : machine)
  : Cmd * machine * option failure :=
  let '(m, err) := call (SetNoNewPrivs k) m in
  match err with
  | Some err =>
      (c, m, Some (Started {| Fatal := true; Step := "prctl(PR_SET_NO_NEW_PRIVS)";
                              Err := err; Origin := false; Passthrough := false |}))
  | None =>
      let '(m, err) := start_landlock q m in
      match err with
      | Some err => (c, m, Some err)
      | None =>
          let m := say (Verbose "starting container init") m in
          let '(m, pid) := call (exec_Start k c) m in
          match pid with
          | inr err =>
              (c, m, Some (Started {| Fatal := false; Step := "start container init";
                                      Err := err; Origin := false; Passthrough := true |}))
          | inl pid =>
              (set_launch c (cmd_SysProcAttr c) (cmd_Env c) (cmd_ExtraFiles c) (Some pid),
               m, None)
          end
      end
  end.

(** [Start] from the child attributes on, with the cgroup directory open or
    not wanted. *)
Definition start_child (p : Container) (c : Cmd) (cgroupFile : option F) (m : machine)
  : Container * Cmd * machine * option failure :=
  let attr := start_attr (params p) cgroupFile in
  let c := set_launch c (Some attr) (cmd_Env c) (cmd_ExtraFiles c) (Process c) in
  let '(m, pipe) := call (Setup k (cmd_ExtraFiles c)) m in
  match pipe with
  | inr err =>
      (p, c, m, Some (Started {| Fatal := true; Step := "set up params stream"; Err := err;
                                 Origin := false; Passthrough := false |}))
  | inl (extra, fd, f) =>
      let p := set_Container p (params p) (Some f) (cancel p) (wait p) (cmd p) in
      let c := set_launch c (cmd_SysProcAttr c) [setupEnv pkg +:+ "=" +:+ pretty fd]
                 (extra ++ ExtraFiles p) (Process c) in
      let m := set_os m (LockOSThread k (os m)) in
      let p := set_Container p (params p) (setup p) (cancel p) (Some false) (cmd p) in
      let '(c, m, err) := start_thread (params p) c m in
      (p, c, m, err)
  end.

(** The parameters as [Start] adjusts them; [uid] and [gid] are the kernel
    overflow ids. *)
Definition start_params (q : Params) (uid gid : Z) : Params :=
  let q := set_ids q (if Uid q <? 1 then uid else Uid q)
                     (if Gid q <? 1 then gid else Gid q) in
  let q := if negb (RetainSession q)
           then set_SeccompPresets q (Z.lor (SeccompPresets q) (PresetDenyTTY pkg))
           else q in
  let q := if AdoptWaitDelay q =? 0 then set_AdoptWaitDelay q (5 * 1000000000) else q in
  if AdoptWaitDelay q <? 0 then set_AdoptWaitDelay q 0 else q.

(** [Container.Start]. *)
Definition Start (p : option Container) (m : machine)
  : option Container * machine * option failure :=
  let invalid := Other (errorString "container: starting an invalid container") in
  match p with
  | None => (p, m, Some invalid)
  | Some p =>
      match cmd p, Ops (params p) with
      | None, _ | _, None | _, Some [] => (Some p, m, Some invalid)
      | Some c, Some (_ :: _) =>
          if bool_decide (Process c ≠ None)
          then (Some p, m, Some (Other (errorString "container: already started")))
          else
            let '(m, err) := ensureCloseOnExec m in
            match err with
            | Some err => (Some p, m, Some err)
            | None =>
                let '(m, uid) :=
                  if Uid (params p) <? 1 then call (OverflowUid k) m else (m, 0) in
                let '(m, gid) :=
                  if Gid (params p) <? 1 then call (OverflowGid k) m else (m, 0) in
                let p := set_params p (start_params (params p) uid gid) in
                let c := prepare_cmd p c in
                match CgroupPath (params p) with
                | None =>
                    let '(p, c, m, err) := start_child p c None m in
                    (Some (set_cmd p (Some c)), m, err)
                | Some pathname =>
                    let '(m, f) :=
                      call (os_OpenFile k (check.pathname pathname)
                              (Z.lor O_RDONLY O_CLOEXEC) 0) m in
                    match f with
                    | inr err =>
                        (Some (set_cmd p (Some c)), m,
                         Some (Started {| Fatal := false; Step := "open cgroup directory";
                                          Err := err; Origin := false;
                                          Passthrough := false |}))
                    | inl f =>
                        let '(p, c, m, err) := start_child p c (Some f) m in
                        let '(m, closed) := call (File_Close k f) m in
                        let m :=
                          match closed with
                          | Some e => say (Verbosef "cannot close cgroup fd: %v"
                                             [system.LErr e]) m
                          | None => m
                          end in
                        (Some (set_cmd p (Some c)), m, err)
                    end
                end
            end
      end
  end.

(** *** [Serve] and [Wait] *)

(** [p.cancel()]; calling a nil function panics. *)
Definition do_cancel (p : Container) : outcome Container :=
  match cancel p with
  | None => Panicked "invalid memory address or nil pointer dereference"
  | Some _ => Returned (set_Container p (params p) (setup p) (Some true) (wait p) (cmd p))
  end.

(** [Container.Serve]; the deadline is [initSetupTimeout] from now. *)
Definition Serve (p : Container) (m : machine)
  : outcome (Container * machine * option failure) :=
  match setup p with
  | None => Panicked "invalid serve"
  | Some pipe =>
      let p := set_Container p (params p) None (cancel p) (wait p) (cmd p) in
      let '(m, err) := call (File_SetDeadline k pipe initSetupTimeout) m in
      match err with
      | Some err =>
          Returned (p, m, Some (Started {| Fatal := true; Step := "set init pipe deadline";
                                           Err := err; Origin := false;
                                           Passthrough := true |}))
      | None =>
          match Path (params p) with
          | None =>
              match do_cancel p with
              | Panicked msg => Panicked msg
              | Returned p =>
                  Returned (p, m, Some (Started {| Fatal := false;
                                                   Step := "invalid executable pathname";
                                                   Err := Errno EINVAL; Origin := true;
                                                   Passthrough := false |}))
              end
          | Some _ =>
              let q := params p in
              let q := set_Dir_SeccompRules q
                         (if bool_decide (Dir q = None) then Some (fhs_AbsRoot pkg) else Dir q)
                         (if bool_decide (SeccompRules q = None) then Some []
                          else SeccompRules q) in
              let p := set_params p q in
              let '(m, err) :=
                call (gob_Encode k pipe
                        {| init_Params := params p; HostUid := Getuid k (os m);
                           HostGid := Getgid k (os m);
                           Count := Z.of_nat (length (ExtraFiles p));
                           init_Verbose := IsVerbose m |}) m in
              let '(m, _) := call (File_Close k pipe) m in
              match err with
              | Some err =>
                  match do_cancel p with
                  | Panicked msg => Panicked msg
                  | Returned p => Returned (p, m, Some (Other err))
                  end
              | None => Returned (p, m, None)
              end
          end
      end
  end.

(** [Container.Wait]; closing a closed channel panics. *)
Definition Wait (p : Container) (m : machine)
  : outcome (Container * machine * option failure) :=
  match cmd p with
  | None => Returned (p, m, Some (Other (Errno EINVAL)))
  | Some c =>
      if bool_decide (Process c = None) then Returned (p, m, Some (Other (Errno EINVAL)))
      else
        let '(m, err) := call (exec_Wait k c) m in
        match do_cancel p with
        | Panicked msg => Panicked msg
        | Returned p =>
            match wait p, err with
            | Some closed, None =>
                if closed then Panicked "close of closed channel"
                else Returned (set_Container p (params p) (setup p) (cancel p)
                                 (Some true) (cmd p), m, None)
            | _, _ => Returned (p, m, Other <$> err)
            end
        end
  end.

End Container.

Arguments Params O R : clear implicits.
Arguments Cmd F IO C : clear implicits.
Arguments Container F IO C O R : clear implicits.
Arguments initParams O R : clear implicits.
Arguments kernel F IO C O R W : clear implicits.
Arguments machine W : clear implicits.
Arguments cancelFunc C : clear implicits.

End container.

(** ** The cgroup op on the side of the shim *)

(** [spCgroupOp.toContainer]; of [outcomeStateParams] it reaches the
    [params] alone, a pointer. *)
Definition spCgroupOp_toContainer {O R : Type} (Path : string)
  (params : option (container.Params O R))
  : outcome (option (container.Params O R) * option error) :=
  if bool_decide (Path = "") then
    Returned (params, Some (outcome.newWithMessage "invalid cgroup state"))
  else
    match check.NewAbs Path with
    | inr err => Returned (params, Some (AppError "parse cgroup path" err ""))
    | inl pathname =>
        match params with
        | None => Panicked "invalid memory address or nil pointer dereference"
        | Some q => Returned (Some (container.set_CgroupPath q (Some pathname)), None)
        end
    end.

(** ** A kernel that keeps a journal *)

Module kjournal.

Section Journal.

Context {IO C O R : Type}.

(** The calls of [container.kernel] that act on the host; files are known
    by their descriptors. *)
Inductive call : Type :=
| ReadDir (name : string)
| CloseOnExec (fd : Z)
| OverflowUid
| OverflowGid
| OpenFile (name : string) (flag perm : Z)
| FileClose (f : Z)
| SetDeadline (f : Z) (timeout : Z)
| Setup (extra : list Z)
| LockOSThread
| SetNoNewPrivs
| LandlockGetABI
| Create (scoped flags : Z)
| RestrictSelf (fd flags : Z)
| Close (fd : Z)
| ExecStart (c : container.Cmd Z IO C)
| ExecWait (c : container.Cmd Z IO C)
| Encode (f : Z) (v : container.initParams O R).

(** The calls made so far, the first one first. *)
Definition t : Type := list call.

(** What the host answers to a call, given the calls made so far, that call
    being the last of them. *)
Record oracle : Type := {
  entries : t -> list string + error;
  number : t -> Z;
  opened : t -> Z + error;
  piped : t -> list Z * Z * Z + error;
  failed : t -> option error;
  caller_uid : t -> Z;
  caller_gid : t -> Z;
}.

Variable o : oracle.

Definition ask {A : Type} (answer : t -> A) (c : call) (h : t) : t * A :=
  (h ++ [c], answer (h ++ [c])).

Definition k : container.kernel Z IO C O R t :=
  {| container.os_ReadDir name := ask (entries o) (ReadDir name);
     container.CloseOnExec fd h := h ++ [CloseOnExec fd];
     container.OverflowUid := ask (number o) OverflowUid;
     container.OverflowGid := ask (number o) OverflowGid;
     container.os_OpenFile name flag perm := ask (opened o) (OpenFile name flag perm);
     container.File_Fd f := f;
     container.File_Close f := ask (failed o) (FileClose f);
     container.File_SetDeadline f timeout := ask (failed o) (SetDeadline f timeout);
     container.Setup extra := ask (piped o) (Setup extra);
     container.LockOSThread h := h ++ [LockOSThread];
     container.SetNoNewPrivs := ask (failed o) SetNoNewPrivs;
     container.LandlockGetABI :=
       ask (fun h => match failed o h with
                     | Some err => inr err
                     | None => inl (number o h)
                     end) LandlockGetABI;
     container.RulesetAttr_Create scoped flags := ask (opened o) (Create scoped flags);
     container.LandlockRestrictSelf fd flags := ask (failed o) (RestrictSelf fd flags);
     container.Close fd := ask (failed o) (Close fd);
     container.exec_Start c := ask (opened o) (ExecStart c);
     container.exec_Wait c := ask (failed o) (ExecWait c);
     container.gob_Encode f v := ask (failed o) (Encode f v);
     container.Getuid := caller_uid o;
     container.Getgid := caller_gid o |}.

End Journal.

Arguments call IO C O R : clear implicits.
Arguments t IO C O R : clear implicits.
Arguments oracle IO C O R : clear implicits.

End kjournal.

(** ** Notions: What [Start] asks of the kernel *)

(** The scopes of the Landlock ruleset that [Start] creates: signals, and
    abstract unix sockets unless the container shares those of the host. *)
Definition landlock_scope {O R : Type} (pkg : @container.constants)
  (q : container.Params O R) : Z :=
  if container.HostAbstract q then container.LANDLOCK_SCOPE_SIGNAL pkg
  else Z.lor (container.LANDLOCK_SCOPE_SIGNAL pkg)
         (container.LANDLOCK_SCOPE_ABSTRACT_UNIX_SOCKET pkg).

(** The Landlock calls that follow the query of the ABI when [Start] goes
    on to start the child, [h] being the calls up to the query: none, which
    takes a container that shares the abstract sockets of the host, or the
    creation of the ruleset, its enforcement, which succeeded, and the
    closing of its descriptor. *)
Definition confined {IO C O R : Type} (o : kjournal.oracle IO C O R)
  (pkg : @container.constants) (q : container.Params O R)
  (h landlock : kjournal.t IO C O R) : Prop :=
  (landlock = [] ∧ container.HostAbstract q = true)
  ∨ ∃ fd,
      landlock = [kjournal.Create (landlock_scope pkg q) 0;
                  kjournal.RestrictSelf fd 0; kjournal.Close fd]
      ∧ kjournal.failed o
          (h ++ [kjournal.Create (landlock_scope pkg q) 0; kjournal.RestrictSelf fd 0])
        = None.

(** The calls of [os.OpenFile] and of the [Close] method of a file.  (The
    pipe that [Setup] makes and the descriptor of the Landlock ruleset, which
    [Start] closes with the [Close] of the package, are other calls.) *)
Definition is_file_call {IO C O R : Type} (c : kjournal.call IO C O R) : bool :=
  match c with
  | kjournal.OpenFile _ _ _ | kjournal.FileClose _ => true
  | _ => false
  end.

(** ** Notions: A container on the journal kernel *)

(** A decimal reading for [strconv.Atoi]. *)
Fixpoint decimal (s : string) (acc : Z) : option Z :=
  match s with
  | EmptyString => Some acc
  | String a r =>
      let d := Z.of_nat (nat_of_ascii a) - 48 in
      if (0 <=? d) && (d <=? 9) then decimal r (10 * acc + d) else None
  end.

Definition decimal_Atoi (s : string) : Z + error :=
  match s, decimal s 0 with
  | String _ _, Some n => inl n
  | _, _ => inr (errorString "strconv.Atoi: invalid syntax")
  end.

(** A host on which nothing fails: three descriptors are open, the overflow
    ids and the Landlock ABI read 65534, every descriptor and process id
    handed out is 7, and the setup pipe goes in front of the extra files as
    descriptor 3, its other end being 4. *)
Definition willing_oracle : kjournal.oracle unit unit unit unit :=
  {| kjournal.entries _ := inl ["0"; "1"; "2"];
     kjournal.number _ := 65534;
     kjournal.opened _ := inl 7;
     kjournal.piped h :=
       match last h with
       | Some (kjournal.Setup extra) => inl (5 :: extra, 3, 4)
       | _ => inr (Errno EINVAL)
       end;
     kjournal.failed _ := None;
     kjournal.caller_uid _ := 1000;
     kjournal.caller_gid _ := 100 |}.

Definition example_constants : @container.constants :=
  {| container.initName := "init"; container.setupEnv := "HAKUREI_SETUP";
     container.PresetDenyTTY := 4; container.CAP_SYS_ADMIN := 21;
     container.CAP_SETPCAP := 8; container.CAP_DAC_OVERRIDE := 1;
     container.LANDLOCK_SCOPE_SIGNAL := 2;
     container.LANDLOCK_SCOPE_ABSTRACT_UNIX_SOCKET := 1;
     container.fhs_Root := "/"; container.fhs_AbsRoot := check.unsafeAbs "/" |}.

Definition fresh_machine : container.machine (kjournal.t unit unit unit unit) :=
  {| container.os := []; container.closeOnExecOnce := false;
     container.closeOnExecErr := None; container.IsVerbose := false;
     container.msgs := [] |}.

(** A container as [NewCommand] leaves it, given one op, one extra file and
    a cgroup directory. *)
Definition example_box : container.Container Z unit unit unit unit :=
  {| container.ExtraFiles := [9]; container.setup := None;
     container.cancel := Some false; container.wait := None;
     container.Stdin := None; container.Stdout := None; container.Stderr := None;
     container.Cancel := None; container.WaitDelay := 0;
     container.cmd :=
       Some {| container.Process := None; container.cmd_Stdin := None;
               container.cmd_Stdout := None; container.cmd_Stderr := None;
               container.cmd_Args := ["/proc/self/exe"]; container.cmd_WaitDelay := 0;
               container.cmd_Cancel := container.CancelUnset; container.cmd_Dir := "";
               container.cmd_SysProcAttr := None; container.cmd_Env := [];
               container.cmd_ExtraFiles := [] |};
     container.params :=
       {| container.Dir := None; container.Env := []; 
          container.Path := Some (check.unsafeAbs "/bin/app");
          container.Args := ["app"];
          container.CgroupPath := Some (check.unsafeAbs "/sys/fs/cgroup/app.slice/box");
          container.ForwardCancel := false; container.AdoptWaitDelay := 0;
          container.Uid := 0; container.Gid := 1000; container.Hostname := "box";
          container.Ops := Some [tt]; container.SeccompRules := None;
          container.SeccompFlags := 0; container.SeccompPresets := 1;
          container.SeccompDisable := false; container.ParentPerm := 0;
          container.RetainSession := false; container.HostNet := false;
          container.HostAbstract := false; container.Privileged := false |} |}.

(** The same container and the machine once [Start] has returned. *)
Definition started_box : container.Container Z unit unit unit unit :=
  Eval vm_compute in
    default example_box
      (container.Start (kjournal.k willing_oracle) example_constants decimal_Atoi
         (Some example_box) fresh_machine).1.1.

Definition started_machine : container.machine (kjournal.t unit unit unit unit) :=
  Eval vm_compute in
    (container.Start (kjournal.k willing_oracle) example_constants decimal_Atoi
       (Some example_box) fresh_machine).1.2.

(** * Properties *)

(** ** Strings and paths *)

Lemma append_cons a s t : String a s +:+ t = String a (s +:+ t).
Proof. reflexivity. Qed.

Lemma append_nil s : "" +:+ s = s.
Proof. reflexivity. Qed.

Lemma append_assoc' (s t u : string) : (s +:+ t) +:+ u = s +:+ (t +:+ u).
Proof. induction s as [|a s IH]; [done|]. by rewrite !append_cons, IH. Qed.

Lemma found_append s t c :
  strings_IndexByte_found (s +:+ t) c
  = strings_IndexByte_found s c || strings_IndexByte_found t c.
Proof.
  induction s as [|a s IH]; [done|].
  rewrite append_cons. simpl. rewrite IH. by rewrite orb_assoc.
Qed.

Lemma Split_nonempty s sep : strings_Split s sep ≠ [].
Proof.
  induction s as [|a s IH]; simpl; [done|].
  destruct (Ascii.eqb a sep); [done|]. by destruct (strings_Split s sep).
Qed.

Lemma Split_no_sep s sep :
  strings_IndexByte_found s sep = false → strings_Split s sep = [s].
Proof.
  induction s as [|a s IH]; simpl; [done|].
  intros [Ha Hs]%orb_false_iff. rewrite Ha, (IH Hs). done.
Qed.

Lemma Split_app s t sep :
  strings_IndexByte_found s sep = false →
  strings_Split (s +:+ String sep t) sep = s :: strings_Split t sep.
Proof.
  induction s as [|a s IH]; simpl.
  - intros _. by rewrite Ascii.eqb_refl.
  - intros [Ha Hs]%orb_false_iff. rewrite Ha, (IH Hs). done.
Qed.

Lemma Split_join (cs : list string) :
  cs ≠ [] → Forall no_slash cs → strings_Split (join_slash cs) slash = cs.
Proof.
  induction cs as [|c cs IH]; [done|]. intros _ Hall.
  apply Forall_cons in Hall as [Hc Hcs].
  destruct cs as [|c' cs].
  - simpl. by apply Split_no_sep.
  - change (join_slash (c :: c' :: cs)) with (c +:+ String slash (join_slash (c' :: cs))).
    rewrite Split_app by done. f_equal. by apply IH.
Qed.

Lemma join_snoc (cs : list string) e :
  cs ≠ [] → join_slash (cs ++ [e]) = join_slash cs +:+ String slash e.
Proof.
  induction cs as [|c cs IH]; [done|]. intros _.
  destruct cs as [|c' cs]; [done|].
  change (join_slash ((c :: c' :: cs) ++ [e]))
    with (c +:+ String slash (join_slash ((c' :: cs) ++ [e]))).
  rewrite IH by done.
  change (join_slash (c :: c' :: cs)) with (c +:+ String slash (join_slash (c' :: cs))).
  rewrite append_assoc'. by rewrite append_cons.
Qed.

Lemma Split_elems_no_sep s sep :
  Forall (fun e => strings_IndexByte_found e sep = false) (strings_Split s sep).
Proof.
  induction s as [|a s IH]; simpl; [by repeat constructor|].
  destruct (Ascii.eqb a sep) eqn:Ha; [by constructor|].
  destruct (strings_Split s sep) as [|h t]; [by repeat constructor; simpl; rewrite Ha|].
  apply Forall_cons in IH as [Hh Ht]. constructor; [|done].
  simpl. by rewrite Ha, Hh.
Qed.

Lemma clean_elem_regular rooted out e :
  regular e → clean_elem rooted out e = e :: out.
Proof.
  intros (H1 & H2 & H3 & _). unfold clean_elem.
  rewrite !bool_decide_eq_false_2 by done. done.
Qed.

Lemma clean_fold_regular rooted cs out :
  Forall regular cs → fold_left (clean_elem rooted) cs out = rev cs ++ out.
Proof.
  revert out. induction cs as [|c cs IH]; intros out Hall; [done|].
  apply Forall_cons in Hall as [Hc Hcs]. simpl.
  rewrite clean_elem_regular by done. rewrite IH by done.
  by rewrite <- app_assoc.
Qed.

Lemma clean_elem_rooted_keeps out e :
  no_slash e → Forall regular out → Forall regular (clean_elem true out e).
Proof.
  intros He Hout. unfold clean_elem.
  destruct (bool_decide (e = "")) eqn:E1; [done|].
  destruct (bool_decide (e = ".")) eqn:E2; [done|]. simpl.
  destruct (bool_decide (e = "..")) eqn:E3.
  - destruct out as [|top rest]; [done|].
    apply Forall_cons in Hout as [Htop Hrest].
    destruct (bool_decide (top = "..")) eqn:E4; [|done].
    apply bool_decide_eq_true in E4. by destruct Htop as (_ & _ & ? & _).
  - apply bool_decide_eq_false in E1, E2, E3. by constructor.
Qed.

Lemma clean_fold_rooted_keeps cs out :
  Forall no_slash cs → Forall regular out →
  Forall regular (fold_left (clean_elem true) cs out).
Proof.
  revert out. induction cs as [|c cs IH]; intros out Hcs Hout; [done|].
  apply Forall_cons in Hcs as [Hc Hcs]. simpl.
  apply IH; [done|]. by apply clean_elem_rooted_keeps.
Qed.

Lemma Split_rooted s : strings_Split (String slash s) slash = "" :: strings_Split s slash.
Proof. reflexivity. Qed.

Lemma fold_left_cons_empty rooted cs out :
  fold_left (clean_elem rooted) ("" :: cs) out = fold_left (clean_elem rooted) cs out.
Proof. reflexivity. Qed.

Lemma rooted_elems_regular p : Forall regular (rooted_elems p).
Proof.
  unfold rooted_elems. apply Forall_rev.
  apply clean_fold_rooted_keeps; [|done]. apply Split_elems_no_sep.
Qed.

Lemma Clean_rooted p :
  path_IsAbs p = true → path_Clean p = String slash (join_slash (rooted_elems p)).
Proof.
  intros Hp. unfold path_Clean. destruct p as [|a p]; [done|].
  rewrite bool_decide_eq_false_2 by done. by rewrite Hp.
Qed.

Lemma regular_no_slash cs : Forall regular cs → Forall no_slash cs.
Proof. intros Hcs. eapply Forall_impl; [exact Hcs|]. by intros e (_ & _ & _ & ?). Qed.

(** A rooted path made of regular elements is clean. *)
Lemma Clean_join cs :
  Forall regular cs →
  path_Clean (String slash (join_slash cs)) = String slash (join_slash cs).
Proof.
  intros Hcs. rewrite Clean_rooted by done. f_equal. f_equal.
  unfold rooted_elems. destruct cs as [|c cs]; [done|].
  rewrite Split_rooted, Split_join by (done || by apply regular_no_slash).
  rewrite fold_left_cons_empty, clean_fold_regular by done.
  rewrite app_nil_r. apply rev_involutive.
Qed.

Lemma Clean_idempotent_rooted p :
  path_IsAbs p = true → path_Clean (path_Clean p) = path_Clean p.
Proof.
  intros Hp. rewrite (Clean_rooted p Hp). apply Clean_join, rooted_elems_regular.
Qed.

(** Appending a regular element to a clean rooted path. *)
Lemma Clean_join_snoc cs e :
  Forall regular cs → regular e →
  path_Clean (String slash (join_slash cs) +:+ String slash e)
  = String slash (join_slash (cs ++ [e])).
Proof.
  intros Hcs He. destruct cs as [|c cs].
  - rewrite Clean_rooted by done. f_equal. f_equal.
    unfold rooted_elems. change (String slash (join_slash []) +:+ String slash e)
      with (String slash (String slash e)).
    rewrite !Split_rooted, Split_no_sep by apply He.
    rewrite !fold_left_cons_empty. simpl. by rewrite clean_elem_regular.
  - rewrite append_cons, <- join_snoc by done.
    apply Clean_join. apply Forall_app. split; [done|by constructor].
Qed.

Lemma Split_elems_no_nul s sep : no_nul s → Forall no_nul (strings_Split s sep).
Proof.
  unfold no_nul. induction s as [|a s IH]; simpl; [by repeat constructor|].
  intros [Ha Hs]%orb_false_iff. specialize (IH Hs).
  destruct (Ascii.eqb a sep); [by constructor|].
  destruct (strings_Split s sep) as [|h t]; [by repeat constructor; simpl; rewrite Ha|].
  apply Forall_cons in IH as [Hh Ht]. constructor; [|done].
  simpl. by rewrite Ha, Hh.
Qed.

Lemma clean_fold_no_nul rooted cs out :
  Forall no_nul cs → Forall no_nul out →
  Forall no_nul (fold_left (clean_elem rooted) cs out).
Proof.
  revert out. induction cs as [|c cs IH]; intros out Hcs Hout; [done|].
  apply Forall_cons in Hcs as [Hc Hcs]. simpl. apply IH; [done|].
  unfold clean_elem. repeat case_match; try done.
  - by repeat constructor.
  - by constructor.
  - by apply Forall_cons in Hout as [_ ?].
  - by constructor.
Qed.

Lemma join_no_nul cs : Forall no_nul cs → no_nul (join_slash cs).
Proof.
  unfold no_nul. induction cs as [|c cs IH]; [done|]. intros [Hc Hcs]%Forall_cons.
  destruct cs as [|c' cs]; [done|].
  change (join_slash (c :: c' :: cs)) with (c +:+ String slash (join_slash (c' :: cs))).
  rewrite found_append, Hc. simpl. by apply IH.
Qed.

Lemma Clean_rooted_no_nul p :
  path_IsAbs p = true → no_nul p → no_nul (path_Clean p).
Proof.
  intros Hp Hn. rewrite Clean_rooted by done.
  unfold no_nul. simpl. apply join_no_nul. unfold rooted_elems.
  apply Forall_rev, clean_fold_no_nul; [|done]. by apply Split_elems_no_nul.
Qed.

(** *** Hex encoding *)

Lemma hex_byte_digits b :
  ∃ hi lo, hex_byte b = String hi (String lo "")
           ∧ is_lower_hex hi = true ∧ is_lower_hex lo = true.
Proof. destruct b; vm_compute; eauto. Qed.

Lemma hex_EncodeToString_length src :
  String.length (hex_EncodeToString src) = (2 * length src)%nat.
Proof.
  induction src as [|b src IH]; [done|].
  destruct (hex_byte_digits b) as (hi & lo & Hb & _).
  change (hex_EncodeToString (b :: src)) with (hex_byte b +:+ hex_EncodeToString src).
  rewrite Hb, !append_cons, append_nil. simpl. rewrite IH. lia.
Qed.

Lemma hex_EncodeToString_digits src :
  string_forall is_lower_hex (hex_EncodeToString src) = true.
Proof.
  induction src as [|b src IH]; [done|].
  destruct (hex_byte_digits b) as (hi & lo & Hb & Hhi & Hlo).
  change (hex_EncodeToString (b :: src)) with (hex_byte b +:+ hex_EncodeToString src).
  rewrite Hb, !append_cons, append_nil. simpl. by rewrite Hhi, Hlo, IH.
Qed.

Lemma lower_hex_no_slash s : string_forall is_lower_hex s = true → no_slash s.
Proof.
  unfold no_slash. induction s as [|a s IH]; [done|]. simpl.
  intros [Ha Hs]%andb_true_iff. rewrite (IH Hs), orb_false_r.
  destruct (Ascii.eqb_spec a slash) as [->|]; [done|done].
Qed.

Lemma ID_String_length (id : hst.ID) : String.length (hst.ID_String id) = 32%nat.
Proof. unfold hst.ID_String. by rewrite hex_EncodeToString_length, length_vec_to_list. Qed.

Lemma ID_String_regular (id : hst.ID) : regular (hst.ID_String id).
Proof.
  pose proof (ID_String_length id) as Hlen.
  repeat split.
  - intros E. by rewrite E in Hlen.
  - intros E. by rewrite E in Hlen.
  - intros E. by rewrite E in Hlen.
  - apply lower_hex_no_slash, hex_EncodeToString_digits.
Qed.

(** ** Slice resolution *)

Lemma Join_two a b :
  a ≠ "" → b ≠ "" → path_Join [a; b] = path_Clean (a +:+ String slash b).
Proof.
  intros Ha Hb. unfold path_Join. rewrite !filter_cons, filter_nil.
  by rewrite !decide_True by done.
Qed.

Lemma resolved_slice_abs c : path_IsAbs (resolved_slice c) = true.
Proof.
  unfold resolved_slice. case_bool_decide; [done|].
  destruct (path_IsAbs (hst.Slice c)) eqn:Habs; by rewrite Clean_rooted.
Qed.

Lemma slicePath_resolved c :
  hst.slicePath c
  = if strings_IndexByte_found (resolved_slice c) NUL
    then inr (Sentinel ErrCgroupPath)
    else inl (check.unsafeAbs (resolved_slice c)).
Proof.
  assert (Hnew : ∀ p, path_IsAbs p = true →
    match check.NewAbs p with inr _ => inr (Sentinel ErrCgroupPath) | inl a => inl a end
    = if strings_IndexByte_found p NUL
      then inr (Sentinel ErrCgroupPath) else inl (check.unsafeAbs p)).
  { intros p Hp. unfold check.NewAbs. rewrite Hp. simpl.
    by destruct (strings_IndexByte_found p NUL). }
  unfold hst.slicePath, resolved_slice. case_bool_decide as Hs.
  - by apply Hnew.
  - destruct (path_IsAbs (hst.Slice c)) eqn:Habs; simpl.
    + rewrite Hnew by (by rewrite Clean_rooted). done.
    + rewrite Join_two by done.
      change (hst.CgroupRoot +:+ String slash (hst.Slice c))
        with ("/sys/fs/cgroup/" +:+ hst.Slice c).
      rewrite Clean_idempotent_rooted by done.
      rewrite Hnew by (by rewrite Clean_rooted). done.
Qed.

Lemma resolved_slice_no_nul c : no_nul (hst.Slice c) → no_nul (resolved_slice c).
Proof.
  intros Hn. unfold resolved_slice. case_bool_decide; [done|].
  destruct (path_IsAbs (hst.Slice c)) eqn:Habs.
  - by apply Clean_rooted_no_nul.
  - apply Clean_rooted_no_nul; [done|].
    unfold no_nul. by rewrite found_append.
Qed.

(** C3.  The slice /sys/fs/cgroup/../../etc leaves the cgroup root once it is
    cleaned, and the code does not reject it: [SlicePath] returns /sys/etc
    and [Validate] accepts the config, where the claim has [ErrCgroupPath].
    The relative slice ../../etc, joined under /sys/fs/cgroup, leaves the
    root in the same way and is accepted as well. *)
Theorem slicePath_escape_accepted :
  let c := {| hst.Slice := "/sys/fs/cgroup/../../etc"; hst.LimitCPU := 0;
              hst.LimitMemory := 0; hst.LimitPids := 0 |} in
  let c' := {| hst.Slice := "../../etc"; hst.LimitCPU := 0;
               hst.LimitMemory := 0; hst.LimitPids := 0 |} in
  hst.SlicePath (Some c) = inl (check.unsafeAbs "/sys/etc")
  ∧ hst.SlicePath (Some c) ≠ inr (Sentinel ErrCgroupPath)
  ∧ hst.CgroupConfig_Validate (Some c) = None
  ∧ hst.SlicePath (Some c') = inl (check.unsafeAbs "/sys/etc")
  ∧ hst.CgroupConfig_Validate (Some c') = None.
Proof. vm_compute. by repeat split. Qed.

(** ** Instance paths *)

Lemma resolved_slice_elems c :
  ∃ cs, Forall regular cs ∧ resolved_slice c = String slash (join_slash cs).
Proof.
  assert (Hclean : ∀ p, path_IsAbs p = true →
            ∃ cs, Forall regular cs ∧ path_Clean p = String slash (join_slash cs)).
  { intros p Hp. exists (rooted_elems p). split; [apply rooted_elems_regular|].
    by apply Clean_rooted. }
  unfold resolved_slice. case_bool_decide.
  - apply (Hclean "/sys/fs/cgroup/hakurei.slice"). done.
  - destruct (path_IsAbs (hst.Slice c)) eqn:Habs; by apply Hclean.
Qed.

Lemma Append_regular cs e :
  Forall regular cs → regular e →
  check.Append (check.unsafeAbs (String slash (join_slash cs))) [e]
  = check.unsafeAbs (String slash (join_slash (cs ++ [e]))).
Proof.
  intros Hcs He. unfold check.Append, filepath_Join. simpl check.pathname.
  rewrite Join_two; [|done|apply He]. by rewrite Clean_join_snoc.
Qed.

Lemma join_as_dir cs e :
  Forall regular cs →
  String slash (join_slash (cs ++ [e])) = as_dir (String slash (join_slash cs)) +:+ e.
Proof.
  intros Hcs. unfold as_dir. destruct cs as [|c cs].
  - done.
  - rewrite bool_decide_eq_false_2.
    + rewrite join_snoc by done. rewrite !append_cons, append_assoc'. done.
    + apply Forall_cons in Hcs as [(Hc & _) _].
      destruct cs as [|c' cs]; simpl.
      * destruct c; [done|]. done.
      * destruct c; [|done]. done.
Qed.

Lemma hakurei_regular s : no_slash s → regular ("hakurei-" +:+ s).
Proof.
  intros Hs. repeat split; done.
Qed.

(** C9, as amended.  For every cgroup config with a valid slice, every
    identity string [s] that holds no slash, and every non-nil instance ID,
    [InstancePath] returns the slice directory followed by [hakurei-s], a
    slash, and the 32-character lowercase hex form of the ID (the slice
    directory being the resolved slice and a slash, or the single slash of
    the root); with a nil receiver or a nil ID it returns [EINVAL]. *)
Theorem InstancePath_shape (c : hst.CgroupConfig) (s : string) (id : hst.ID) :
  (∀ slice, hst.slicePath c = inl slice → no_slash s →
     hst.InstancePath (Some c) s (Some id)
     = inl (check.unsafeAbs (as_dir (check.pathname slice) +:+ "hakurei-" +:+ s
                             +:+ "/" +:+ hst.ID_String id))
     ∧ String.length (hst.ID_String id) = 32%nat
     ∧ string_forall is_lower_hex (hst.ID_String id) = true)
  ∧ hst.InstancePath None s (Some id) = inr (Errno EINVAL)
  ∧ hst.InstancePath (Some c) s None = inr (Errno EINVAL)
  ∧ hst.InstancePath None s None = inr (Errno EINVAL).
Proof.
  split; [|done]. intros slice Hslice Hs.
  split; [|split; [apply ID_String_length|apply hex_EncodeToString_digits]].
  destruct (resolved_slice_elems c) as (cs & Hcs & Hres).
  assert (slice = check.unsafeAbs (String slash (join_slash cs))) as ->.
  { rewrite slicePath_resolved in Hslice. rewrite <- Hres.
    destruct (strings_IndexByte_found _ _); congruence. }
  unfold hst.InstancePath, hst.instanceRoot. rewrite Hslice.
  rewrite Append_regular by (done || by apply hakurei_regular).
  rewrite Append_regular.
  - f_equal. f_equal. simpl check.pathname.
    rewrite join_snoc by (by destruct cs).
    rewrite <- append_cons, join_as_dir by done.
    by rewrite !append_assoc'.
  - apply Forall_app. split; [done|]. constructor; [|done]. by apply hakurei_regular.
  - apply ID_String_regular.
Qed.

Lemma InstancePath_shape_witness :
  hst.InstancePath (Some default_cgroup) "42" (Some example_id)
  = inl (check.unsafeAbs
      "/sys/fs/cgroup/hakurei.slice/hakurei-42/0123456789abcdef0123456789abcdef").
Proof.
  exact (proj1 (proj1 (InstancePath_shape default_cgroup "42" example_id)
                  (check.unsafeAbs "/sys/fs/cgroup/hakurei.slice") eq_refl eq_refl)).
Defined.

(** C9, the claim as stated fails for an identity string that holds a slash:
    with the identity [x/..] the path is the slice followed by the ID, and
    does not begin with the slice followed by [/hakurei-x/../]; and it fails
    for the root slice, whose instance paths begin with [/hakurei-42/], not
    with [//hakurei-42/]. *)
Lemma InstancePath_identity_slash :
  (hst.InstancePath (Some default_cgroup) "x/.." (Some example_id)
   = inl (check.unsafeAbs "/sys/fs/cgroup/hakurei.slice/0123456789abcdef0123456789abcdef")
   ∧ strings_HasPrefix
       "/sys/fs/cgroup/hakurei.slice/0123456789abcdef0123456789abcdef"
       ("/sys/fs/cgroup/hakurei.slice" +:+ "/hakurei-" +:+ "x/.." +:+ "/") = false)
  ∧ (hst.slicePath root_cgroup = inl (check.unsafeAbs "/")
     ∧ hst.InstancePath (Some root_cgroup) "42" (Some example_id)
       = inl (check.unsafeAbs "/hakurei-42/0123456789abcdef0123456789abcdef")
     ∧ strings_HasPrefix "/hakurei-42/0123456789abcdef0123456789abcdef"
         ("/" +:+ "/hakurei-" +:+ "42" +:+ "/") = false).
Proof. vm_compute. by repeat split. Qed.

(** ** Validation *)

Lemma Validate_accepts {B : Type} (CI : option B → string → option error)
  (Q : string → string) (config : @hst.Config B) :
  hst.Validate CI Q (Some config) = None
  ↔ (1 <= hst.Identity config <= 9999)
    ∧ ∃ container, plain_checks_ok CI config container
                   ∧ hst.validateCgroup container = None.
Proof.
  unfold hst.Validate, plain_checks_ok, hst.IdentityStart, hst.IdentityEnd.
  destruct (Z.ltb_spec (hst.Identity config) 1) as [Hlo|Hlo]; simpl.
  { split; [done|]. intros [? _]. lia. }
  destruct (Z.gtb_spec (hst.Identity config) 9999) as [Hhi|Hhi].
  { split; [done|]. intros [? _]. lia. }
  destruct (CI (hst.SessionBus config) "session") as [e1|] eqn:H1.
  { split; [done|]. by intros (_ & c & (? & _) & _). }
  destruct (CI (hst.SystemBus config) "system") as [e2|] eqn:H2.
  { split; [done|]. by intros (_ & c & (_ & ? & _) & _). }
  destruct (hst.Container config) as [container|] eqn:Hc.
  2:{ split; [done|]. by intros (_ & c & (_ & _ & ? & _) & _). }
  case_bool_decide as Hhome.
  { split; [done|]. intros (_ & c & (_ & _ & [= <-] & ? & _) & _). done. }
  case_bool_decide as Hshell.
  { split; [done|]. intros (_ & c & (_ & _ & [= <-] & _ & ? & _) & _). done. }
  case_bool_decide as Hpath.
  { split; [done|]. intros (_ & c & (_ & _ & [= <-] & _ & _ & ? & _) & _). done. }
  destruct (hst.validateCgroup container) as [e3|] eqn:H3.
  { split; [done|]. intros (_ & c & (_ & _ & [= <-] & _) & ?). congruence. }
  destruct (hst.bad_env_key (hst.Env container)) as [key|] eqn:H4.
  { split; [done|]. intros (_ & c & (_ & _ & [= <-] & _ & _ & _ & ?) & _). congruence. }
  split; [|done]. intros _. split; [lia|]. exists container. done.
Qed.

(** C8.  [Config.Validate] accepts the identity exactly in [1, 9999]: an
    identity outside of it fails with [ErrIdentityBounds] wrapped in an
    [AppError] with step "validate configuration"; an identity inside of it
    passes the bounds check, the verdict being that of the remaining
    checks. *)
Theorem Validate_identity_bounds {B : Type} (CI : option B → string → option error)
  (Q : string → string) (config : @hst.Config B) :
  (hst.Identity config < 1 ∨ 9999 < hst.Identity config →
     hst.Validate CI Q (Some config)
     = Some (AppError "validate configuration" (Sentinel ErrIdentityBounds)
               ("identity " +:+ pretty (hst.Identity config) +:+ " out of range")))
  ∧ (1 <= hst.Identity config <= 9999 →
       (hst.Validate CI Q (Some config) = None
        ↔ ∃ container, plain_checks_ok CI config container
                       ∧ hst.validateCgroup container = None)).
Proof.
  split.
  - intros Hout. unfold hst.Validate, hst.IdentityStart, hst.IdentityEnd.
    destruct (Z.ltb_spec (hst.Identity config) 1); [done|].
    destruct (Z.gtb_spec (hst.Identity config) 9999); [done|]. lia.
  - intros Hin. rewrite Validate_accepts. split; [by intros [_ ?]|by intros ?].
Qed.

Lemma example_plain_checks_ok i d f g :
  plain_checks_ok no_objection (example_config i (example_container d f g))
    (example_container d f g).
Proof. repeat split; try done. Qed.

Lemma Validate_identity_bounds_witness :
  (hst.Validate no_objection tmpfs.Quote
     (Some (example_config 0 (example_container 0 0 None)))
   = Some (AppError "validate configuration" (Sentinel ErrIdentityBounds)
             "identity 0 out of range"))
  ∧ (hst.Validate no_objection tmpfs.Quote
       (Some (example_config 10000 (example_container 0 0 None)))
     = Some (AppError "validate configuration" (Sentinel ErrIdentityBounds)
               "identity 10000 out of range"))
  ∧ hst.Validate no_objection tmpfs.Quote
      (Some (example_config 1 (example_container 0 0 None))) = None
  ∧ hst.Validate no_objection tmpfs.Quote
      (Some (example_config 9999 (example_container 0 0 None))) = None.
Proof.
  split; [|split; [|split]].
  - apply (proj1 (Validate_identity_bounds no_objection tmpfs.Quote
             (example_config 0 (example_container 0 0 None)))).
    left. simpl. lia.
  - apply (proj1 (Validate_identity_bounds no_objection tmpfs.Quote
             (example_config 10000 (example_container 0 0 None)))).
    right. simpl. lia.
  - apply (proj2 (Validate_identity_bounds no_objection tmpfs.Quote
             (example_config 1 (example_container 0 0 None)))).
    + simpl. lia.
    + eexists. split; [apply example_plain_checks_ok|reflexivity].
  - apply (proj2 (Validate_identity_bounds no_objection tmpfs.Quote
             (example_config 9999 (example_container 0 0 None)))).
    + simpl. lia.
    + eexists. split; [apply example_plain_checks_ok|reflexivity].
Defined.

(** C10.  [CgroupConfig.Validate] returns nil for a nil receiver and container
    validation takes a nil [Cgroup] as valid, so that a configuration
    without a cgroup section passes validation whenever its remaining checks
    do; [EINVAL] for a nil receiver comes from [SlicePath] and
    [InstancePath] only. *)
Theorem Validate_nil_cgroup {B : Type} (CI : option B → string → option error)
  (Q : string → string) (config : @hst.Config B) (container : hst.ContainerConfig) :
  hst.CgroupConfig_Validate None = None
  ∧ (hst.Cgroup container = None → hst.validateCgroup container = None)
  ∧ (hst.Cgroup container = None →
       1 <= hst.Identity config <= 9999 →
       plain_checks_ok CI config container →
       hst.Validate CI Q (Some config) = None)
  ∧ hst.SlicePath None = inr (Errno EINVAL)
  ∧ (∀ s id, hst.InstancePath None s id = inr (Errno EINVAL)).
Proof.
  assert (Hnil : hst.Cgroup container = None → hst.validateCgroup container = None).
  { intros Hg. unfold hst.validateCgroup. by rewrite Hg. }
  split; [done|]. split; [done|]. split; [|split; [done|]].
  - intros Hg Hid Hplain. apply Validate_accepts. split; [done|].
    exists container. auto.
  - by intros s [id|].
Qed.

Lemma Validate_nil_cgroup_witness :
  hst.Validate no_objection tmpfs.Quote
    (Some (example_config 42 (example_container 0 0 None))) = None.
Proof.
  apply (proj1 (proj2 (proj2 (Validate_nil_cgroup no_objection tmpfs.Quote
           (example_config 42 (example_container 0 0 None))
           (example_container 0 0 None))))).
  - reflexivity.
  - simpl. lia.
  - apply example_plain_checks_ok.
Defined.

(** ** Wait delay *)

(** C6.  The shim wait delay computed by [newOutcomeState] from the
    configured [WaitDelay] [d] is 0 if [d < 0], 5 seconds if [d = 0], 30
    seconds if [d] exceeds 30 seconds, and [d] itself otherwise. *)
Theorem newOutcomeState_WaitDelay {X B P : Type} (k : outcome.dispatched P)
  (id : option hst.ID) (config : @hst.Config B) (container : hst.ContainerConfig) :
  hst.Container config = Some container →
  ∃ (st : outcome.outcomeState X P) (shim : outcome.shimParams X),
    outcome.newOutcomeState k id config = Returned st
    ∧ outcome.Shim st = Some shim
    ∧ (hst.WaitDelay container < 0 → outcome.WaitDelay shim = 0)
    ∧ (hst.WaitDelay container = 0 → outcome.WaitDelay shim = 5000000000)
    ∧ (30000000000 < hst.WaitDelay container → outcome.WaitDelay shim = 30000000000)
    ∧ (0 < hst.WaitDelay container <= 30000000000 →
         outcome.WaitDelay shim = hst.WaitDelay container).
Proof.
  intros Hc. unfold outcome.newOutcomeState. rewrite Hc.
  destruct (hst.has_flag _ _); eexists _, _; (split; [reflexivity|]);
    (split; [reflexivity|]); simpl; unfold outcome.shimWaitDelay,
    hst.WaitDelayDefault, hst.WaitDelayMax;
    destruct (Z.ltb_spec (hst.WaitDelay container) 0);
    destruct (Z.eqb_spec (hst.WaitDelay container) 0);
    destruct (Z.gtb_spec (hst.WaitDelay container) (30 * 1000000000));
    repeat split; intros; lia.
Qed.

Lemma newOutcomeState_WaitDelay_witness :
  ∃ (st : outcome.outcomeState unit unit) (shim : outcome.shimParams unit),
    outcome.newOutcomeState example_dispatched (Some example_id)
      (example_config 42 (example_container 45000000000 0 None)) = Returned st
    ∧ outcome.Shim st = Some shim
    ∧ outcome.WaitDelay shim = 30000000000.
Proof.
  destruct (newOutcomeState_WaitDelay (X := unit) example_dispatched (Some example_id)
              (example_config 42 (example_container 45000000000 0 None))
              (example_container 45000000000 0 None) eq_refl)
    as (st & shim & Hst & Hshim & _ & _ & Hmax & _).
  exists st, shim. split; [exact Hst|]. split; [exact Hshim|].
  apply Hmax. simpl. lia.
Defined.

(** ** The JSON form of the container flags *)

Lemma flags_roundtrip_below (n : nat) :
  (n < 2048)%nat → flags_roundtrip (Z.of_nat n) = Z.of_nat n.
Proof.
  assert (Hall : forallb (fun n => flags_roundtrip (Z.of_nat n) =? Z.of_nat n)
                   (seq 0 2048) = true) by (vm_compute; reflexivity).
  intros Hn. rewrite forallb_forall in Hall.
  apply Z.eqb_eq, Hall, in_seq. lia.
Qed.

Lemma flags_roundtrip_defined (f : hst.Flags) :
  Z.land f hst.FAll = f → flags_roundtrip f = f.
Proof.
  intros Hf. assert (0 <= f < 2048) as Hrange.
  { change hst.FAll with (Z.ones 11) in Hf. rewrite Z.land_ones in Hf by lia.
    rewrite <- Hf. apply Z.mod_pos_bound. lia. }
  rewrite <- (Z2Nat.id f) by lia. apply flags_roundtrip_below. lia.
Qed.

Lemma json_field_app key l1 l2 :
  json_field key (l1 ++ l2)
  = match json_field key l2 with
    | Some v => Some v
    | None => json_field key l1
    end.
Proof.
  induction l1 as [|[k v] l1 IH]; simpl.
  - by destruct (json_field key l2).
  - rewrite IH. by destruct (json_field key l2).
Qed.

Lemma json_field_absent key segs :
  key ∉ (fun seg : json_row => seg.1.1) <$> segs →
  json_field key (json_fields segs) = None.
Proof.
  induction segs as [|[[k e] v] segs IH]; [done|].
  rewrite fmap_cons, not_elem_of_cons. intros [Hne Hnot].
  change (json_fields ((k, e, v) :: segs))
    with ((if e then [] else [(k, v)]) ++ json_fields segs).
  rewrite json_field_app, IH by done.
  destruct e; [done|]. simpl.
  by rewrite bool_decide_eq_false_2 by done.
Qed.

(** A field whose name occurs once is found when it was written. *)
Lemma json_field_segment (key : string) (e : bool) (v : json) (segs : list json_row) :
  NoDup ((fun seg : json_row => seg.1.1) <$> segs) →
  (key, e, v) ∈ segs →
  json_field key (json_fields segs) = if e then None else Some v.
Proof.
  induction segs as [|[[k e'] v'] segs IH];
    [intros _ Hin; by apply elem_of_nil in Hin|].
  rewrite fmap_cons, NoDup_cons. intros [Hk Hnd].
  change (json_fields ((k, e', v') :: segs))
    with ((if e' then [] else [(k, v')]) ++ json_fields segs).
  rewrite json_field_app. intros [[= <- <- <-]|Hin]%elem_of_cons.
  - rewrite json_field_absent by done.
    destruct e; [done|]. simpl. by rewrite bool_decide_eq_true_2.
  - rewrite IH by done. destruct e; [|done].
    destruct e'; [done|]. simpl.
    rewrite bool_decide_eq_false_2; [done|]. intros ->. apply Hk.
    apply list_elem_of_fmap. by exists (key, true, v).
Qed.

Lemma MarshalJSON_rows c :
  hst.MarshalJSON (Some c) = inl (JObject (json_fields (container_rows c))).
Proof. reflexivity. Qed.

Lemma container_rows_NoDup c :
  NoDup ((fun seg : json_row => seg.1.1) <$> container_rows c).
Proof. apply (bool_decide_unpack _). vm_compute. reflexivity. Qed.

Lemma container_field c (key : string) (e : bool) (v : json) :
  (key, e, v) ∈ container_rows c →
  json_field key (json_fields (container_rows c)) = if e then None else Some v.
Proof. apply json_field_segment, container_rows_NoDup. Qed.

Ltac find_row :=
  unfold hst.CgroupConfig_rows, hst.ContainerConfigF_rows, flag_rows, flag_tags;
  rewrite ?fmap_cons;
  solve [repeat first [apply list_elem_of_here | apply list_elem_of_further]].

Ltac find_segment :=
  unfold container_rows; rewrite elem_of_app;
  first [left; find_row | right; find_row].

Ltac container_field key :=
  rewrite (container_field _ key _ _ ltac:(find_segment)).

(** *** What the decoder finds in a written document *)

Lemma json_match_exact names key : key ∈ names → json_match names key = Some key.
Proof. intros Hin. unfold json_match. by rewrite bool_decide_eq_true_2. Qed.

Lemma json_values_app names key l1 l2 :
  json_values names key (l1 ++ l2)
  = json_values names key l1 ++ json_values names key l2.
Proof. unfold json_values. by rewrite filter_app, fmap_app. Qed.

Lemma json_values_absent names key (rows : list json_row) :
  Forall (fun row : json_row => row.1.1 ∈ names) rows →
  key ∉ (fun row : json_row => row.1.1) <$> rows →
  json_values names key (json_fields rows) = [].
Proof.
  induction rows as [|[[k e] v] rows IH]; [done|].
  rewrite Forall_cons, fmap_cons, not_elem_of_cons. intros [Hk Hnames] [Hne Hnot].
  change (json_fields ((k, e, v) :: rows))
    with ((if e then [] else [(k, v)]) ++ json_fields rows).
  rewrite json_values_app, IH, app_nil_r by done.
  destruct e; [done|]. unfold json_values. rewrite filter_cons, filter_nil.
  simpl in *. rewrite json_match_exact by done.
  by rewrite decide_False by congruence.
Qed.

(** A field whose name occurs once is given the value that was written for
    it, and none when it was left out. *)
Lemma json_values_row names (key : string) (e : bool) (v : json) (rows : list json_row) :
  Forall (fun row : json_row => row.1.1 ∈ names) rows →
  NoDup ((fun row : json_row => row.1.1) <$> rows) →
  (key, e, v) ∈ rows →
  json_values names key (json_fields rows) = if e then [] else [v].
Proof.
  induction rows as [|[[k e'] v'] rows IH];
    [intros _ _ Hin; by apply elem_of_nil in Hin|].
  rewrite Forall_cons, fmap_cons, NoDup_cons. intros [Hk Hnames] [Hfresh Hnd].
  change (json_fields ((k, e', v') :: rows))
    with ((if e' then [] else [(k, v')]) ++ json_fields rows).
  rewrite json_values_app. simpl in Hk. intros [[= <- <- <-]|Hin]%elem_of_cons.
  - rewrite (json_values_absent names key rows), app_nil_r by done.
    destruct e; [done|]. unfold json_values. rewrite filter_cons, filter_nil.
    simpl. rewrite json_match_exact by done. by rewrite decide_True.
  - rewrite IH by done.
    assert (json_values names key (if e' then [] else [(k, v')]) = []) as ->; [|done].
    destruct e'; [done|]. unfold json_values. rewrite filter_cons, filter_nil.
    simpl. rewrite json_match_exact by done.
    rewrite decide_False; [done|]. intros [= ->]. apply Hfresh.
    apply list_elem_of_fmap. by exists (key, e, v).
Qed.

Lemma container_rows_names c :
  Forall (fun row : json_row => row.1.1 ∈ hst.containerConfigJSON_names) (container_rows c).
Proof. apply (bool_decide_unpack _). vm_compute. reflexivity. Qed.

Lemma container_values c (key : string) (e : bool) (v : json) :
  (key, e, v) ∈ container_rows c →
  json_values hst.containerConfigJSON_names key (json_fields (container_rows c))
  = if e then [] else [v].
Proof. apply json_values_row; [apply container_rows_names|apply container_rows_NoDup]. Qed.

Ltac container_values key :=
  rewrite (container_values _ key _ _ ltac:(find_segment)).

Lemma cgroup_values g (key : string) (e : bool) (v : json) :
  (key, e, v) ∈ hst.CgroupConfig_rows g →
  json_values hst.CgroupConfig_names key (json_fields (hst.CgroupConfig_rows g))
  = if e then [] else [v].
Proof.
  apply json_values_row; apply (bool_decide_unpack _); vm_compute; reflexivity.
Qed.

(** *** Strings as they are written *)

Lemma json_coerce_no_nul skip s :
  no_nul s → no_nul (json_coerce_from skip s).
Proof.
  unfold no_nul. revert skip. induction s as [|b s IH]; [done|]. intros skip.
  cbn [strings_IndexByte_found]. intros [Hb Hs]%orb_false_elim.
  cbn [json_coerce_from]. destruct skip as [|n].
  - destruct (utf8_size (String b s)) as [n|].
    + cbn [strings_IndexByte_found]. by rewrite Hb, IH.
    + rewrite found_append, IH by done. reflexivity.
  - cbn [strings_IndexByte_found]. by rewrite Hb, IH.
Qed.

Lemma json_coerce_IsAbs p : path_IsAbs p = true → path_IsAbs (json_coerce p) = true.
Proof.
  destruct p as [|a p]; [done|]. simpl.
  destruct (Ascii.eqb_spec a slash) as [->|]; done.
Qed.

(** A pathname that the constructor accepts is accepted as it is written. *)
Lemma NewAbs_coerce p a :
  check.NewAbs p = inl a →
  check.NewAbs (json_coerce p) = inl (check.unsafeAbs (json_coerce p)).
Proof.
  unfold check.NewAbs.
  destruct (path_IsAbs p) eqn:Habs; [|done].
  destruct (strings_IndexByte_found p NUL) eqn:Hnul; [done|]. intros _.
  rewrite (json_coerce_IsAbs p Habs).
  by rewrite (json_coerce_no_nul 0 p Hnul).
Qed.

Lemma utf8_valid_coerce skip s :
  utf8_valid_from skip s = true → json_coerce_from skip s = s.
Proof.
  revert skip. induction s as [|b s IH]; [done|]. intros skip.
  cbn [utf8_valid_from json_coerce_from]. destruct skip as [|n].
  - destruct (utf8_size (String b s)) as [n|]; [|done].
    intros Hs. by rewrite IH.
  - intros Hs. by rewrite IH.
Qed.

Lemma valid_text_coerce s : valid_text s → json_coerce s = s.
Proof. apply utf8_valid_coerce. Qed.

(** *** Fields read back *)

Lemma json_string_row names key fields (s : string) :
  json_values names key fields
  = (if bool_decide (s = "") then [] else [json_of_string s]) →
  json_string "" names key fields = inl (json_coerce s).
Proof.
  intros Hf. unfold json_string. rewrite Hf. by case_bool_decide as Hs; [rewrite Hs|].
Qed.

Lemma json_int_row lo hi names key fields (n : Z) :
  json_values names key fields = (if n =? 0 then [] else [JNumber n]) →
  lo <= n <= hi → json_int lo hi 0 names key fields = inl n.
Proof.
  intros Hf Hn. unfold json_int. rewrite Hf.
  destruct (n =? 0) eqn:Hz; [by apply Z.eqb_eq in Hz as ->|].
  cbn [json_decode foldl].
  destruct (Z.leb_spec lo n); [|lia]. by destruct (Z.leb_spec n hi); [|lia].
Qed.

Lemma json_Absolute_row names key fields (e : bool) (a : option check.Absolute) :
  json_values names key fields = (if e then [] else [hst.Absolute_json a]) →
  (e = true → a = None) →
  valid_Absolute a → hst.json_Absolute names key fields = inl (Absolute_coerce a).
Proof.
  intros Hf He Ha. unfold hst.json_Absolute. rewrite Hf.
  destruct e; [by rewrite He|].
  destruct a as [a|]; [|done].
  cbn [hst.Absolute_json json_of_string json_decode foldl].
  unfold valid_Absolute in Ha. by rewrite (NewAbs_coerce _ _ Ha).
Qed.

Lemma json_CgroupConfig_row names key fields (g : option hst.CgroupConfig) :
  json_values names key fields
  = (if bool_decide (g = None) then []
     else [match g with None => JNull | Some g => hst.CgroupConfig_json g end]) →
  match g with
  | None => True
  | Some g => (0 <= hst.LimitCPU g <= max_uint64)
              ∧ (0 <= hst.LimitMemory g <= max_uint64)
              ∧ (min_int64 <= hst.LimitPids g <= max_int64)
  end →
  hst.json_CgroupConfig names key fields = inl (CgroupConfig_coerce <$> g).
Proof.
  intros Hf Hg. unfold hst.json_CgroupConfig. rewrite Hf.
  destruct g as [g|]; [|done]. rewrite bool_decide_eq_false_2 by done.
  destruct Hg as (Hcpu & Hmem & Hpids).
  unfold hst.CgroupConfig_json. cbn [json_decode foldl default hst.Slice hst.LimitCPU
    hst.LimitMemory hst.LimitPids].
  rewrite (json_string_row _ "slice" _ _ (cgroup_values g "slice" _ _ ltac:(find_row))).
  rewrite (json_int_row 0 max_uint64 _ "limit_cpu" _ _
             (cgroup_values g "limit_cpu" _ _ ltac:(find_row)) Hcpu).
  rewrite (json_int_row 0 max_uint64 _ "limit_memory" _ _
             (cgroup_values g "limit_memory" _ _ ltac:(find_row)) Hmem).
  rewrite (json_int_row min_int64 max_int64 _ "limit_pids" _ _
             (cgroup_values g "limit_pids" _ _ ltac:(find_row)) Hpids).
  reflexivity.
Qed.

Lemma json_elems_strings old (l : list string) :
  json_elems old (json_of_string <$> l) = Some (json_coerce <$> l).
Proof.
  revert old. induction l as [|x l IH]; [done|]. intros old.
  rewrite !fmap_cons. cbn [json_elems json_of_string]. by rewrite IH.
Qed.

Lemma mapM_text_pairs (l : list (string * string)) :
  mapM (fun kv : string * json => pair kv.1 <$> json_text kv.2)
    ((fun kv => (json_coerce kv.1, json_of_string kv.2)) <$> l)
  = Some ((fun kv => (json_coerce kv.1, json_coerce kv.2)) <$> l).
Proof. apply mapM_Some. induction l as [|[k x] l IH]; by constructor. Qed.

(** The embedded struct of a written document is read back. *)
Lemma json_ContainerConfigF_rows c :
  ContainerConfig_wf c →
  hst.json_ContainerConfigF (json_fields (container_rows c))
  = inl (hst.set_Flags (ContainerConfig_coerce c) 0).
Proof.
  intros (Hwait & Hshell & Hhome & Hpath & Hcgroup).
  set (fields := json_fields (container_rows c)).
  unfold hst.json_ContainerConfigF. cbv zeta.
  rewrite (json_string_row _ "hostname" fields _
             (container_values c "hostname" _ _ ltac:(find_segment))).
  rewrite (json_int_row min_int64 max_int64 _ "wait_delay" fields _
             (container_values c "wait_delay" _ _ ltac:(find_segment)) Hwait).
  assert (json_string_map hst.containerConfigJSON_names "env" fields
          = inl (Env_coerce <$> hst.Env c)) as ->.
  { unfold json_string_map, fields. container_values "env".
    destruct (hst.Env c) as [m|]; [|done].
    cbn [json_decode foldl]. by rewrite mapM_text_pairs. }
  assert (json_values hst.containerConfigJSON_names "filesystem" fields
          = [match hst.Filesystem c with None => JNull | Some l => JArray l end])
    as -> by (unfold fields; by container_values "filesystem").
  rewrite (json_string_row _ "username" fields _
             (container_values c "username" _ _ ltac:(find_segment))).
  rewrite (json_Absolute_row _ "shell" fields false _
             (container_values c "shell" _ _ ltac:(find_segment))
             ltac:(done) Hshell).
  rewrite (json_Absolute_row _ "home" fields false _
             (container_values c "home" _ _ ltac:(find_segment))
             ltac:(done) Hhome).
  rewrite (json_Absolute_row _ "path" fields _ _
             (container_values c "path" _ _ ltac:(find_segment))
             (bool_decide_eq_true_1 _) Hpath).
  assert (json_strings hst.containerConfigJSON_names "args" fields
          = inl ((fun l : list string => json_coerce <$> l) <$> hst.Args c)) as ->.
  { unfold json_strings, fields. container_values "args".
    destruct (hst.Args c); [|done].
    cbn [json_decode foldl default]. by rewrite json_elems_strings. }
  rewrite (json_CgroupConfig_row _ "cgroup" fields _
             (container_values c "cgroup" _ _ ltac:(find_segment)) Hcgroup).
  unfold ContainerConfig_coerce. by destruct (hst.Filesystem c).
Qed.

Lemma json_bool_flag c key bit :
  (key, bit) ∈ flag_tags →
  json_bool hst.containerConfigJSON_names key (json_fields (container_rows c))
  = inl (hst.has_flag (hst.Flags_ c) bit).
Proof.
  intros Hin. unfold json_bool.
  rewrite (container_values c key
             (negb (bool_decide (key = "map_real_uid"))
              && negb (hst.has_flag (hst.Flags_ c) bit))
             (JBool (hst.has_flag (hst.Flags_ c) bit))).
  - destruct (hst.has_flag (hst.Flags_ c) bit); [by rewrite andb_false_r|].
    by destruct (negb _).
  - unfold container_rows. apply elem_of_app. right.
    unfold flag_rows. apply list_elem_of_fmap. by exists (key, bit).
Qed.

Lemma Flags_or_flag b bit c :
  hst.Flags_ (hst.or_flag b bit c)
  = if b then Z.lor (hst.Flags_ c) bit else hst.Flags_ c.
Proof. by destruct b. Qed.

Lemma embedded_present c :
  existsb (fun tag => negb (bool_decide
             (json_values hst.containerConfigJSON_names tag
                (json_fields (container_rows c)) = [])))
    hst.ContainerConfigF_tags = true.
Proof.
  apply existsb_exists. exists "env". split; [vm_compute; tauto|].
  container_values "env". by rewrite bool_decide_eq_false_2.
Qed.

Lemma json_ContainerConfigF_Flags fields c0 :
  hst.json_ContainerConfigF fields = inl c0 → hst.Flags_ c0 = 0.
Proof.
  unfold hst.json_ContainerConfigF. cbv zeta. intros Hc0.
  repeat match type of Hc0 with
         | match ?x with _ => _ end = _ => destruct x; try discriminate Hc0
         end.
  by injection Hc0 as <-.
Qed.

(** The flags [UnmarshalJSON] returns are those of the booleans it read. *)
Lemma UnmarshalJSON_flags receiver fields c' :
  hst.UnmarshalJSON (Some receiver) (JObject fields) = Returned (inl c') →
  let names := hst.containerConfigJSON_names in
  ∃ b1 b2 b3 b4 b5 b6 b7 b8 b9 b10 b11,
    json_bool names "seccomp_compat" fields = inl b1
    ∧ json_bool names "devel" fields = inl b2
    ∧ json_bool names "userns" fields = inl b3
    ∧ json_bool names "host_net" fields = inl b4
    ∧ json_bool names "host_abstract" fields = inl b5
    ∧ json_bool names "tty" fields = inl b6
    ∧ json_bool names "multiarch" fields = inl b7
    ∧ json_bool names "map_real_uid" fields = inl b8
    ∧ json_bool names "device" fields = inl b9
    ∧ json_bool names "share_runtime" fields = inl b10
    ∧ json_bool names "share_tmpdir" fields = inl b11
    ∧ hst.Flags_ c' = flags_of_bools b1 b2 b3 b4 b5 b6 b7 b8 b9 b10 b11.
Proof.
  unfold hst.UnmarshalJSON, hst.json_Unmarshal. cbv zeta.
  destruct (existsb _ _); [|intros H; repeat case_match; simplify_eq].
  destruct (hst.json_ContainerConfigF fields) as [c0|] eqn:Hc0; [|done].
  apply json_ContainerConfigF_Flags in Hc0.
  destruct (json_bool _ "seccomp_compat" fields) as [b1|]; [|done].
  destruct (json_bool _ "devel" fields) as [b2|]; [|done].
  destruct (json_bool _ "userns" fields) as [b3|]; [|done].
  destruct (json_bool _ "host_net" fields) as [b4|]; [|done].
  destruct (json_bool _ "host_abstract" fields) as [b5|]; [|done].
  destruct (json_bool _ "tty" fields) as [b6|]; [|done].
  destruct (json_bool _ "multiarch" fields) as [b7|]; [|done].
  destruct (json_bool _ "map_real_uid" fields) as [b8|]; [|done].
  destruct (json_bool _ "device" fields) as [b9|]; [|done].
  destruct (json_bool _ "share_runtime" fields) as [b10|]; [|done].
  destruct (json_bool _ "share_tmpdir" fields) as [b11|]; [|done].
  cbn [hst.ContainerConfigF hst.SeccompCompat hst.Devel
    hst.Userns hst.HostNet hst.HostAbstract hst.Tty hst.Multiarch hst.MapRealUID
    hst.Device hst.ShareRuntime hst.ShareTmpdir].
  intros [= <-]. exists b1, b2, b3, b4, b5, b6, b7, b8, b9, b10, b11.
  repeat (split; [reflexivity|]).
  rewrite !Flags_or_flag, Hc0. reflexivity.
Qed.

Lemma json_bool_absent names key fields :
  json_values names key fields = [] → json_bool names key fields = inl false.
Proof. intros Hf. unfold json_bool. by rewrite Hf. Qed.

(** A flag is set in the rebuilt flags exactly when its boolean is. *)
Lemma has_flag_of_bools b1 b2 b3 b4 b5 b6 b7 b8 b9 b10 b11 :
  let f := flags_of_bools b1 b2 b3 b4 b5 b6 b7 b8 b9 b10 b11 in
  hst.has_flag f hst.FSeccompCompat = b1 ∧ hst.has_flag f hst.FDevel = b2
  ∧ hst.has_flag f hst.FUserns = b3 ∧ hst.has_flag f hst.FHostNet = b4
  ∧ hst.has_flag f hst.FHostAbstract = b5 ∧ hst.has_flag f hst.FTty = b6
  ∧ hst.has_flag f hst.FMultiarch = b7 ∧ hst.has_flag f hst.FMapRealUID = b8
  ∧ hst.has_flag f hst.FDevice = b9 ∧ hst.has_flag f hst.FShareRuntime = b10
  ∧ hst.has_flag f hst.FShareTmpdir = b11.
Proof.
  destruct b1, b2, b3, b4, b5, b6, b7, b8, b9, b10, b11; vm_compute; tauto.
Qed.

(** A boolean field that no key of a document stands for leaves its bit
    cleared. *)
Lemma UnmarshalJSON_absent receiver fields c' key bit :
  (key, bit) ∈ flag_tags →
  json_values hst.containerConfigJSON_names key fields = [] →
  hst.UnmarshalJSON (Some receiver) (JObject fields) = Returned (inl c') →
  hst.has_flag (hst.Flags_ c') bit = false.
Proof.
  intros Hin Habs Hu. apply json_bool_absent in Habs.
  destruct (UnmarshalJSON_flags _ _ _ Hu)
    as (b1 & b2 & b3 & b4 & b5 & b6 & b7 & b8 & b9 & b10 & b11
        & H1 & H2 & H3 & H4 & H5 & H6 & H7 & H8 & H9 & H10 & H11 & ->).
  destruct (has_flag_of_bools b1 b2 b3 b4 b5 b6 b7 b8 b9 b10 b11)
    as (F1 & F2 & F3 & F4 & F5 & F6 & F7 & F8 & F9 & F10 & F11).
  unfold flag_tags in Hin.
  repeat (apply elem_of_cons in Hin as [[= -> ->]|Hin]; [congruence|]).
  by apply elem_of_nil in Hin.
Qed.

Lemma or_flag_set_Flags b bit c f :
  hst.or_flag b bit (hst.set_Flags c f)
  = hst.set_Flags c (if b then Z.lor f bit else f).
Proof. by destruct b. Qed.

Ltac flag_bool c key bit :=
  rewrite (json_bool_flag c key bit) by (unfold flag_tags; set_solver).

(** What [UnmarshalJSON] makes of the document written for [c]. *)
Lemma UnmarshalJSON_written c receiver :
  ContainerConfig_wf c →
  hst.UnmarshalJSON (Some receiver) (JObject (json_fields (container_rows c)))
  = Returned (inl (hst.set_Flags (ContainerConfig_coerce c)
                     (flags_roundtrip (hst.Flags_ c)))).
Proof.
  intros Hwf.
  unfold hst.UnmarshalJSON, hst.json_Unmarshal. cbv zeta.
  rewrite embedded_present, (json_ContainerConfigF_rows c Hwf).
  flag_bool c "seccomp_compat" hst.FSeccompCompat.
  flag_bool c "devel" hst.FDevel.
  flag_bool c "userns" hst.FUserns.
  flag_bool c "host_net" hst.FHostNet.
  flag_bool c "host_abstract" hst.FHostAbstract.
  flag_bool c "tty" hst.FTty.
  flag_bool c "multiarch" hst.FMultiarch.
  flag_bool c "map_real_uid" hst.FMapRealUID.
  flag_bool c "device" hst.FDevice.
  flag_bool c "share_runtime" hst.FShareRuntime.
  flag_bool c "share_tmpdir" hst.FShareTmpdir.
  cbn [hst.ContainerConfigF hst.SeccompCompat hst.Devel
    hst.Userns hst.HostNet hst.HostAbstract hst.Tty hst.Multiarch hst.MapRealUID
    hst.Device hst.ShareRuntime hst.ShareTmpdir].
  by rewrite !or_flag_set_Flags.
Qed.

(** C5.  For every container config whose flags hold defined bits only,
    [MarshalJSON] writes the fields of the config with the flags left out,
    followed by boolean fields only: [map_real_uid] always, and each of the
    other flag fields exactly when its bit is set; [UnmarshalJSON] applied
    to that document restores exactly the original flags.  A boolean field
    that no key of a document stands for, by its name or by a name that is
    the same under case folding, leaves its bit cleared. *)
Theorem Flags_json_roundtrip (c receiver : hst.ContainerConfig) :
  ContainerConfig_wf c →
  Z.land (hst.Flags_ c) hst.FAll = hst.Flags_ c →
  ∃ fields,
    hst.MarshalJSON (Some c) = inl (JObject fields)
    ∧ fields = json_fields (hst.ContainerConfigF_rows (hst.set_Flags c 0))
               ++ json_fields (flag_rows (hst.Flags_ c))
    ∧ Forall (fun kv => ∃ b, kv.2 = JBool b) (json_fields (flag_rows (hst.Flags_ c)))
    ∧ json_field "map_real_uid" fields
      = Some (JBool (hst.has_flag (hst.Flags_ c) hst.FMapRealUID))
    ∧ (∀ key bit, (key, bit) ∈ flag_tags → key ≠ "map_real_uid" →
         json_field key fields
         = if hst.has_flag (hst.Flags_ c) bit then Some (JBool true) else None)
    ∧ (∃ c', hst.UnmarshalJSON (Some receiver) (JObject fields) = Returned (inl c')
             ∧ hst.Flags_ c' = hst.Flags_ c)
    ∧ (∀ doc key bit c', (key, bit) ∈ flag_tags →
         json_values hst.containerConfigJSON_names key doc = [] →
         hst.UnmarshalJSON (Some receiver) (JObject doc) = Returned (inl c') →
         hst.has_flag (hst.Flags_ c') bit = false).
Proof.
  intros Hwf Hdefined. exists (json_fields (container_rows c)).
  split; [apply MarshalJSON_rows|]. split; [|split; [|split; [|split; [|split]]]].
  - unfold container_rows, json_fields. by rewrite flat_map_app.
  - unfold flag_rows, flag_tags. rewrite !fmap_cons. cbn [fmap list_fmap].
    unfold json_fields. cbn [flat_map fst snd].
    repeat (apply Forall_app; split;
            [destruct (_ && _); [constructor|repeat constructor; by eexists]|]).
    constructor.
  - container_field "map_real_uid". reflexivity.
  - intros key bit Hin Hne.
    rewrite (container_field c key
               (negb (bool_decide (key = "map_real_uid"))
                && negb (hst.has_flag (hst.Flags_ c) bit))
               (JBool (hst.has_flag (hst.Flags_ c) bit))).
    + rewrite bool_decide_eq_false_2 by done. simpl.
      by destruct (hst.has_flag (hst.Flags_ c) bit).
    + unfold container_rows. apply elem_of_app. right.
      unfold flag_rows. apply list_elem_of_fmap. by exists (key, bit).
  - eexists. split; [by apply UnmarshalJSON_written|].
    by rewrite flags_roundtrip_defined.
  - intros doc key bit c'. apply UnmarshalJSON_absent.
Qed.

Lemma example_container_wf d f : min_int64 <= d <= max_int64 →
  ContainerConfig_wf (example_container d f (Some default_cgroup)).
Proof.
  intros Hd. split; [exact Hd|]. split; [reflexivity|]. split; [reflexivity|].
  split; [reflexivity|]. cbn. unfold max_uint64, min_int64, max_int64. lia.
Qed.

Lemma Flags_json_roundtrip_witness :
  ∃ fields c',
    hst.MarshalJSON (Some (example_container 0 example_flags (Some default_cgroup)))
    = inl (JObject fields)
    ∧ hst.UnmarshalJSON (Some (example_container 0 0 None)) (JObject fields)
      = Returned (inl c')
    ∧ hst.Flags_ c' = example_flags.
Proof.
  destruct (Flags_json_roundtrip
              (example_container 0 example_flags (Some default_cgroup))
              (example_container 0 0 None)
              (example_container_wf 0 example_flags
                 ltac:(unfold min_int64, max_int64; lia))
              eq_refl)
    as (fields & Hm & _ & _ & _ & _ & (c' & Hu & Hf) & _).
  exists fields, c'. split; [exact Hm|]. split; [exact Hu|exact Hf].
Defined.

(** ** The cgroup op *)

Section CgroupOp.

Context {H : Type} (k : system.syscalls H) (Q : string → string).

(** A target that does not start with the base is refused. *)
Lemma cgroupOp_apply_refuses (c : system.cgroupOp) (w : system.world H) :
  strings_HasPrefix (system.path c) (system.base c) = false →
  system.cgroupOp_apply k Q c w
  = (c, system.verbosef "configuring cgroup %q" [system.LStr (system.path c)] w,
     Some escapes_slice).
Proof. intros Hp. unfold system.cgroupOp_apply. by rewrite Hp. Qed.

Lemma drop_prefix_prefix p s rest : drop_prefix p s = Some rest → String.prefix p s = true.
Proof.
  revert s. induction p as [|a p IH]; intros [|b s]; simpl; try done.
  destruct (Ascii.eqb_spec a b) as [->|]; [|done].
  intros Hd. destruct (ascii_dec b b); [|done]. by apply IH.
Qed.

Lemma prefix_append_l p q s : String.prefix (p +:+ q) s = true → String.prefix p s = true.
Proof.
  revert s. induction p as [|a p IH]; intros s; [by destruct s|].
  rewrite append_cons. destruct s as [|b s]; simpl; [done|].
  destruct (ascii_dec a b); [|done]. apply IH.
Qed.

(** A target beneath the base passes the check, so that a refused target
    never lies beneath the base. *)
Lemma lies_beneath_HasPrefix base target :
  base ≠ "" → lies_beneath base target = true → strings_HasPrefix target base = true.
Proof.
  intros Hne. unfold lies_beneath, strings_HasPrefix.
  destruct (drop_prefix (as_dir base) target) as [rest|] eqn:Hd; [|done].
  intros _. apply drop_prefix_prefix in Hd. unfold as_dir in Hd.
  case_bool_decide as Hroot.
  - by rewrite Hroot.
  - by apply prefix_append_l in Hd.
Qed.

End CgroupOp.

(** C2, at the failing input.  The target /tmp/bc does not lie beneath the
    base /tmp/b, and [cgroupOp.apply] does not refuse it: it creates /tmp/b/c
    and writes the controller file /tmp/bc/cpu.max outside of the base. *)
Theorem cgroupOp_apply_sibling_accepted :
  lies_beneath (system.base sibling_op) (system.path sibling_op) = false
  ∧ system.cgroupOp_apply tmpfs.k tmpfs.Quote sibling_op (tmpfs.world0 sibling_host)
    = ({| system.base := "/tmp/b"; system.path := "/tmp/bc";
          system.limits := system.limits sibling_op;
          system.created := ["/tmp/b/c"]; system.files := ["/tmp/bc/cpu.max"] |},
       {| system.host := sibling_host ++ [("/tmp/b/c", None);
                                          ("/tmp/bc/cpu.max", Some "50000 100000")];
          system.msgs := [system.Verbosef "configuring cgroup %q" [system.LStr "/tmp/bc"]] |},
       None).
Proof. split; vm_compute; reflexivity. Qed.

(** ** The engine *)

Section Engine.

Context {H S : Type} (k : system.syscalls H) (Q : string → string).

Lemma ensurePath_range_tag n i parts cur c w c' w' e :
  system.ensurePath_range k Q n i parts cur c w = (c', w', Some e) →
  ∃ cause msg, e = OpError "cgroup" cause msg false.
Proof.
  revert i cur c w. induction parts as [|part rest IH]; intros i cur c w; simpl; [done|].
  case_bool_decide; [apply IH|].
  destruct (system.on_host _ w) as [w1 [err|]]; [|apply IH].
  destruct (errors_Is err IsErrExist).
  - case_bool_decide; [|apply IH]. intros [= _ _ <-]. by eexists _, _.
  - intros [= _ _ <-]. by eexists _, _.
Qed.

Lemma writeControllerFile_tag name value c w c' w' e :
  system.writeControllerFile k name value c w = (c', w', Some e) →
  ∃ cause msg, e = OpError "cgroup" cause msg false.
Proof.
  unfold system.writeControllerFile.
  destruct (system.on_host _ w) as [w1 [err|]]; [|done].
  intros [= _ _ <-]. by eexists _, _.
Qed.

Lemma applyLimits_tag c w c' w' e :
  system.applyLimits k c w = (c', w', Some e) →
  ∃ cause msg, e = OpError "cgroup" cause msg false.
Proof.
  unfold system.applyLimits.
  destruct (system.CPU (system.limits c) >? 0).
  - destruct (system.writeControllerFile k "cpu.max" _ c w) as [[c1 w1] [e1|]] eqn:H1.
    { intros [= _ _ <-]. by apply writeControllerFile_tag in H1. }
    destruct (system.Memory (system.limits c1) >? 0).
    + destruct (system.writeControllerFile k "memory.max" _ c1 w1)
        as [[c2 w2] [e2|]] eqn:H2.
      { intros [= _ _ <-]. by apply writeControllerFile_tag in H2. }
      destruct (system.Pids (system.limits c2) >? 0); [|done].
      apply writeControllerFile_tag.
    + destruct (system.Pids (system.limits c1) >? 0); [|done].
      apply writeControllerFile_tag.
  - destruct (system.Memory (system.limits c) >? 0).
    + destruct (system.writeControllerFile k "memory.max" _ c w)
        as [[c2 w2] [e2|]] eqn:H2.
      { intros [= _ _ <-]. by apply writeControllerFile_tag in H2. }
      destruct (system.Pids (system.limits c2) >? 0); [|done].
      apply writeControllerFile_tag.
    + destruct (system.Pids (system.limits c) >? 0); [|done].
      apply writeControllerFile_tag.
Qed.

(** Every failure of [cgroupOp.apply] is an [OpError] tagged "cgroup". *)
Lemma cgroupOp_apply_tag c w c' w' e :
  system.cgroupOp_apply k Q c w = (c', w', Some e) →
  ∃ cause msg, e = OpError "cgroup" cause msg false.
Proof.
  unfold system.cgroupOp_apply.
  destruct (negb _). { intros [= _ _ <-]. by eexists _, _. }
  destruct (system.stat k _ _). { intros [= _ _ <-]. by eexists _, _. }
  destruct (system.ensurePath k Q c _) as [[c1 w1] [e1|]] eqn:H1.
  - intros [= _ _ <-]. unfold system.ensurePath in H1.
    case_bool_decide.
    + injection H1 as _ _ <-. by eexists _, _.
    + by apply ensurePath_range_tag in H1.
  - apply applyLimits_tag.
Qed.

Lemma cgroupOp_reports_own_tag (c : system.cgroupOp) :
  reports_own_tag (S := S) k Q (system.OpCgroup c).
Proof.
  intros w o' w' e. simpl.
  destruct (system.cgroupOp_apply k Q c w) as [[c1 w1] e1] eqn:Hc.
  intros [= _ _ ->]. by apply cgroupOp_apply_tag in Hc.
Qed.

(** [cgroupOp.revert] is gated by the criteria for the Process type. *)
Lemma cgroupOp_honours_criteria (c : system.cgroupOp) :
  honours_criteria (S := S) k (system.OpCgroup c).
Proof.
  intros ec w Hec. simpl in *. unfold system.cgroupOp_revert, system.hasType.
  unfold system.cgroupOp_Type in Hec. rewrite Hec. simpl.
  by eexists _, _.
Qed.

Lemma commit_ops_applied w pre pre' w1 rest done_ :
  applied k Q w pre pre' w1 →
  system.commit_ops k Q (pre ++ rest) done_ w
  = system.commit_ops (S := S) k Q rest (done_ ++ pre') w1.
Proof.
  intros Happ. revert done_. induction Happ as [w|w o o' w1 os os' w2 Ho _ IH];
    intros done_.
  - by rewrite app_nil_r.
  - simpl. rewrite Ho. rewrite IH. by rewrite <- app_assoc.
Qed.

Lemma applied_length w pre pre' w1 :
  applied (S := S) k Q w pre pre' w1 → length pre' = length pre.
Proof. induction 1; simpl; congruence. Qed.

Lemma revert_ops_in_order ec os w :
  ∃ w' errs, system.revert_ops (S := S) k ec os w = (w', errs)
             ∧ reverted_in_order k ec w os w' errs.
Proof.
  revert w. induction os as [|o os IH]; intros w.
  - eexists _, _. split; [reflexivity|constructor].
  - simpl. destruct (system.Op_revert k o ec w) as [w1 e] eqn:Ho.
    destruct (IH w1) as (w2 & es & -> & Hrest).
    eexists _, _. split; [reflexivity|]. by econstructor.
Qed.

Lemma host_print_errors errs (w : system.world H) :
  system.host (system.print_errors errs w) = system.host w.
Proof.
  unfold system.print_errors. revert w.
  induction (omap id errs) as [|e es IH]; intros w; [done|].
  simpl. by rewrite IH.
Qed.

Lemma msgs_print_errors errs (w : system.world H) :
  system.msgs (system.print_errors errs w)
  = system.msgs w ++ ((fun e => system.Println [system.LErr e]) <$> omap id errs).
Proof.
  unfold system.print_errors. revert w.
  induction (omap id errs) as [|e es IH]; intros w; simpl.
  - by rewrite app_nil_r.
  - rewrite IH. simpl. by rewrite <- app_assoc.
Qed.

(** C1.  When [Commit] fails at op [o], the ops [pre] before it having been
    applied, exactly those ops are reverted, last one first, under nil
    criteria; [Commit] returns the error of [o], an [OpError] under the tag
    of [o], and leaves the engine committed; the errors of the rollback are
    printed and do not change what is returned. *)
Theorem Commit_rollback (sys : system.I H S) (w w1 w2 : system.world H)
  (pre pre' post : list (system.Op H S)) (o o' : system.Op H S) (e : error) :
  system.committed sys = false →
  system.ops sys = pre ++ o :: post →
  applied k Q w pre pre' w1 →
  system.Op_apply k Q o w1 = (o', w2, Some e) →
  reports_own_tag k Q o →
  ∃ w3 errs,
    reverted_in_order k None
      (system.verbosef "commit faulted after %d ops, rolling back partial commit"
         [system.LInt (Z.of_nat (length pre))] w2)
      (rev pre') w3 errs
    ∧ system.Commit k Q sys w
      = Returned ({| system.uid := system.uid sys;
                     system.ops := pre' ++ o' :: post;
                     system.committed := true;
                     system.reverted := system.reverted sys |},
                  system.print_errors errs w3, Some e)
    ∧ (∃ cause msg, e = OpError (system.Op_tag o) cause msg false)
    ∧ system.host (system.print_errors errs w3) = system.host w3
    ∧ (∀ err, Some err ∈ errs →
         system.Println [system.LErr err]
         ∈ system.msgs (system.print_errors errs w3)).
Proof.
  intros Hc Hops Happ Ho Htag.
  destruct (revert_ops_in_order None (rev pre')
              (system.verbosef "commit faulted after %d ops, rolling back partial commit"
                 [system.LInt (Z.of_nat (length pre))] w2))
    as (w3 & errs & Hrev & Hord).
  exists w3, errs. split; [exact Hord|].
  split; [|split; [by eapply Htag|split; [apply host_print_errors|]]].
  - unfold system.Commit. rewrite Hc, Hops.
    rewrite (commit_ops_applied _ _ _ _ _ _ Happ). simpl.
    rewrite Ho. rewrite (applied_length _ _ _ _ Happ), Hrev. reflexivity.
  - intros err Hin. rewrite msgs_print_errors. apply elem_of_app. right.
    apply list_elem_of_fmap. exists err. split; [done|].
    apply list_elem_of_omap. by exists (Some err).
Qed.

Lemma revert_ops_selectively (ec : system.Criteria) os w :
  Forall (honours_criteria k) os →
  ∃ w' errs errs',
    system.revert_ops (S := S) k (Some ec) os w = (w', errs)
    ∧ reverted_selectively k ec w os w' errs'
    ∧ omap id errs = omap id errs'.
Proof.
  intros Hall. revert w. induction Hall as [|o os Ho _ IH]; intros w.
  - eexists _, _, _. split; [reflexivity|]. split; [constructor|done].
  - cbn [system.revert_ops].
    destruct (decide (Z.land ec (system.Op_Type o) = 0)) as [Hskip|Hrun].
    + destruct (Ho ec w Hskip) as (format & args & Hrev).
      destruct (IH (system.verbosef format args w)) as (w2 & es & es' & Hrest & Hsel & Hes).
      exists w2, (None :: es), es'. rewrite Hrev, Hrest.
      split; [reflexivity|]. split; [by eapply selectively_skip|done].
    + destruct (system.Op_revert k o (Some ec) w) as [w1 e] eqn:Hrev.
      destruct (IH w1) as (w2 & es & es' & Hrest & Hsel & Hes).
      exists w2, (e :: es), (e :: es'). rewrite Hrest.
      split; [reflexivity|]. split; [by eapply selectively_run|].
      change (e :: es) with ([e] ++ es). change (e :: es') with ([e] ++ es').
      by rewrite !omap_app, Hes.
Qed.

(** C4.  [Revert] under non-nil criteria, on a transaction whose ops honour
    the criteria, runs the revert of exactly the ops whose type intersects
    the criteria, last registered first; every other op is skipped with a
    verbose message and the host is left as it is; the errors returned by
    the reverts that ran are joined into the returned error. *)
Theorem Revert_criteria (sys : system.I H S) (ec : system.Criteria) (w : system.world H) :
  system.reverted sys = false →
  Forall (honours_criteria k) (system.ops sys) →
  ∃ w' errs,
    reverted_selectively k ec w (rev (system.ops sys)) w' errs
    ∧ system.Revert k sys (Some ec) w
      = Returned ({| system.uid := system.uid sys; system.ops := system.ops sys;
                     system.committed := system.committed sys;
                     system.reverted := true |}, w', errors_Join errs).
Proof.
  intros Hr Hall.
  destruct (revert_ops_selectively ec (rev (system.ops sys)) w)
    as (w' & errs & errs' & Hrev & Hsel & Herrs).
  { by apply Forall_rev. }
  exists w', errs'. split; [exact Hsel|].
  unfold system.Revert. rewrite Hr, Hrev. unfold errors_Join. by rewrite Herrs.
Qed.

(** A skipped op leaves the host as it is. *)
Lemma host_verbosef format args (w : system.world H) :
  system.host (system.verbosef format args w) = system.host w.
Proof. reflexivity. Qed.

End Engine.

(** ** Planning *)

Section Planner.

Context {H S X P : Type}.
Variable extern_toSystem :
  outcome.outcomeOp X → outcome.outcomeStateSys H S X P
  → outcome (X * outcome.outcomeStateSys H S X P * option error).
Variable zero : X.

Lemma toSystem_kind op st op' st' e :
  outcome.outcomeOp_toSystem extern_toSystem op st = Returned (op', st', e) →
  outcome.kind op' = outcome.kind op.
Proof.
  destruct op; simpl;
    try (destruct (extern_toSystem _ st) as [[[x1 st1] e1]|]; [|done];
         by intros [= <- _ _]).
  unfold outcome.spCgroupOp_toSystem, outcome.nil_dereference.
  repeat case_match; try done; by intros [= <- _ _].
Qed.

Lemma toSystem_Shim op st op' st' e :
  leaves_Shim extern_toSystem →
  outcome.outcomeOp_toSystem extern_toSystem op st = Returned (op', st', e) →
  outcome.Shim (outcome.state st') = outcome.Shim (outcome.state st).
Proof.
  intros Hleave. destruct op; simpl;
    try (destruct (extern_toSystem _ st) as [[[x1 st1] e1]|] eqn:Hx; [|done];
         intros [= _ <- _]; by eapply Hleave).
  unfold outcome.spCgroupOp_toSystem, outcome.nil_dereference.
  repeat case_match; try done; by intros [= _ <- _].
Qed.

(** The loop runs as [planning] says, and keeps ops in their order. *)
Lemma toSystem_range_planning ops st :
  ∃ kept,
    outcome.planning extern_toSystem ops st kept
      (outcome.toSystem_range extern_toSystem ops st)
    ∧ outcome.kind <$> kept `sublist_of` outcome.kind <$> ops.
Proof.
  revert st. induction ops as [|op ops IH]; intros st.
  - exists []. split; [constructor|done].
  - simpl.
    destruct (outcome.outcomeOp_toSystem extern_toSystem op st)
      as [[[op' st'] [err|]]|msg] eqn:Hop.
    + destruct (errors_Is err (IsSentinel errNotEnabled)) eqn:His.
      * destruct (IH st') as (kept & Hplan & Hsub). exists kept.
        split; [by eapply outcome.planning_omitted|].
        rewrite ?fmap_cons. by apply sublist_cons.
      * exists []. split; [by eapply outcome.planning_aborted|].
        apply sublist_nil_l.
    + destruct (outcome.Shim (outcome.state st')) as [shim|] eqn:Hshim.
      * destruct (IH (outcome.append_op st' shim op')) as (kept & Hplan & Hsub).
        exists (op' :: kept). split; [by eapply outcome.planning_kept|].
        rewrite ?fmap_cons. csimpl.
        rewrite (toSystem_kind _ _ _ _ _ Hop). by apply sublist_skip.
      * exists []. split; [by eapply outcome.planning_no_shim|].
        apply sublist_nil_l.
    + exists []. split; [by eapply outcome.planning_panicked|].
      apply sublist_nil_l.
Qed.

(** A run that ends well has appended the kept ops to the transmitted list. *)
Lemma planning_Ops ops st kept st' :
  leaves_Shim extern_toSystem →
  outcome.planning extern_toSystem ops st kept (Returned (st', None)) →
  ∀ shim l,
    outcome.Shim (outcome.state st) = Some shim →
    outcome.Ops shim = Some l →
    ∃ shim', outcome.Shim (outcome.state st') = Some shim'
             ∧ outcome.Ops shim' = Some (l ++ kept).
Proof.
  intros Hleave Hplan. remember (Returned (st', None)) as r eqn:Hr.
  induction Hplan as [st|op ops st op' st1 shim1 kept r Hop Hshim1 _ IH
                      |op ops st op' st1 err kept r Hop His _ IH
                      |op ops st op' st1 err Hop His
                      |op ops st msg Hop
                      |op ops st op' st1 Hop Hshim1];
    intros shim l Hshim Hl; try discriminate Hr.
  - injection Hr as <-. exists shim. by rewrite app_nil_r.
  - rewrite (toSystem_Shim _ _ _ _ _ Hleave Hop), Hshim in Hshim1.
    injection Hshim1 as <-.
    destruct (IH Hr (outcome.set_Ops shim (Some (default [] (outcome.Ops shim) ++ [op'])))
                (l ++ [op'])) as (shim' & Hs' & Ho').
    + reflexivity.
    + simpl. by rewrite Hl.
    + exists shim'. split; [done|]. by rewrite Ho', <- app_assoc.
  - apply (IH Hr shim l); [|done].
    by rewrite (toSystem_Shim _ _ _ _ _ Hleave Hop).
Qed.

(** The cgroup op of a container without a cgroup section is not enabled. *)
Lemma spCgroupOp_not_enabled Path (st : outcome.outcomeStateSys H S X P) container :
  outcome.Container (outcome.state st) = Some container →
  hst.Cgroup container = None →
  outcome.spCgroupOp_toSystem Path st
  = Returned (outcome.spCgroupOp Path, st, Some (Sentinel errNotEnabled)).
Proof. intros Hc Hg. unfold outcome.spCgroupOp_toSystem. by rewrite Hc, Hg. Qed.

(** C7.  From a state whose op list is still unset, [toSystem] invokes the
    ops in the fixed order params, cgroup, runtime, tmpdir, account, wayland,
    x11, pulse, dbus, filesystem; an op that returns the not-enabled error
    (as the cgroup op does without a cgroup section) is passed over, any
    other error ends planning and is returned, and the transmitted list
    holds the remaining ops in their order. *)
Theorem toSystem_planning (st : outcome.outcomeStateSys H S X P)
  (shim : outcome.shimParams X) :
  outcome.Shim (outcome.state st) = Some shim →
  outcome.Ops shim = None →
  ∃ kept,
    outcome.planning extern_toSystem (outcome.toSystem_ops zero)
      (outcome.set_state st
         (outcome.set_Shim (outcome.state st)
            (Some (outcome.set_Ops shim (Some [])))))
      kept (outcome.toSystem extern_toSystem zero st)
    ∧ outcome.kind <$> outcome.toSystem_ops zero = planner_order
    ∧ outcome.kind <$> kept `sublist_of` planner_order
    ∧ (leaves_Shim extern_toSystem →
       ∀ st', outcome.toSystem extern_toSystem zero st = Returned (st', None) →
         ∃ shim', outcome.Shim (outcome.state st') = Some shim'
                  ∧ outcome.Ops shim' = Some kept)
    ∧ (∀ Path st0 container,
         outcome.Container (outcome.state st0) = Some container →
         hst.Cgroup container = None →
         outcome.outcomeOp_toSystem extern_toSystem (outcome.spCgroupOp Path) st0
         = Returned (outcome.spCgroupOp Path, st0, Some (Sentinel errNotEnabled))
         ∧ errors_Is (Sentinel errNotEnabled) (IsSentinel errNotEnabled) = true).
Proof.
  intros Hshim Hops.
  destruct (toSystem_range_planning (outcome.toSystem_ops zero)
              (outcome.set_state st
                 (outcome.set_Shim (outcome.state st)
                    (Some (outcome.set_Ops shim (Some []))))))
    as (kept & Hplan & Hsub).
  assert (Hto : outcome.toSystem extern_toSystem zero st
                = outcome.toSystem_range extern_toSystem (outcome.toSystem_ops zero)
                    (outcome.set_state st
                       (outcome.set_Shim (outcome.state st)
                          (Some (outcome.set_Ops shim (Some [])))))).
  { unfold outcome.toSystem. rewrite Hshim, Hops. reflexivity. }
  exists kept. rewrite Hto. split; [exact Hplan|]. split; [reflexivity|].
  split; [exact Hsub|]. split.
  - intros Hleave st' Hst'. rewrite Hst' in Hplan.
    apply (planning_Ops _ _ _ _ Hleave Hplan (outcome.set_Ops shim (Some [])) []);
      reflexivity.
  - intros Path st0 container Hc Hg. split; [|reflexivity].
    simpl. by apply (spCgroupOp_not_enabled Path st0 container).
Qed.

End Planner.

(** ** Runs on the small host *)

(** The scenario of [TestCgroupOp]: after commit the controller files hold
    the limits, after revert the host is as it was. *)
Example cgroup_lifecycle :
  system.host lifecycle_applied.1.2
  = lifecycle_host ++ [ ("/tmp/hakurei-1", None); ("/tmp/hakurei-1/instance", None);
                        ("/tmp/hakurei-1/instance/cpu.max", Some "50000 100000");
                        ("/tmp/hakurei-1/instance/memory.max", Some "2048");
                        ("/tmp/hakurei-1/instance/pids.max", Some "16") ]
  ∧ ∃ sys w, system.Revert tmpfs.k committed_transaction None lifecycle_applied.1.2
             = Returned (sys, w, None)
             ∧ system.host w = lifecycle_host.
Proof. split; [reflexivity|]. eexists _, _. split; vm_compute; reflexivity. Qed.

Lemma Commit_rollback_witness :
  ∃ sys w,
    system.Commit tmpfs.k tmpfs.Quote faulty_transaction (tmpfs.world0 lifecycle_host)
    = Returned (sys, w, Some escapes_slice).
Proof.
  destruct (Commit_rollback tmpfs.k tmpfs.Quote faulty_transaction
              (tmpfs.world0 lifecycle_host) lifecycle_applied.1.2
              (system.verbosef "configuring cgroup %q" [system.LStr "/etc"]
                 lifecycle_applied.1.2)
              [system.OpCgroup lifecycle_op] [system.OpCgroup lifecycle_applied.1.1] []
              (system.OpCgroup escaping_op) (system.OpCgroup escaping_op) escapes_slice)
    as (w3 & errs & _ & Hcommit & _).
  - reflexivity.
  - reflexivity.
  - eapply applied_cons; [vm_compute; reflexivity|apply applied_nil].
  - vm_compute. reflexivity.
  - apply cgroupOp_reports_own_tag.
  - eexists _, _. exact Hcommit.
Defined.

(** The rollback of the faulty transaction leaves the host as it was. *)
Example rollback_restores_host :
  ∃ sys w,
    system.Commit tmpfs.k tmpfs.Quote faulty_transaction (tmpfs.world0 lifecycle_host)
    = Returned (sys, w, Some escapes_slice)
    ∧ system.host w = lifecycle_host.
Proof. eexists _, _. split; vm_compute; reflexivity. Qed.

Lemma Revert_criteria_witness :
  ∃ w errs,
    system.Revert tmpfs.k committed_transaction (Some system.User) lifecycle_applied.1.2
    = Returned ({| system.uid := 48879;
                   system.ops := [system.OpCgroup lifecycle_applied.1.1];
                   system.committed := true; system.reverted := true |},
                w, errors_Join errs).
Proof.
  destruct (Revert_criteria tmpfs.k committed_transaction system.User
              lifecycle_applied.1.2) as (w & errs & _ & Hrevert).
  - reflexivity.
  - repeat constructor. apply cgroupOp_honours_criteria.
  - exists w, errs. exact Hrevert.
Defined.

(** Under the criteria [User] the cgroup op, of type [Process], is skipped
    and its directories and files stay. *)
Example Revert_User_skips_cgroup :
  ∃ sys w,
    system.Revert tmpfs.k committed_transaction (Some system.User) lifecycle_applied.1.2
    = Returned (sys, w, None)
    ∧ system.host w = system.host lifecycle_applied.1.2
    ∧ system.msgs w
      = system.msgs lifecycle_applied.1.2
        ++ [system.Verbosef "skipping revert for cgroup %q"
              [system.LStr "/tmp/hakurei-1/instance"]].
Proof. eexists _, _. repeat split; vm_compute; reflexivity. Qed.

Lemma toSystem_planning_witness :
  ∃ kept,
    outcome.planning idle_toSystem (outcome.toSystem_ops tt)
      (outcome.set_state example_state
         (outcome.set_Shim (outcome.state example_state)
            (Some (outcome.set_Ops example_shim (Some [])))))
      kept (outcome.toSystem idle_toSystem tt example_state)
    ∧ outcome.kind <$> kept `sublist_of` planner_order.
Proof.
  destruct (toSystem_planning idle_toSystem tt example_state example_shim eq_refl eq_refl)
    as (kept & Hplan & _ & Hsub & _).
  exists kept. split; [exact Hplan|exact Hsub].
Defined.

(** Without a cgroup section and without enablements the transmitted list
    holds the params, runtime, tmpdir, account and filesystem ops. *)
Example toSystem_transmitted :
  ∃ st' shim',
    outcome.toSystem idle_toSystem tt example_state = Returned (st', None)
    ∧ outcome.Shim (outcome.state st') = Some shim'
    ∧ outcome.kind <$> default [] (outcome.Ops shim')
      = [outcome.KParams; outcome.KRuntime; outcome.KTmpdir; outcome.KAccount;
         outcome.KFilesystem].
Proof. eexists _, _. repeat split; vm_compute; reflexivity. Qed.

(** * More properties *)

(** ** String forms *)

Lemma Flags_String_S fuel flags :
  Flags_String (S fuel) flags
  = match Flags_name flags with
    | Some name => Some name
    | None =>
        match Flags_String_loop (Flags_String fuel) fuel flags 1 [] with
        | None => None
        | Some [] => Some "none"
        | Some s => Some (String.concat ", " s)
        end
    end.
Proof. done. Qed.

Lemma Flags_name_names flags name :
  Flags_name flags = Some name → flag_names flags = [name].
Proof.
  unfold Flags_name.
  repeat match goal with
         | |- context [flags =? ?f] =>
             destruct (Z.eqb_spec flags f) as [->|_];
             [intros [= <-]; vm_compute; reflexivity|]
         end.
  done.
Qed.

(** The loop visits the bits below [fMax] in turn, whatever it starts
    from. *)
Lemma Flags_String_loop_table rec flags (tbl : list (hst.Flags * string)) :
  ∀ steps f s,
    (length tbl < steps)%nat →
    0 <= f →
    (∀ i e, tbl !! i = Some e →
            e.1 = Z.shiftl f (Z.of_nat i) ∧ e.1 < hst.fMax ∧ rec e.1 = Some e.2) →
    hst.fMax <= Z.shiftl f (Z.of_nat (length tbl)) →
    Flags_String_loop rec steps flags f s
    = Some (s ++ omap (fun e : hst.Flags * string =>
                         if hst.has_flag flags e.1 then Some e.2 else None) tbl).
Proof.
  induction tbl as [|e tbl IH]; intros steps f s Hsteps Hf Htbl Hend;
    (destruct steps as [|steps]; [simpl in Hsteps; lia|]).
  - simpl in Hend. rewrite Z.shiftl_0_r in Hend.
    simpl. destruct (Z.ltb_spec f hst.fMax) as [Hlt|_]; [by apply Z.lt_nge in Hlt|].
    by rewrite app_nil_r.
  - destruct (Htbl 0%nat e eq_refl) as (He & Hlt & Hrec).
    rewrite Z.shiftl_0_r in He. subst f. destruct e as [f name].
    cbn [fst snd] in Hf, Hlt, Hrec, Hend, Htbl.
    assert (Hnext : ∀ i : nat,
               Z.shiftl (Z.shiftl f 1) (Z.of_nat i) = Z.shiftl f (Z.of_nat (S i))).
    { intros i. rewrite Z.shiftl_shiftl by lia. f_equal. lia. }
    assert (IH' : ∀ s', Flags_String_loop rec steps flags (Z.shiftl f 1) s'
                        = Some (s' ++ omap (fun e : hst.Flags * string =>
                             if hst.has_flag flags e.1 then Some e.2 else None) tbl)).
    { intros s'. apply IH.
      - simpl in Hsteps. lia.
      - by apply Z.shiftl_nonneg.
      - intros i e' Hi. rewrite Hnext. by apply Htbl.
      - by rewrite Hnext. }
    apply Z.ltb_lt in Hlt.
    cbn [Flags_String_loop omap list_omap fst snd]. rewrite Hlt.
    destruct (hst.has_flag flags f).
    + by rewrite Hrec, IH', <- app_assoc.
    + by rewrite IH'.
Qed.

(** X1.  [Flags.String] returns, with enough fuel, "none" when no defined bit
    is set and otherwise the names of the set bits, in the order of the bits,
    separated by a comma and a space; bits that are not defined are
    ignored. *)
Theorem Flags_String_names (fuel : nat) (flags : hst.Flags) :
  (13 <= fuel)%nat →
  Flags_String fuel flags
  = Some (match flag_names flags with
          | [] => "none"
          | names => String.concat ", " names
          end).
Proof.
  intros Hfuel.
  do 2 (destruct fuel as [|fuel]; [lia|]).
  rewrite Flags_String_S.
  destruct (Flags_name flags) as [name|] eqn:Hname.
  - by rewrite (Flags_name_names _ _ Hname).
  - unfold flag_names.
    rewrite (Flags_String_loop_table _ _ Flags_table _ 1 []).
    + rewrite app_nil_l. by destruct (omap _ _).
    + simpl. lia.
    + lia.
    + intros i e Hi.
      do 11 (destruct i as [|i]; [injection Hi as <-; by rewrite Flags_String_S|]).
      done.
    + by vm_compute.
Qed.

Lemma Flags_String_names_witness :
  Flags_String 13 (Z.lor hst.FTty hst.FDevel) = Some "devel, tty".
Proof. by rewrite (Flags_String_names 13 _ (le_n 13)). Defined.

(** X2.  The string form of an extra permission entry with a path is the
    three permission characters r, w and x (a dash for each one unset), a
    plus sign when the path is ensured, a colon and the pathname; two entries
    with the same string form are the same entry. *)
Theorem ExtraPermConfig_String_injective (e1 e2 : hst.ExtraPermConfig) (p : check.Absolute) :
  hst.ExtraPerm_Path e1 = Some p →
  ExtraPermConfig_String (Some e1)
  = String (if hst.Read e1 then "r" else "-")
      (String (if hst.Write e1 then "w" else "-")
         (String (if hst.Execute e1 then "x" else "-")
            ((if hst.Ensure e1 then "+:" else ":") +:+ check.pathname p)))
  ∧ (ExtraPermConfig_String (Some e1) = ExtraPermConfig_String (Some e2) → e1 = e2).
Proof.
  intros Hp1.
  assert (Hform : ∀ e q, hst.ExtraPerm_Path e = Some q →
            ExtraPermConfig_String (Some e)
            = String (if hst.Read e then "r" else "-")
                (String (if hst.Write e then "w" else "-")
                   (String (if hst.Execute e then "x" else "-")
                      ((if hst.Ensure e then "+:" else ":") +:+ check.pathname q)))).
  { intros [ensure path read write execute] q Hq. simpl in Hq. subst path.
    unfold ExtraPermConfig_String. cbn [hst.ExtraPerm_Path hst.Ensure hst.Read
      hst.Write hst.Execute].
    by destruct ensure, read, write, execute. }
  split; [by apply Hform|].
  rewrite (Hform e1 p Hp1).
  destruct (hst.ExtraPerm_Path e2) as [q|] eqn:Hp2.
  - rewrite (Hform e2 q Hp2).
    destruct e1 as [n1 ? r1 w1 x1], e2 as [n2 ? r2 w2 x2], p as [p], q as [q].
    simpl in *. subst.
    intros Heq.
    assert (r1 = r2) as -> by (destruct r1, r2; by inversion Heq).
    assert (w1 = w2) as -> by (destruct w1, w2; by inversion Heq).
    assert (x1 = x2) as -> by (destruct x1, x2; by inversion Heq).
    destruct n1, n2; simpl in Heq; by simplify_eq.
  - unfold ExtraPermConfig_String. rewrite Hp2.
    by destruct (hst.Read e1).
Qed.

Lemma ExtraPermConfig_String_injective_witness :
  ExtraPermConfig_String
    (Some {| hst.Ensure := true; hst.ExtraPerm_Path := Some (check.unsafeAbs "/srv/data");
             hst.Read := true; hst.Write := false; hst.Execute := true |})
  = "r-x+:/srv/data".
Proof.
  exact (proj1 (ExtraPermConfig_String_injective
                  {| hst.Ensure := true;
                     hst.ExtraPerm_Path := Some (check.unsafeAbs "/srv/data");
                     hst.Read := true; hst.Write := false; hst.Execute := true |}
                  {| hst.Ensure := false; hst.ExtraPerm_Path := None;
                     hst.Read := false; hst.Write := false; hst.Execute := false |}
                  (check.unsafeAbs "/srv/data") eq_refl)).
Defined.

(** ** More on validation *)

(** X3.  Once the identity, the bus sections, the three paths and the cgroup
    section have passed, [Config.Validate] turns on the names of the
    environment alone: it returns nil when no name holds an equals sign or a
    null byte, and otherwise the environment error, naming one such name of
    the map.  The values are not looked at. *)
Theorem Validate_environ {B : Type} (CI : option B → string → option error)
  (Q : string → string) (config : @hst.Config B) (container : hst.ContainerConfig) :
  hst.IdentityStart <= hst.Identity config <= hst.IdentityEnd →
  CI (hst.SessionBus config) "session" = None →
  CI (hst.SystemBus config) "system" = None →
  hst.Container config = Some container →
  hst.Home container ≠ None →
  hst.Shell container ≠ None →
  hst.Path container ≠ None →
  hst.validateCgroup container = None →
  match hst.Validate CI Q (Some config) with
  | None =>
      ∀ key value, default ∅ (hst.Env container) !! key = Some value →
                   bad_env_name key = false
  | Some err =>
      ∃ key value,
        default ∅ (hst.Env container) !! key = Some value
        ∧ bad_env_name key = true
        ∧ err = AppError "validate configuration" (Sentinel ErrEnviron)
                  ("invalid environment variable " +:+ Q key)
  end.
Proof.
  intros [Hlo Hhi] Hsession Hsystem Hcontainer Hhome Hshell Hpath Hcgroup.
  unfold hst.Validate.
  destruct (Z.ltb_spec (hst.Identity config) hst.IdentityStart); [lia|].
  destruct (Z.gtb_spec (hst.Identity config) hst.IdentityEnd); [lia|].
  cbn [orb]. rewrite Hsession, Hsystem, Hcontainer.
  rewrite !bool_decide_eq_false_2 by done. rewrite Hcgroup.
  unfold hst.bad_env_key.
  destruct (List.find _ _) as [[key value]|] eqn:Hfind; cbn [fmap option_fmap option_map fst].
  - apply find_some in Hfind as [Hin Hbad].
    exists key, value. split; [|done].
    by apply elem_of_map_to_list, list_elem_of_In.
  - intros key value Hkv.
    apply (find_none _ _ Hfind (key, value)).
    by apply list_elem_of_In, elem_of_map_to_list.
Qed.

Lemma Validate_environ_witness :
  match hst.Validate no_objection tmpfs.Quote
          (Some (example_config 1 (example_container 0 0 None))) with
  | None =>
      ∀ key value,
        default ∅ (hst.Env (example_container 0 0 None)) !! key = Some value →
        bad_env_name key = false
  | Some err =>
      ∃ key value,
        default ∅ (hst.Env (example_container 0 0 None)) !! key = Some value
        ∧ bad_env_name key = true
        ∧ err = AppError "validate configuration" (Sentinel ErrEnviron)
                  ("invalid environment variable " +:+ tmpfs.Quote key)
  end.
Proof.
  apply (Validate_environ no_objection tmpfs.Quote
           (example_config 1 (example_container 0 0 None))
           (example_container 0 0 None)).
  - unfold hst.IdentityStart, hst.IdentityEnd. simpl. lia.
  - reflexivity.
  - reflexivity.
  - reflexivity.
  - simpl. discriminate.
  - simpl. discriminate.
  - simpl. discriminate.
  - reflexivity.
Defined.

(** X4.  A cgroup section that [CgroupConfig.Validate] accepts has a pid
    limit that is not negative, and neither [SlicePath] nor [InstancePath]
    fails on it: the instance path is the slice path with the identity
    directory and the id appended.  A negative pid limit is refused with
    EINVAL whatever the slice. *)
Theorem CgroupConfig_Validate_resolves (c : hst.CgroupConfig) :
  (hst.CgroupConfig_Validate (Some c) = None →
   0 <= hst.LimitPids c
   ∧ ∃ slice, hst.SlicePath (Some c) = inl slice
              ∧ ∀ identity id,
                  hst.InstancePath (Some c) identity (Some id)
                  = inl (check.Append (check.Append slice ["hakurei-" +:+ identity])
                           [hst.ID_String id]))
  ∧ (hst.LimitPids c < 0 →
     hst.CgroupConfig_Validate (Some c)
     = Some (AppError "validate configuration" (Errno EINVAL)
               "cgroup limit pids cannot be negative")).
Proof.
  unfold hst.CgroupConfig_Validate, hst.SlicePath, hst.InstancePath, hst.instanceRoot.
  destruct (Z.ltb_spec (hst.LimitPids c) 0) as [Hneg|Hpos].
  - split; [done|]. done.
  - split; [|lia]. destruct (hst.slicePath c) as [slice|err]; [|done].
    intros _. split; [done|]. by exists slice.
Qed.

Lemma CgroupConfig_Validate_resolves_witness :
  0 <= hst.LimitPids default_cgroup
  ∧ ∃ slice, hst.SlicePath (Some default_cgroup) = inl slice
             ∧ ∀ identity id,
                 hst.InstancePath (Some default_cgroup) identity (Some id)
                 = inl (check.Append (check.Append slice ["hakurei-" +:+ identity])
                          [hst.ID_String id]).
Proof.
  apply (proj1 (CgroupConfig_Validate_resolves default_cgroup)). reflexivity.
Defined.

(** A path that slice resolution yields resolves to itself. *)
Lemma resolved_slice_fixed (c c' : hst.CgroupConfig) :
  hst.Slice c' = resolved_slice c → resolved_slice c' = resolved_slice c.
Proof.
  intros Hc'. destruct (resolved_slice_elems c) as (cs & Hcs & Hr).
  unfold resolved_slice at 1. rewrite Hc'.
  rewrite bool_decide_eq_false_2 by (by rewrite Hr).
  rewrite resolved_slice_abs. rewrite Hr at 1. by rewrite Clean_join.
Qed.

(** X5.  Slice resolution is idempotent: a cgroup section whose slice is the
    path that [slicePath] returned resolves to that same path. *)
Theorem slicePath_idempotent (c c' : hst.CgroupConfig) (a : check.Absolute) :
  hst.slicePath c = inl a →
  hst.Slice c' = check.pathname a →
  hst.slicePath c' = inl a.
Proof.
  rewrite !slicePath_resolved.
  destruct (strings_IndexByte_found (resolved_slice c) NUL) eqn:Hnul; [done|].
  intros [= <-]. cbn [check.pathname]. intros Hc'.
  by rewrite (resolved_slice_fixed c c' Hc'), Hnul.
Qed.

Lemma slicePath_idempotent_witness :
  hst.slicePath
    {| hst.Slice := "/sys/fs/cgroup/app.slice"; hst.LimitCPU := 0;
       hst.LimitMemory := 0; hst.LimitPids := 0 |}
  = inl (check.unsafeAbs "/sys/fs/cgroup/app.slice").
Proof.
  apply (slicePath_idempotent
           {| hst.Slice := "app.slice/./"; hst.LimitCPU := 0;
              hst.LimitMemory := 0; hst.LimitPids := 0 |}); reflexivity.
Defined.

(** ** More on the JSON form *)

Lemma list_to_map_sorted (m : gmap string string) :
  list_to_map (reverse (merge_sort hst.key_le (map_to_list m))) = m.
Proof.
  rewrite <- (list_to_map_to_list m) at 2.
  apply list_to_map_proper; [|by rewrite reverse_Permutation, merge_sort_Permutation].
  rewrite fmap_reverse, reverse_Permutation, merge_sort_Permutation.
  apply NoDup_fst_map_to_list.
Qed.

Lemma Env_coerce_valid (m : gmap string string) :
  map_Forall (fun k v => valid_text k ∧ valid_text v) m → Env_coerce m = m.
Proof.
  intros Hm. unfold Env_coerce. rewrite (right_id_L ∅ (∪)).
  rewrite <- (list_to_map_sorted m) at 2. f_equal. f_equal.
  rewrite <- (list_fmap_id (merge_sort hst.key_le (map_to_list m))) at 2.
  apply Forall_fmap_ext, Forall_forall. intros [k v] Hin.
  rewrite merge_sort_Permutation in Hin. apply elem_of_map_to_list in Hin.
  destruct (Hm k v Hin) as [Hk Hv]. simpl.
  by rewrite (valid_text_coerce k Hk), (valid_text_coerce v Hv).
Qed.

Lemma Absolute_coerce_valid (a : option check.Absolute) :
  valid_text_path a → Absolute_coerce a = a.
Proof.
  destruct a as [[p]|]; [|done]. simpl. intros Hp.
  by rewrite (valid_text_coerce p Hp).
Qed.

(** A config of valid text comes back as it is, but for its flags. *)
Lemma ContainerConfig_coerce_valid c f :
  ContainerConfig_text c →
  hst.set_Flags (ContainerConfig_coerce c) f = hst.set_Flags c f.
Proof.
  intros (Hhost & Huser & Henv & Hargs & Hshell & Hhome & Hpath & Hcgroup & _).
  destruct c as [hostname delay env fs username shell home path args flags cgroup].
  unfold ContainerConfig_coerce, hst.set_Flags. simpl in *.
  rewrite (valid_text_coerce _ Hhost), (valid_text_coerce _ Huser).
  rewrite !Absolute_coerce_valid by done.
  f_equal.
  - destruct env as [m|]; [|done]. simpl. by rewrite Env_coerce_valid.
  - destruct args as [l|]; [|done]. simpl in *. f_equal.
    rewrite <- (list_fmap_id l) at 2. apply Forall_fmap_ext.
    eapply Forall_impl; [exact Hargs|]. intros s Hs. by apply valid_text_coerce.
  - destruct cgroup as [[slice cpu memory pids]|]; [|done]. simpl in *.
    unfold CgroupConfig_coerce. simpl. by rewrite (valid_text_coerce _ Hcgroup).
Qed.

(** Only the defined bits of the flags come back. *)
Lemma flags_roundtrip_mask (f : hst.Flags) : flags_roundtrip f = Z.land f hst.FAll.
Proof.
  assert (Hbit : ∀ bit, Z.land hst.FAll bit = bit →
                        hst.has_flag f bit = hst.has_flag (Z.land f hst.FAll) bit).
  { intros bit Hbit. unfold hst.has_flag. by rewrite <- Z.land_assoc, Hbit. }
  rewrite <- (flags_roundtrip_defined (Z.land f hst.FAll))
    by (by rewrite <- Z.land_assoc, Z.land_diag).
  unfold flags_roundtrip. by rewrite <- !Hbit.
Qed.

(** X6.  For a container config whose strings are valid UTF-8 and that has
    no mount points, reading back the document [MarshalJSON] writes restores
    every field of the config as it was, whatever the receiver held before;
    of the flags the defined bits come back and the others are dropped. *)
Theorem JSON_roundtrip (c receiver : hst.ContainerConfig) :
  ContainerConfig_wf c →
  ContainerConfig_text c →
  ∃ doc, hst.MarshalJSON (Some c) = inl doc
         ∧ hst.UnmarshalJSON (Some receiver) doc
           = Returned (inl (hst.set_Flags c (Z.land (hst.Flags_ c) hst.FAll))).
Proof.
  intros Hwf Htext. eexists. split; [apply MarshalJSON_rows|].
  rewrite (UnmarshalJSON_written c receiver Hwf).
  by rewrite (ContainerConfig_coerce_valid c _ Htext), flags_roundtrip_mask.
Qed.

Lemma example_container_text d f g :
  valid_text (hst.Slice g) → ContainerConfig_text (example_container d f (Some g)).
Proof.
  intros Hg. unfold ContainerConfig_text, example_container. simpl.
  split; [reflexivity|]. split; [reflexivity|].
  split; [by apply map_Forall_singleton|]. split; [by repeat constructor|].
  split; [reflexivity|]. split; [reflexivity|]. split; [reflexivity|].
  split; [exact Hg|reflexivity].
Qed.

Lemma JSON_roundtrip_witness :
  ∃ doc,
    hst.MarshalJSON (Some (example_container 0 4095 (Some default_cgroup))) = inl doc
    ∧ hst.UnmarshalJSON (Some (example_container 7 0 None)) doc
      = Returned (inl (hst.set_Flags (example_container 0 4095 (Some default_cgroup))
                         (Z.land 4095 hst.FAll))).
Proof.
  apply (JSON_roundtrip (example_container 0 4095 (Some default_cgroup))).
  - apply example_container_wf. unfold min_int64, max_int64. lia.
  - by apply example_container_text.
Defined.

(** A hostname that is not valid UTF-8 does not come back: the byte 0xff is
    written, and read back, as U+FFFD. *)
Example JSON_roundtrip_invalid_text :
  let c := {| hst.Hostname := String (ascii_of_nat 255) ""; hst.WaitDelay := 0;
              hst.Env := None; hst.Filesystem := None; hst.Username := "";
              hst.Shell := None; hst.Home := None; hst.Path := None;
              hst.Args := None; hst.Flags_ := 0; hst.Cgroup := None |} in
  ∃ c', hst.UnmarshalJSON (Some c) (JObject (json_fields (container_rows c)))
        = Returned (inl c')
        ∧ hst.Hostname c' = utf8_RuneError.
Proof. eexists. split; [vm_compute; reflexivity|reflexivity]. Qed.

Lemma json_bool_total names key fields :
  Forall (fun v => v = JNull ∨ ∃ b, v = JBool b) (json_values names key fields) →
  ∃ b, json_bool names key fields = inl b.
Proof.
  unfold json_bool, json_decode. generalize false.
  induction (json_values names key fields) as [|v vs IH]; intros b0 Hvs;
    [by exists b0|].
  apply Forall_cons in Hvs as [[->|[b ->]] Hvs]; simpl; by apply IH.
Qed.

(** X7.  [UnmarshalJSON] dereferences a nil pointer, and so panics instead of
    returning an error, on the document null and on every object in which no
    key stands for a field of the embedded struct, by its name or by a name
    that is the same under case folding (the empty object among them), while
    the values it gives for the flag fields, if any, are booleans or
    null. *)
Theorem UnmarshalJSON_nil_dereference (receiver : hst.ContainerConfig) (data : json) :
  data = JNull
  ∨ (∃ fields,
       data = JObject fields
       ∧ (∀ tag, tag ∈ hst.ContainerConfigF_tags →
            json_values hst.containerConfigJSON_names tag fields = [])
       ∧ (∀ key bit, (key, bit) ∈ flag_tags →
            Forall (fun v => v = JNull ∨ ∃ b, v = JBool b)
              (json_values hst.containerConfigJSON_names key fields))) →
  hst.UnmarshalJSON (Some receiver) data
  = Panicked "invalid memory address or nil pointer dereference".
Proof.
  intros [->|(fields & -> & Hnone & Hflags)]; [done|].
  unfold hst.UnmarshalJSON, hst.json_Unmarshal. cbv zeta.
  assert (existsb (fun tag => negb (bool_decide
                     (json_values hst.containerConfigJSON_names tag fields = [])))
            hst.ContainerConfigF_tags = false) as ->.
  { apply not_true_is_false. intros (tag & Hin & Hsome)%existsb_exists.
    apply list_elem_of_In in Hin.
    by rewrite (Hnone tag Hin), bool_decide_eq_true_2 in Hsome. }
  destruct (json_bool_total _ _ _
              (Hflags "seccomp_compat" hst.FSeccompCompat ltac:(find_row))) as [b1 ->].
  destruct (json_bool_total _ _ _
              (Hflags "devel" hst.FDevel ltac:(find_row))) as [b2 ->].
  destruct (json_bool_total _ _ _
              (Hflags "userns" hst.FUserns ltac:(find_row))) as [b3 ->].
  destruct (json_bool_total _ _ _
              (Hflags "host_net" hst.FHostNet ltac:(find_row))) as [b4 ->].
  destruct (json_bool_total _ _ _
              (Hflags "host_abstract" hst.FHostAbstract ltac:(find_row))) as [b5 ->].
  destruct (json_bool_total _ _ _
              (Hflags "tty" hst.FTty ltac:(find_row))) as [b6 ->].
  destruct (json_bool_total _ _ _
              (Hflags "multiarch" hst.FMultiarch ltac:(find_row))) as [b7 ->].
  destruct (json_bool_total _ _ _
              (Hflags "map_real_uid" hst.FMapRealUID ltac:(find_row))) as [b8 ->].
  destruct (json_bool_total _ _ _
              (Hflags "device" hst.FDevice ltac:(find_row))) as [b9 ->].
  destruct (json_bool_total _ _ _
              (Hflags "share_runtime" hst.FShareRuntime ltac:(find_row))) as [b10 ->].
  destruct (json_bool_total _ _ _
              (Hflags "share_tmpdir" hst.FShareTmpdir ltac:(find_row))) as [b11 ->].
  done.
Qed.

Lemma UnmarshalJSON_nil_dereference_witness :
  hst.UnmarshalJSON (Some (example_container 0 0 None))
    (JObject [("Devel", JBool true); ("devel", JNull)])
  = Panicked "invalid memory address or nil pointer dereference".
Proof.
  apply UnmarshalJSON_nil_dereference. right.
  exists [("Devel", JBool true); ("devel", JNull)].
  split; [reflexivity|]. split.
  - intros tag Htag. unfold hst.ContainerConfigF_tags in Htag.
    repeat (apply elem_of_cons in Htag as [->|Htag]; [reflexivity|]).
    by apply elem_of_nil in Htag.
  - intros key bit Hin. unfold flag_tags in Hin.
    repeat (apply elem_of_cons in Hin as [[= -> ->]|Hin];
            [vm_compute;
             repeat (apply Forall_cons; split; [first [by left|right; by eexists]|]);
             by apply Forall_nil|]).
    by apply elem_of_nil in Hin.
Defined.

(** A key that is the name of a field in another case stands for the field:
    the embedded struct is allocated and [UnmarshalJSON] returns, and a flag
    named in upper case is set. *)
Example UnmarshalJSON_folded_keys :
  (∃ c', hst.UnmarshalJSON (Some (example_container 0 0 None))
           (JObject [("Hostname", JString "x")]) = Returned (inl c')
         ∧ hst.Hostname c' = "x")
  ∧ (∃ c', hst.UnmarshalJSON (Some (example_container 0 0 None))
             (JObject [("env", JNull); ("DEVEL", JBool true)]) = Returned (inl c')
           ∧ hst.Flags_ c' = hst.FDevel).
Proof.
  split; (eexists; split; [vm_compute; reflexivity|reflexivity]).
Qed.

(** ** More on the cgroup op *)

Section CgroupMore.

Context {H : Type} (k : system.syscalls H) (Q : string → string).

Lemma extends_refl c : extends c c.
Proof. by repeat split. Qed.

Lemma extends_trans c1 c2 c3 : extends c1 c2 → extends c2 c3 → extends c1 c3.
Proof.
  intros (? & ? & ? & ? & ?) (? & ? & ? & ? & ?).
  repeat split; try congruence; by etrans.
Qed.

Lemma extends_add_created c dir : extends c (system.add_created c dir).
Proof. repeat split; try done. by apply prefix_app_r. Qed.

Lemma extends_add_file c file : extends c (system.add_file c file).
Proof. repeat split; try done. by apply prefix_app_r. Qed.

Lemma ensurePath_range_extends parts : ∀ n i cur c w,
  extends c (system.ensurePath_range k Q n i parts cur c w).1.1.
Proof.
  induction parts as [|part rest IH]; intros n i cur c w; simpl.
  { apply extends_refl. }
  case_bool_decide; [apply IH|].
  destruct (system.on_host _ w) as [w1 [err|]].
  - destruct (errors_Is err IsErrExist); [|apply extends_refl].
    case_bool_decide; [apply extends_refl|apply IH].
  - eapply extends_trans; [apply extends_add_created|apply IH].
Qed.

Lemma ensurePath_range_files parts : ∀ n i cur c w,
  system.files (system.ensurePath_range k Q n i parts cur c w).1.1 = system.files c.
Proof.
  induction parts as [|part rest IH]; intros n i cur c w; simpl; [done|].
  case_bool_decide; [apply IH|].
  destruct (system.on_host _ w) as [w1 [err|]].
  - destruct (errors_Is err IsErrExist); [|done].
    case_bool_decide; [done|apply IH].
  - by rewrite IH.
Qed.

Lemma ensurePath_extends c w : extends c (system.ensurePath k Q c w).1.1.
Proof.
  unfold system.ensurePath. case_bool_decide; [apply extends_refl|].
  apply ensurePath_range_extends.
Qed.

Lemma writeControllerFile_extends name value c w :
  extends c (system.writeControllerFile k name value c w).1.1.
Proof.
  unfold system.writeControllerFile.
  destruct (system.on_host _ w) as [w1 [err|]];
    [apply extends_refl|apply extends_add_file].
Qed.

Lemma applyLimits_extends c w : extends c (system.applyLimits k c w).1.1.
Proof.
  unfold system.applyLimits.
  assert (Hstep : ∀ (b : bool) name value c w,
            extends c (if b then system.writeControllerFile k name value c w
                       else (c, w, None)).1.1).
  { intros [] ????; [apply writeControllerFile_extends|apply extends_refl]. }
  pose proof (Hstep (system.CPU (system.limits c) >? 0) "cpu.max"
                (pretty (system.CPU (system.limits c)) +:+ " 100000") c w) as H1.
  destruct (if system.CPU (system.limits c) >? 0 then _ else _) as [[c1 w1] [e1|]];
    [done|].
  pose proof (Hstep (system.Memory (system.limits c1) >? 0) "memory.max"
                (pretty (system.Memory (system.limits c1))) c1 w1) as H2.
  destruct (if system.Memory (system.limits c1) >? 0 then _ else _)
    as [[c2 w2] [e2|]]; [by eapply extends_trans|].
  eapply extends_trans; [exact H1|]. eapply extends_trans; [exact H2|].
  apply Hstep.
Qed.

(** X8.  Whatever [cgroupOp.apply] meets, the op keeps its slice, its target
    and its limits, so [Is] still identifies it, and what it had recorded as
    created or written is kept, new records being added behind. *)
Theorem cgroupOp_apply_extends (c : system.cgroupOp) (w : system.world H) :
  extends c (system.cgroupOp_apply k Q c w).1.1
  ∧ system.cgroupOp_Is (system.cgroupOp_apply k Q c w).1.1 c = true.
Proof.
  assert (Hext : extends c (system.cgroupOp_apply k Q c w).1.1).
  { unfold system.cgroupOp_apply.
    destruct (negb _); [apply extends_refl|].
    destruct (system.stat k _ _); [apply extends_refl|].
    pose proof (ensurePath_extends c
                  (system.verbosef "configuring cgroup %q" [system.LStr (system.path c)] w))
      as H1.
    destruct (system.ensurePath k Q c _) as [[c1 w1] [e1|]]; [done|].
    eapply extends_trans; [exact H1|apply applyLimits_extends]. }
  split; [done|]. destruct Hext as (Hb & Hp & Hl & _).
  unfold system.cgroupOp_Is. rewrite Hb, Hp, Hl, !bool_decide_eq_true_2, !Z.eqb_refl by done.
  done.
Qed.

(** X9.  [cgroupOp.apply] fails without calling [mkdir] or writing a file,
    leaving the host and the op as they were, when the target does not start
    with the slice, when the slice cannot be examined, and when the target is
    the slice itself, with or without a trailing separator. *)
Theorem cgroupOp_apply_untouched (c : system.cgroupOp) (w : system.world H) :
  strings_HasPrefix (system.path c) (system.base c) = false
  ∨ system.stat k (system.base c) (system.host w) ≠ None
  ∨ system.path c = system.base c
  ∨ system.path c = system.base c +:+ "/" →
  ∃ cause message,
    system.cgroupOp_apply k Q c w
    = (c, system.verbosef "configuring cgroup %q" [system.LStr (system.path c)] w,
       Some (OpError "cgroup" cause message false)).
Proof.
  intros Hcase. unfold system.cgroupOp_apply.
  destruct (strings_HasPrefix (system.path c) (system.base c)) eqn:Hprefix; simpl.
  2:{ by eexists _, _. }
  cbn [system.host system.verbosef].
  destruct (system.stat k (system.base c) (system.host w)) as [err|] eqn:Hstat.
  { by eexists _, _. }
  destruct Hcase as [?|[?|Hsame]]; [done..|].
  assert (strings_TrimPrefix (strings_TrimPrefix (system.path c) (system.base c)) "/" = "")
    as Hrel.
  { assert (Hdrop : ∀ p, drop_prefix p p = Some "").
    { induction p as [|a p IH]; [done|]. simpl. by rewrite Ascii.eqb_refl. }
    assert (Hdrop' : ∀ p s, drop_prefix p (p +:+ s) = Some s).
    { induction p as [|a p IH]; intros s; [done|]. simpl. by rewrite Ascii.eqb_refl. }
    unfold strings_TrimPrefix.
    destruct Hsame as [->| ->]; [by rewrite Hdrop|by rewrite Hdrop']. }
  unfold system.ensurePath. rewrite Hrel. rewrite bool_decide_eq_true_2 by done.
  by eexists _, _.
Qed.

End CgroupMore.

Lemma cgroupOp_apply_untouched_witness :
  ∃ cause message,
    system.cgroupOp_apply tmpfs.k tmpfs.Quote
      {| system.base := "/tmp"; system.path := "/tmp/";
         system.limits := {| system.CPU := 1; system.Memory := 0; system.Pids := 0 |};
         system.created := []; system.files := [] |} (tmpfs.world0 lifecycle_host)
    = ({| system.base := "/tmp"; system.path := "/tmp/";
          system.limits := {| system.CPU := 1; system.Memory := 0; system.Pids := 0 |};
          system.created := []; system.files := [] |},
       system.verbosef "configuring cgroup %q" [system.LStr "/tmp/"]
         (tmpfs.world0 lifecycle_host),
       Some (OpError "cgroup" cause message false)).
Proof.
  apply (cgroupOp_apply_untouched tmpfs.k tmpfs.Quote
           {| system.base := "/tmp"; system.path := "/tmp/";
              system.limits := {| system.CPU := 1; system.Memory := 0; system.Pids := 0 |};
              system.created := []; system.files := [] |}).
  right. right. right. reflexivity.
Defined.


Section CgroupRevert.

Context {H : Type} (k : system.syscalls H).

Lemma revert_created_reports dirs : ∀ errs w,
  ∃ new, (system.revert_created k dirs errs w).2 = errs ++ new
         ∧ Forall revert_report new
         ∧ (length new <= length dirs)%nat
         ∧ ((∀ dir h, tolerated (system.remove k dir h).2 = true) → new = []).
Proof.
  induction dirs as [|dir rest IH]; intros errs w; simpl.
  { exists []. by rewrite app_nil_r. }
  unfold system.on_host.
  destruct (system.remove k dir (system.host w)) as [h [err|]] eqn:Hrm.
  - destruct (errors_Is err IsErrNotExist) eqn:Hgone;
      [|destruct (errors_Is err (IsErrno ENOTEMPTY)) eqn:Hbusy].
    + destruct (IH errs {| system.host := h; system.msgs := system.msgs w |})
        as (new & -> & ? & ? & ?).
      exists new. repeat split; try done. lia.
    + destruct (IH errs (system.verbosef "skipping busy cgroup path %q" [system.LStr dir]
                           {| system.host := h; system.msgs := system.msgs w |}))
        as (new & -> & ? & ? & ?).
      exists new. repeat split; try done. lia.
    + destruct (IH (errs ++ [system.newOpError "cgroup" err true])
                  {| system.host := h; system.msgs := system.msgs w |})
        as (new & -> & Hnew & Hlen & _).
      exists (system.newOpError "cgroup" err true :: new).
      rewrite <- app_assoc. repeat split; try done.
      * constructor; [by exists err|done].
      * simpl. lia.
      * intros Hall. specialize (Hall dir (system.host w)).
        rewrite Hrm in Hall. simpl in Hall. by rewrite Hgone, Hbusy in Hall.
  - destruct (IH errs {| system.host := h; system.msgs := system.msgs w |})
      as (new & -> & ? & ? & ?).
    exists new. repeat split; try done. lia.
Qed.

(** X10.  [cgroupOp.revert] reports nothing about the files: what it returns
    is nil, or the join of one error per directory whose removal failed for
    a reason other than the directory being gone or not empty, each wrapped
    as a revert error of the cgroup op.  On a host where every directory
    removal succeeds or fails in one of these two ways it returns nil, even
    if no file could be removed. *)
Theorem cgroupOp_revert_reports (c : system.cgroupOp) (ec : option system.Criteria)
  (w : system.world H) :
  match (system.cgroupOp_revert k c ec w).2 with
  | None => True
  | Some err =>
      ∃ errs, err = joinError errs ∧ errs ≠ []
              ∧ Forall revert_report errs
              ∧ (length errs <= length (system.created c))%nat
  end
  ∧ ((∀ dir h, tolerated (system.remove k dir h).2 = true) →
     (system.cgroupOp_revert k c ec w).2 = None).
Proof.
  unfold system.cgroupOp_revert.
  destruct (bool_decide (ec ≠ None) && negb (system.hasType ec system.Process)); [done|].
  destruct (revert_created_reports (rev (system.created c)) []
              (system.revert_files k (rev (system.files c)) w))
    as (new & Hnew & Hrep & Hlen & Hnone).
  destruct (system.revert_created k _ [] _) as [w' errs]. simpl in Hnew. subst errs.
  cbn [snd]. unfold errors_Join.
  assert (omap id (Some <$> new) = new) as ->.
  { induction new as [|e new IH]; [done|]. simpl. f_equal. apply IH.
    - by inversion Hrep.
    - simpl in Hlen. lia.
    - intros Hall. by specialize (Hnone Hall). }
  rewrite length_rev in Hlen. split.
  - destruct new as [|e new]; [done|]. by exists (e :: new).
  - intros Hall. by rewrite (Hnone Hall).
Qed.

End CgroupRevert.

(** ** The calls of the cgroup op, in order *)

Lemma join_cons e (cs : list string) :
  cs ≠ [] → join_slash (e :: cs) = e +:+ String slash (join_slash cs).
Proof. by destruct cs. Qed.

Lemma join_app (cs rel : list string) :
  cs ≠ [] → rel ≠ [] →
  join_slash (cs ++ rel) = join_slash cs +:+ String slash (join_slash rel).
Proof.
  intros Hcs Hrel. induction cs as [|c cs IH]; [done|].
  destruct cs as [|c' cs].
  - simpl app. by rewrite join_cons.
  - change ((c :: c' :: cs) ++ rel) with (c :: ((c' :: cs) ++ rel)).
    rewrite !join_cons by done. rewrite IH by done. by rewrite append_assoc'.
Qed.

Lemma drop_prefix_append p s : drop_prefix p (p +:+ s) = Some s.
Proof. induction p as [|a p IH]; [done|]. simpl. by rewrite Ascii.eqb_refl. Qed.

Lemma prefix_append p s : String.prefix p (p +:+ s) = true.
Proof.
  induction p as [|a p IH]; [by destruct s|]. simpl.
  destruct (ascii_dec a a); [done|congruence].
Qed.

Lemma regular_head e : regular e → drop_prefix "/" e = None.
Proof.
  intros (Hne & _ & _ & Hns). destruct e as [|a e]; [done|].
  unfold no_slash in Hns. simpl in Hns. apply orb_false_iff in Hns as [Ha _].
  cbn [drop_prefix]. destruct (Ascii.eqb_spec "/" a) as [<-|]; [|done].
  by rewrite Ascii.eqb_refl in Ha.
Qed.

(** The target beneath a slice, relative to the slice. *)
Lemma TrimPrefix_beneath (cs rel : list string) :
  Forall regular rel → rel ≠ [] →
  strings_TrimPrefix
    (strings_TrimPrefix (String slash (join_slash (cs ++ rel)))
       (String slash (join_slash cs))) "/"
  = join_slash rel.
Proof.
  intros Hrel Hne.
  assert (Hhead : drop_prefix "/" (join_slash rel) = None).
  { destruct rel as [|e rel]; [done|]. apply Forall_cons in Hrel as [He _].
    destruct rel as [|e' rel]; [by apply regular_head|].
    rewrite join_cons by done. pose proof (regular_head e He) as Hd.
    destruct He as (? & _). destruct e as [|a e]; [done|].
    rewrite append_cons. cbn [drop_prefix] in *.
    by destruct (Ascii.eqb "/" a). }
  destruct cs as [|c cs].
  - simpl app. change (String slash (join_slash [])) with "/".
    unfold strings_TrimPrefix at 2.
    change (String slash (join_slash rel)) with ("/" +:+ join_slash rel).
    rewrite drop_prefix_append. simpl default.
    unfold strings_TrimPrefix. by rewrite Hhead.
  - rewrite join_app by done.
    unfold strings_TrimPrefix at 2.
    change (String slash (?a +:+ ?b)) with (String slash a +:+ b).
    rewrite drop_prefix_append. simpl default.
    unfold strings_TrimPrefix.
    change (String slash (join_slash rel)) with ("/" +:+ join_slash rel).
    by rewrite drop_prefix_append.
Qed.

Lemma HasPrefix_beneath (cs rel : list string) :
  rel ≠ [] →
  strings_HasPrefix (String slash (join_slash (cs ++ rel))) (String slash (join_slash cs))
  = true.
Proof.
  intros Hne. unfold strings_HasPrefix. destruct cs as [|c cs].
  - simpl app. change (String slash (join_slash [])) with "/".
    change (String slash (join_slash rel)) with ("/" +:+ join_slash rel).
    apply prefix_append.
  - rewrite join_app by done.
    change (String slash (?a +:+ ?b)) with (String slash a +:+ b).
    apply prefix_append.
Qed.

Lemma Join_regular (cs : list string) e :
  Forall regular cs → regular e →
  filepath_Join [String slash (join_slash cs); e] = String slash (join_slash (cs ++ [e])).
Proof.
  intros Hcs He. pose proof (Append_regular cs e Hcs He) as Happ.
  unfold check.Append in Happ. cbn [check.pathname] in Happ. by injection Happ.
Qed.

Section CgroupJournal.

Variable stat_answer : journal.t → string → option error.
Variable answer : journal.t → journal.call → option error.
Variable Q : string → string.

Lemma ensurePath_range_journal (rel : list string) : ∀ n i cs c w,
  Forall regular cs → Forall regular rel → n = (i + length rel)%nat →
  ∃ m,
    (m <= length rel)%nat
    ∧ system.host (system.ensurePath_range (journal.k stat_answer answer) Q n i rel (String slash (join_slash cs)) c w).1.2
    = system.host w ++ take m ((fun dir => journal.Mkdir dir 493) <$> descend cs rel)
    ∧ ((system.ensurePath_range (journal.k stat_answer answer) Q n i rel (String slash (join_slash cs)) c w).2 = None →
       m = length rel
       ∧ (rel ≠ [] →
          String slash (join_slash (cs ++ rel))
          ∈ system.created
              (system.ensurePath_range (journal.k stat_answer answer) Q n i rel (String slash (join_slash cs)) c w).1.1)).
Proof.
  induction rel as [|e rel IH]; intros n i cs c w Hcs Hrel Hn.
  { exists 0%nat. simpl. by rewrite app_nil_r. }
  apply Forall_cons in Hrel as [He Hrel]. cbn [length].
  cbn [system.ensurePath_range descend fmap list_fmap].
  rewrite bool_decide_eq_false_2 by (by destruct He).
  rewrite (Join_regular cs e Hcs He).
  set (cur := String slash (join_slash (cs ++ [e]))).
  unfold system.on_host. cbn [system.mkdir journal.k journal.record].
  set (w1 := {| system.host := system.host w ++ [journal.Mkdir cur 493];
                system.msgs := system.msgs w |}).
  assert (Hcs' : Forall regular (cs ++ [e])) by (apply Forall_app; split; [done|by constructor]).
  assert (Hnext : ∀ c1,
            ∃ m,
              (m <= S (length rel))%nat
              ∧ system.host (system.ensurePath_range (journal.k stat_answer answer) Q n (S i) rel cur c1 w1).1.2
              = system.host w ++ take m (journal.Mkdir cur 493
                    :: ((fun dir => journal.Mkdir dir 493) <$> descend (cs ++ [e]) rel))
              ∧ ((system.ensurePath_range (journal.k stat_answer answer) Q n (S i) rel cur c1 w1).2 = None →
                 m = length (e :: rel)
                 ∧ (rel ≠ [] →
                    String slash (join_slash (cs ++ e :: rel))
                    ∈ system.created (system.ensurePath_range (journal.k stat_answer answer) Q n (S i) rel cur c1 w1).1.1))).
  { intros c1.
    destruct (IH n (S i) (cs ++ [e]) c1 w1 Hcs' Hrel) as (m & Hm & Hhost & Hok).
    { simpl in Hn. lia. }
    exists (S m). split; [lia|]. split.
    - etrans; [exact Hhost|]. unfold w1. cbn [system.host take]. by rewrite <- app_assoc.
    - intros Hnil. destruct (Hok Hnil) as [-> Hin]. split; [done|].
      intros Hne. rewrite <- app_assoc in Hin. by apply Hin. }
  destruct (answer (system.host w) (journal.Mkdir cur 493)) as [err|] eqn:Hanswer.
  - destruct (errors_Is err IsErrExist).
    + case_bool_decide as Hlast.
      * exists 1%nat. split; [lia|]. split; [done|]. done.
      * destruct (Hnext c) as (m & Hm & Hhost & Hok). exists m. split; [done|].
        split; [done|].
        intros Hnil. destruct (Hok Hnil) as [-> Hin]. split; [done|].
        intros _. apply Hin. intros ->. simpl in Hn. lia.
    + exists 1%nat. split; [lia|]. split; [done|]. done.
  - destruct (Hnext (system.add_created c cur)) as (m & Hm & Hhost & Hok).
    exists m. split; [done|]. split; [done|].
    intros Hnil. destruct (Hok Hnil) as [-> Hin]. split; [done|].
    intros _. destruct rel as [|e' rel]; [|by apply Hin].
    cbn [system.ensurePath_range system.created system.add_created fst].
    apply elem_of_app. right. by apply list_elem_of_here.
Qed.


Lemma writeControllerFile_journal name value c w (cs : list string) :
  Forall regular cs → regular name →
  system.path c = String slash (join_slash cs) →
  system.writeControllerFile (journal.k stat_answer answer) name value c w
  = let file := String slash (join_slash (cs ++ [name])) in
    let w1 := {| system.host := system.host w ++ [journal.WriteFile file value 420];
                 system.msgs := system.msgs w |} in
    match answer (system.host w) (journal.WriteFile file value 420) with
    | Some err => (c, w1, Some (system.newOpError "cgroup" err false))
    | None => (system.add_file c file, w1, None)
    end.
Proof.
  intros Hcs Hname Hpath. unfold system.writeControllerFile.
  rewrite Hpath, (Join_regular cs name Hcs Hname).
  unfold system.on_host. cbn [system.os_WriteFile journal.k journal.record].
  by destruct (answer _ _).
Qed.

Lemma controller_regular :
  regular "cpu.max" ∧ regular "memory.max" ∧ regular "pids.max".
Proof. by repeat split. Qed.

Lemma applyLimits_journal c w (cs : list string) :
  Forall regular cs →
  system.path c = String slash (join_slash cs) →
  ∃ m,
    system.host (system.applyLimits (journal.k stat_answer answer) c w).1.2
    = system.host w
      ++ take m ((fun file : string * string =>
                    journal.WriteFile (String slash (join_slash (cs ++ [file.1]))) file.2 420)
                   <$> limit_files (system.limits c))
    ∧ ((system.applyLimits (journal.k stat_answer answer) c w).2 = None →
       m = length (limit_files (system.limits c))
       ∧ system.files (system.applyLimits (journal.k stat_answer answer) c w).1.1
         = system.files c
           ++ ((fun file : string * string => String slash (join_slash (cs ++ [file.1])))
                 <$> limit_files (system.limits c))).
Proof.
  intros Hcs Hpath. destruct controller_regular as (Hcpu & Hmem & Hpids).
  unfold system.applyLimits, limit_files.
  destruct (system.CPU (system.limits c) >? 0);
    [rewrite (writeControllerFile_journal _ _ c w cs Hcs Hcpu Hpath); cbv zeta;
     destruct (answer _ _)|];
    cbn [system.limits system.add_file system.path];
    try (exists 1%nat; split; [done|done]).
  all: destruct (system.Memory (system.limits c) >? 0);
    [erewrite (writeControllerFile_journal _ _ _ _ cs Hcs Hmem) by exact Hpath; cbv zeta;
     destruct (answer _ _)|];
    cbn [system.limits system.add_file system.path].
  all: try (destruct (system.Pids (system.limits c) >? 0);
    [erewrite (writeControllerFile_journal _ _ _ _ cs Hcs Hpids) by exact Hpath; cbv zeta;
     destruct (answer _ _)|]).
  all: cbn [system.limits system.add_file system.path system.files system.host
            fst snd app fmap list_fmap length].
  all: first [ exists 0%nat; split; [by rewrite ?app_nil_r|];
               (intros; by rewrite ?app_nil_r) || done
             | exists 1%nat; split; [by rewrite <- ?app_assoc|];
               (intros; by rewrite <- ?app_assoc) || done
             | exists 2%nat; split; [by rewrite <- ?app_assoc|];
               (intros; by rewrite <- ?app_assoc) || done
             | exists 3%nat; split; [by rewrite <- ?app_assoc|];
               (intros; by rewrite <- ?app_assoc) || done ].
Qed.


(** X11.  For a slice and a target beneath it, both cleaned absolute paths,
    [cgroupOp.apply] calls the host in this order and makes no other call
    that changes it: [mkdir] with mode 0755 on each directory from the slice
    down to the target, then one write with mode 0644 per limit that is set,
    to cpu.max, memory.max and pids.max in the target.  It stops at the
    first failure (a directory other than the target that exists already is
    no failure); when it returns nil all of these calls were made, the
    target is among the directories it recorded as created, and the files it
    recorded are the ones written. *)
Theorem cgroupOp_apply_journal (c : system.cgroupOp) (w : system.world journal.t)
  (cs rel : list string) :
  Forall regular cs → Forall regular rel → rel ≠ [] →
  system.base c = String slash (join_slash cs) →
  system.path c = String slash (join_slash (cs ++ rel)) →
  ∃ m,
    system.host (system.cgroupOp_apply (journal.k stat_answer answer) Q c w).1.2
    = system.host w ++ take m (apply_plan cs rel (system.limits c))
    ∧ ((system.cgroupOp_apply (journal.k stat_answer answer) Q c w).2 = None →
       system.host (system.cgroupOp_apply (journal.k stat_answer answer) Q c w).1.2
       = system.host w ++ apply_plan cs rel (system.limits c)
       ∧ system.path c
         ∈ system.created (system.cgroupOp_apply (journal.k stat_answer answer) Q c w).1.1
       ∧ system.files (system.cgroupOp_apply (journal.k stat_answer answer) Q c w).1.1
         = system.files c
           ++ ((fun file : string * string =>
                  String slash (join_slash (cs ++ rel ++ [file.1])))
                 <$> limit_files (system.limits c))).
Proof.
  intros Hcs Hrel Hne Hbase Hpath.
  unfold system.cgroupOp_apply.
  rewrite Hbase, Hpath, (HasPrefix_beneath cs rel Hne). cbn [negb].
  set (w0 := system.verbosef _ _ w).
  destruct (system.stat _ _ _) as [err|].
  { exists 0%nat. cbn. by rewrite app_nil_r. }
  unfold system.ensurePath.
  rewrite Hbase, Hpath, (TrimPrefix_beneath cs rel Hrel Hne).
  rewrite bool_decide_eq_false_2.
  2:{ destruct rel as [|e rel]; [done|]. apply Forall_cons in Hrel as [(He & _) _].
      destruct rel; [done|]. rewrite join_cons by done. by destruct e. }
  rewrite (Split_join rel Hne (regular_no_slash rel Hrel)).
  destruct (ensurePath_range_journal rel (length rel) 0 cs c w0 Hcs Hrel eq_refl)
    as (m1 & Hm1 & Hhost1 & Hok1).
  pose proof (ensurePath_range_extends (journal.k stat_answer answer) Q rel
                (length rel) 0%nat (String slash (join_slash cs)) c w0) as Hext1.
  assert (Hlen : length ((fun dir => journal.Mkdir dir 493) <$> descend cs rel)
                 = length rel).
  { rewrite length_fmap. clear. revert cs.
    induction rel as [|e rel IH]; intros cs; [done|]. simpl. by rewrite IH. }
  pose proof (ensurePath_range_files (journal.k stat_answer answer) Q rel
                (length rel) 0%nat (String slash (join_slash cs)) c w0) as Hsame.
  destruct (system.ensurePath_range _ Q _ _ rel _ c w0) as [[c1 w1] [err1|]].
  { exists m1. split; [|done]. cbn [fst snd] in *. rewrite Hhost1. unfold apply_plan.
    rewrite take_app_le; [done|]. by rewrite Hlen. }
  cbn [fst snd] in *. destruct (Hok1 eq_refl) as [-> Hin1].
  destruct Hext1 as (Hbase1 & Hpath1 & Hlimits1 & Hcreated1 & Hfiles1).
  rewrite <- Hlen, firstn_all in Hhost1.
  assert (Hcs' : Forall regular (cs ++ rel)) by (by apply Forall_app).
  destruct (applyLimits_journal c1 w1 (cs ++ rel) Hcs' ltac:(congruence))
    as (m2 & Hhost2 & Hok2).
  pose proof (applyLimits_extends (journal.k stat_answer answer) c1 w1)
    as (_ & _ & _ & Hcreated2 & _).
  rewrite Hlimits1 in Hhost2, Hok2.
  assert (Hplan : apply_plan cs rel (system.limits c)
                  = ((fun dir => journal.Mkdir dir 493) <$> descend cs rel)
                    ++ ((fun file : string * string =>
                           journal.WriteFile
                             (String slash (join_slash ((cs ++ rel) ++ [file.1])))
                             file.2 420) <$> limit_files (system.limits c))).
  { unfold apply_plan. f_equal. apply list_fmap_ext. intros _ file _.
    by rewrite <- app_assoc. }
  exists (length ((fun dir => journal.Mkdir dir 493) <$> descend cs rel) + m2)%nat.
  rewrite Hplan, take_app_add. split.
  { rewrite Hhost2, Hhost1. subst w0. cbn [system.host system.verbosef].
    by rewrite <- app_assoc. }
  intros Hnil. destruct (Hok2 Hnil) as [-> Hfiles2]. split; [|split].
  - rewrite Hhost2, Hhost1. subst w0. cbn [system.host system.verbosef].
    rewrite <- app_assoc. do 2 f_equal. rewrite <- (length_fmap
      (fun file : string * string =>
         journal.WriteFile (String slash (join_slash ((cs ++ rel) ++ [file.1]))) file.2 420)).
    apply firstn_all.
  - destruct Hcreated2 as [more ->]. apply elem_of_app. left. by apply Hin1.
  - rewrite Hfiles2, Hsame. f_equal. apply list_fmap_ext. intros _ file _.
    by rewrite <- app_assoc.
Qed.

End CgroupJournal.

Lemma cgroupOp_apply_journal_witness :
  system.host
    (system.cgroupOp_apply (journal.k (fun _ _ => None) (fun _ _ => None)) tmpfs.Quote
       lifecycle_op {| system.host := []; system.msgs := [] |}).1.2
  = [ journal.Mkdir "/tmp/hakurei-1" 493;
      journal.Mkdir "/tmp/hakurei-1/instance" 493;
      journal.WriteFile "/tmp/hakurei-1/instance/cpu.max" "50000 100000" 420;
      journal.WriteFile "/tmp/hakurei-1/instance/memory.max" "2048" 420;
      journal.WriteFile "/tmp/hakurei-1/instance/pids.max" "16" 420 ].
Proof.
  destruct (cgroupOp_apply_journal (fun _ _ => None) (fun _ _ => None) tmpfs.Quote
              lifecycle_op {| system.host := []; system.msgs := [] |}
              ["tmp"] ["hakurei-1"; "instance"]
              ltac:(repeat constructor; done) ltac:(repeat constructor; done)
              ltac:(discriminate) eq_refl eq_refl) as (m & _ & Hok).
  destruct (Hok eq_refl) as (Hhost & _ & _). exact Hhost.
Defined.

Section RevertJournal.

Variable stat_answer : journal.t → string → option error.
Variable answer : journal.t → journal.call → option error.

Lemma revert_files_journal files : ∀ w,
  system.host (system.revert_files (journal.k stat_answer answer) files w)
  = system.host w ++ (journal.OsRemove <$> files).
Proof.
  induction files as [|file rest IH]; intros w; simpl.
  { by rewrite app_nil_r. }
  unfold system.on_host. cbn [system.os_Remove journal.k journal.record].
  rewrite IH. destruct (answer _ _) as [err|]; [destruct (errors_Is _ _)|];
    cbn [system.host system.verbosef]; by rewrite <- app_assoc.
Qed.

Lemma revert_created_journal dirs : ∀ errs w,
  system.host (system.revert_created (journal.k stat_answer answer) dirs errs w).1
  = system.host w ++ (journal.Remove <$> dirs).
Proof.
  induction dirs as [|dir rest IH]; intros errs w; simpl.
  { by rewrite app_nil_r. }
  unfold system.on_host. cbn [system.remove journal.k journal.record].
  destruct (answer _ _) as [err|];
    [destruct (errors_Is err IsErrNotExist);
     [|destruct (errors_Is err (IsErrno ENOTEMPTY))]|];
    rewrite IH; cbn [system.host system.verbosef]; by rewrite <- app_assoc.
Qed.

(** X12.  Unless the criteria exclude it, [cgroupOp.revert] calls the host
    like this whatever the answers are: it removes every file the op has
    recorded, the last written first, and then every directory the op has
    recorded as created, the last created (the deepest) first; it makes no
    other call that changes the host.  When the criteria exclude it, it makes
    none. *)
Theorem cgroupOp_revert_journal (c : system.cgroupOp) (ec : option system.Criteria)
  (w : system.world journal.t) :
  system.host (system.cgroupOp_revert (journal.k stat_answer answer) c ec w).1
  = if bool_decide (ec ≠ None) && negb (system.hasType ec system.Process)
    then system.host w
    else system.host w
         ++ (journal.OsRemove <$> rev (system.files c))
         ++ (journal.Remove <$> rev (system.created c)).
Proof.
  unfold system.cgroupOp_revert.
  destruct (bool_decide (ec ≠ None) && negb (system.hasType ec system.Process)); [done|].
  pose proof (revert_created_journal (rev (system.created c)) []
                (system.revert_files (journal.k stat_answer answer)
                   (rev (system.files c)) w)) as Hdirs.
  destruct (system.revert_created _ _ [] _) as [w' errs]. cbn [fst] in *.
  by rewrite Hdirs, revert_files_journal, <- app_assoc.
Qed.

End RevertJournal.

(** ** More on the outcome state and the planner *)

(** X13.  For a configuration that [Config.Validate] accepts,
    [newOutcomeState] dereferences no nil pointer: it returns a state that
    holds the container, the identity and the id it was given, shim
    parameters with a wait delay between zero and [WaitDelayMax] and no op
    list yet, and as mapped uid and gid those of the caller when the
    container sets [FMapRealUID] and the overflow ids otherwise. *)
Theorem Validate_newOutcomeState {X B P : Type} (CI : option B → string → option error)
  (Q : string → string) (k : outcome.dispatched P) (id : option hst.ID)
  (config : @hst.Config B) :
  hst.Validate CI Q (Some config) = None →
  ∃ container (st : outcome.outcomeState X P) (shim : outcome.shimParams X),
    hst.Container config = Some container
    ∧ outcome.newOutcomeState k id config = Returned st
    ∧ outcome.Container st = Some container
    ∧ outcome.ID st = id
    ∧ outcome.Identity st = hst.Identity config
    ∧ outcome.UserID st = outcome.MustID k
    ∧ outcome.Shim st = Some shim
    ∧ outcome.Ops shim = None
    ∧ outcome.PrivPID shim = outcome.getpid k
    ∧ 0 <= outcome.WaitDelay shim <= hst.WaitDelayMax
    ∧ (outcome.Mapuid st, outcome.Mapgid st)
      = if hst.has_flag (hst.Flags_ container) hst.FMapRealUID
        then (outcome.getuid k, outcome.getgid k)
        else (outcome.overflowUid k, outcome.overflowGid k).
Proof.
  intros Hvalid. apply Validate_accepts in Hvalid as (_ & container & Hplain & _).
  destruct Hplain as (_ & _ & Hcontainer & _).
  exists container. unfold outcome.newOutcomeState. rewrite Hcontainer.
  assert (Hdelay : 0 <= outcome.shimWaitDelay (hst.WaitDelay container) <= hst.WaitDelayMax).
  { unfold outcome.shimWaitDelay, hst.WaitDelayDefault, hst.WaitDelayMax.
    destruct (Z.ltb_spec (hst.WaitDelay container) 0); [lia|].
    destruct (Z.eqb_spec (hst.WaitDelay container) 0); [lia|].
    destruct (Z.gtb_spec (hst.WaitDelay container) (30 * 1000000000)); lia. }
  destruct (hst.has_flag _ _); eexists _, _; repeat split; try reflexivity; apply Hdelay.
Qed.

Lemma Validate_newOutcomeState_witness :
  ∃ (st : outcome.outcomeState unit unit),
    outcome.newOutcomeState example_dispatched (Some example_id)
      (example_config 42 (example_container 0 hst.FMapRealUID None)) = Returned st
    ∧ (outcome.Mapuid st, outcome.Mapgid st) = (1000, 100).
Proof.
  destruct (Validate_newOutcomeState (X := unit) no_objection tmpfs.Quote
              example_dispatched (Some example_id)
              (example_config 42 (example_container 0 hst.FMapRealUID None)) eq_refl)
    as (container & st & shim & Hc & Hst & _ & _ & _ & _ & _ & _ & _ & _ & Hmap).
  exists st. split; [exact Hst|].
  injection Hc as <-. exact Hmap.
Defined.

Section PlannerMore.

Context {H S X P : Type}.
Variable extern_toSystem :
  outcome.outcomeOp X → outcome.outcomeStateSys H S X P
  → outcome (X * outcome.outcomeStateSys H S X P * option error).
Variable zero : X.

Lemma toSystem_range_keeps_Ops ops : ∀ st st' e shim l,
  leaves_Shim extern_toSystem →
  outcome.toSystem_range extern_toSystem ops st = Returned (st', e) →
  outcome.Shim (outcome.state st) = Some shim →
  outcome.Ops shim = Some l →
  ∃ shim' l', outcome.Shim (outcome.state st') = Some shim'
              ∧ outcome.Ops shim' = Some l'.
Proof.
  induction ops as [|op ops IH]; intros st st' e shim l Hleave Hrun Hshim Hops.
  { injection Hrun as <- <-. by exists shim, l. }
  simpl in Hrun.
  destruct (outcome.outcomeOp_toSystem extern_toSystem op st)
    as [[[op1 st1] [err|]]|msg] eqn:Hop; [| |done].
  - pose proof (toSystem_Shim extern_toSystem op st op1 st1 _ Hleave Hop) as Hsame.
    rewrite Hshim in Hsame.
    destruct (errors_Is err (IsSentinel errNotEnabled)).
    + by eapply IH.
    + injection Hrun as <- <-. by exists shim, l.
  - pose proof (toSystem_Shim extern_toSystem op st op1 st1 _ Hleave Hop) as Hsame.
    rewrite Hshim in Hsame. rewrite Hsame in Hrun.
    eapply IH; [done|exact Hrun|reflexivity|reflexivity].
Qed.

(** X14.  [outcomeStateSys.toSystem] plans once: provided no op touches the
    shim parameters, whatever a call returned, a further call on the state it
    left returns the error "invalid ops state reached" and changes nothing. *)
Theorem toSystem_once (st st' : outcome.outcomeStateSys H S X P) (e : option error) :
  leaves_Shim extern_toSystem →
  outcome.toSystem extern_toSystem zero st = Returned (st', e) →
  outcome.toSystem extern_toSystem zero st'
  = Returned (st', Some (outcome.newWithMessage "invalid ops state reached")).
Proof.
  intros Hleave. unfold outcome.toSystem at 1.
  destruct (outcome.Shim (outcome.state st)) as [shim|] eqn:Hshim.
  2:{ intros [= <- <-]. unfold outcome.toSystem. by rewrite Hshim. }
  case_bool_decide as Hops.
  { intros [= <- <-]. unfold outcome.toSystem. rewrite Hshim.
    by rewrite bool_decide_eq_true_2. }
  intros Hrun.
  destruct (toSystem_range_keeps_Ops _ _ _ _ _ [] Hleave Hrun eq_refl eq_refl)
    as (shim' & l' & Hshim' & Hops').
  unfold outcome.toSystem. rewrite Hshim'.
  rewrite bool_decide_eq_true_2; [done|]. by rewrite Hops'.
Qed.

End PlannerMore.

Lemma toSystem_once_witness :
  ∃ st', outcome.toSystem idle_toSystem tt example_state = Returned (st', None)
         ∧ outcome.toSystem idle_toSystem tt st'
           = Returned (st', Some (outcome.newWithMessage "invalid ops state reached")).
Proof.
  eexists. split; [vm_compute; reflexivity|].
  eapply (toSystem_once idle_toSystem tt example_state _ None).
  - intros op st x st' e. unfold idle_toSystem. by intros [= _ <- _].
  - vm_compute. reflexivity.
Defined.

(** ** The cgroup op in the shim *)

(** The paths that [InstancePath] yields are accepted by [check.NewAbs]. *)
Lemma Join_abs_no_nul (p e : string) :
  path_IsAbs p = true → no_nul p → e ≠ "" → no_nul e →
  path_IsAbs (filepath_Join [p; e]) = true ∧ no_nul (filepath_Join [p; e]).
Proof.
  intros Habs Hp He Hne. unfold filepath_Join.
  rewrite Join_two by (done || by destruct p).
  assert (Habs' : path_IsAbs (p +:+ String slash e) = true) by (by destruct p).
  split.
  - by rewrite Clean_rooted.
  - apply Clean_rooted_no_nul; [done|].
    unfold no_nul in *. rewrite found_append. simpl. by rewrite Hp, Hne.
Qed.

Lemma ID_String_no_nul (id : hst.ID) : no_nul (hst.ID_String id).
Proof.
  pose proof (hex_EncodeToString_digits (vec_to_list id)) as Hdigits.
  unfold hst.ID_String. revert Hdigits.
  generalize (hex_EncodeToString (vec_to_list id)). intros s.
  unfold no_nul. induction s as [|a s IH]; [done|]. simpl.
  intros [Ha Hs]%andb_true_iff. rewrite (IH Hs), orb_false_r.
  destruct (Ascii.eqb_spec a NUL) as [->|]; [by vm_compute in Ha|done].
Qed.

(** X15.  Every instance path is one that [spCgroupOp.toContainer] accepts:
    for a cgroup section that [Validate] accepts, an identity without NUL
    byte and any id, [InstancePath] returns a path, and [toContainer], given
    an op that holds this path, returns nil and sets it as the cgroup path of
    the container parameters, changing no other parameter.  An op whose path
    is empty it refuses with "invalid cgroup state", and one whose path the
    constructor of absolute paths refuses it refuses with an [AppError] of
    step "parse cgroup path" around the error of the constructor; both leave
    the parameters as they were. *)
Theorem spCgroupOp_toContainer_instance {O R : Type} (cgroup : hst.CgroupConfig)
  (identity : string) (id : hst.ID) (params : container.Params O R) :
  hst.CgroupConfig_Validate (Some cgroup) = None →
  no_nul identity →
  ∃ target,
    hst.InstancePath (Some cgroup) identity (Some id) = inl target
    ∧ spCgroupOp_toContainer (check.pathname target) (Some params)
      = Returned (Some (container.set_CgroupPath params (Some target)), None)
    ∧ spCgroupOp_toContainer "" (Some params)
      = Returned (Some params, Some (outcome.newWithMessage "invalid cgroup state"))
    ∧ (∀ Path err, Path ≠ "" → check.NewAbs Path = inr err →
         spCgroupOp_toContainer Path (Some params)
         = Returned (Some params, Some (AppError "parse cgroup path" err ""))).
Proof.
  intros Hvalid Hnul.
  unfold hst.CgroupConfig_Validate in Hvalid.
  destruct (hst.LimitPids cgroup <? 0); [done|].
  destruct (hst.slicePath cgroup) as [slice|err] eqn:Hslice; [|done].
  set (target := check.Append (check.Append slice ["hakurei-" +:+ identity])
                   [hst.ID_String id]).
  exists target.
  split; [|split; [|split]].
  - unfold hst.InstancePath, hst.instanceRoot. by rewrite Hslice.
  - rewrite slicePath_resolved in Hslice.
    destruct (strings_IndexByte_found (resolved_slice cgroup) NUL) eqn:Hfound; [done|].
    injection Hslice as <-.
    destruct (Join_abs_no_nul (resolved_slice cgroup) ("hakurei-" +:+ identity)
                (resolved_slice_abs cgroup) Hfound ltac:(done) ltac:(done))
      as [Habs1 Hnul1].
    destruct (Join_abs_no_nul _ (hst.ID_String id) Habs1 Hnul1)
      as [Habs2 Hnul2].
    { pose proof (ID_String_regular id) as (? & _). done. }
    { apply ID_String_no_nul. }
    unfold spCgroupOp_toContainer, check.NewAbs.
    unfold target, check.Append. cbn [check.pathname].
    rewrite bool_decide_eq_false_2.
    2:{ intros Hempty. by rewrite Hempty in Habs2. }
    unfold no_nul in Hnul2. by rewrite Habs2, Hnul2.
  - done.
  - intros Path err Hne Herr. unfold spCgroupOp_toContainer.
    by rewrite bool_decide_eq_false_2, Herr by done.
Qed.

Lemma spCgroupOp_toContainer_instance_witness :
  ∃ target,
    hst.InstancePath (Some default_cgroup) "42" (Some example_id) = inl target
    ∧ check.pathname target
      = "/sys/fs/cgroup/hakurei.slice/hakurei-42/0123456789abcdef0123456789abcdef"
    ∧ spCgroupOp_toContainer (check.pathname target)
        (Some (container.params example_box))
      = Returned (Some (container.set_CgroupPath (container.params example_box)
                          (Some target)), None).
Proof.
  destruct (spCgroupOp_toContainer_instance default_cgroup "42" example_id
              (container.params example_box) eq_refl eq_refl)
    as (target & Htarget & Hset & _).
  exists target. split; [exact Htarget|]. split; [|exact Hset].
  vm_compute in Htarget. by injection Htarget as <-.
Defined.

(** ** The container *)

Section ContainerProps.

Context {F IO C O R W : Type}.
Variable k : container.kernel F IO C O R W.
Variable pkg : @container.constants.
Variable Atoi : string → Z + error.

(** X16.  [Container.Start] refuses a nil container, a container without
    command, without ops or with an empty list of ops, and a container whose
    process has been started, with a plain error; it then makes no call on
    the host, not even the descriptor sweep, and changes nothing. *)
Theorem Start_refuses (p : option (container.Container F IO C O R))
  (m : container.machine W) :
  p = None
  ∨ (∃ p0, p = Some p0
           ∧ (container.cmd p0 = None
              ∨ container.Ops (container.params p0) = None
              ∨ container.Ops (container.params p0) = Some []
              ∨ ∃ c pid, container.cmd p0 = Some c ∧ container.Process c = Some pid)) →
  ∃ text, container.Start k pkg Atoi p m = (p, m, Some (container.Other (errorString text))).
Proof.
  intros [->|(p0 & -> & Hcase)]; [by eexists|].
  unfold container.Start.
  destruct (container.cmd p0) as [c|] eqn:Hcmd; [|by eexists].
  destruct (container.Ops (container.params p0)) as [[|op ops]|] eqn:Hops;
    [by eexists| |by eexists].
  destruct Hcase as [?|[?|[?|(c' & pid & [= <-] & Hpid)]]]; [done..|].
  rewrite bool_decide_eq_true_2 by (by rewrite Hpid). by eexists.
Qed.

(** X17.  The descriptor sweep of [ensureCloseOnExec] runs once in the life
    of the process: after any call the latch is set, and every later call,
    whatever has happened on the host since, touches nothing and returns
    what the first one returned.  What it returns is nil or a fatal start
    error passed through from reading the descriptors. *)
Theorem ensureCloseOnExec_once (m : container.machine W) :
  container.closeOnExecOnce (container.ensureCloseOnExec k Atoi m).1 = true
  ∧ (∀ w,
       container.ensureCloseOnExec k Atoi
         (container.set_os (container.ensureCloseOnExec k Atoi m).1 w)
       = (container.set_os (container.ensureCloseOnExec k Atoi m).1 w,
          (container.ensureCloseOnExec k Atoi m).2))
  ∧ match (container.ensureCloseOnExec k Atoi m).2 with
    | None => True
    | Some (container.Started e) =>
        container.Fatal e = true ∧ container.Passthrough e = true
        ∧ container.Step e = "set FD_CLOEXEC on all open files"
    | Some (container.Other _) => False
    end.
Proof.
  unfold container.ensureCloseOnExec.
  destruct (container.closeOnExecOnce m) eqn:Honce.
  - destruct (container.closeOnExecErr m) as [err|] eqn:Herr; cbn [fst snd];
      (split; [done|]); (split; [|done]); intros w;
      unfold container.set_os; simpl; by rewrite ?Honce, ?Herr.
  - destruct (container.os_ReadDir k "/proc/self/fd/" (container.os m)) as [w1 entries].
    destruct (match entries with inl _ => _ | inr _ => _ end) as [w2 [err|]];
      cbn [fst snd container.closeOnExecOnce container.closeOnExecErr]; done.
Qed.

Lemma start_thread_nil (q : container.Params O R) (c c1 : container.Cmd F IO C) (m m1 : container.machine W) :
  container.start_thread k pkg q c m = (c1, m1, None) →
  ∃ pid, c1 = container.set_launch c (container.cmd_SysProcAttr c) (container.cmd_Env c)
                (container.cmd_ExtraFiles c) (Some pid).
Proof.
  unfold container.start_thread.
  destruct (container.call (container.SetNoNewPrivs k) m) as [m2 [err|]]; [done|].
  destruct (container.start_landlock k pkg q m2) as [m3 [err|]]; [done|].
  destruct (container.call (container.exec_Start k c) _) as [m4 [pid|err]]; [|done].
  intros [= <- _]. by exists pid.
Qed.

Lemma start_child_nil (p p1 : container.Container F IO C O R) (c c1 : container.Cmd F IO C)
  (cgroupFile : option F) (m m1 : container.machine W) :
  container.start_child k pkg p c cgroupFile m = (p1, c1, m1, None) →
  ∃ extra (fd : Z) f pid,
    p1 = container.set_Container p (container.params p) (Some f) (container.cancel p)
           (Some false) (container.cmd p)
    ∧ c1 = container.set_launch c
             (Some (container.start_attr k pkg (container.params p) cgroupFile))
             [container.setupEnv pkg +:+ "=" +:+ pretty fd]
             (extra ++ container.ExtraFiles p) (Some pid).
Proof.
  unfold container.start_child.
  destruct (container.call (container.Setup k _) m) as [m2 [[[extra fd] f]|err]]; [|done].
  destruct (container.start_thread k pkg _ _ _) as [[c2 m3] err] eqn:Hthread.
  intros [= <- <- <- ->]. apply start_thread_nil in Hthread as [pid ->].
  by exists extra, fd, f, pid.
Qed.

Lemma start_params_CgroupPath (q : container.Params O R) uid gid :
  container.CgroupPath (container.start_params pkg q uid gid) = container.CgroupPath q.
Proof.
  unfold container.start_params.
  repeat match goal with |- context [if ?b then _ else _] => destruct b end; reflexivity.
Qed.

(** What [Start] leaves when it returns nil. *)
Lemma Start_nil (p : container.Container F IO C O R) (m m' : container.machine W)
  (p' : option (container.Container F IO C O R)) :
  container.Start k pkg Atoi (Some p) m = (p', m', None) →
  ∃ c uid gid cgroupFile extra (fd : Z) f pid,
    container.cmd p = Some c
    ∧ container.Process c = None
    ∧ (cgroupFile = None ↔ container.CgroupPath (container.params p) = None)
    ∧ p' = Some
        (container.set_Container p
           (container.start_params pkg (container.params p) uid gid)
           (Some f) (container.cancel p) (Some false)
           (Some
              (container.set_launch
                 (container.prepare_cmd pkg p c)
                 (Some (container.start_attr k pkg
                          (container.start_params pkg (container.params p) uid gid)
                          cgroupFile))
                 [container.setupEnv pkg +:+ "=" +:+ pretty fd]
                 (extra ++ container.ExtraFiles p) (Some pid)))).
Proof.
  unfold container.Start.
  destruct (container.cmd p) as [c|] eqn:Hcmd; [|done].
  destruct (container.Ops (container.params p)) as [[|op ops]|]; [done| |done].
  case_bool_decide as Hprocess; [done|].
  destruct (container.ensureCloseOnExec k Atoi m) as [m0 [err|]]; [done|].
  destruct (if container.Uid (container.params p) <? 1 then _ else _) as [m1 uid].
  destruct (if container.Gid (container.params p) <? 1 then _ else _) as [m2 gid].
  cbn [container.params container.set_params container.set_Container].
  rewrite start_params_CgroupPath.
  intros Hrun. exists c, uid, gid.
  destruct (container.CgroupPath (container.params p)) as [pathname|].
  - destruct (container.call (container.os_OpenFile k _ _ _) m2) as [m3 [f0|err]]; [|done].
    destruct (container.start_child k pkg _ _ (Some f0) m3) as [[[p1 c1] m4] err] eqn:Hchild.
    destruct (container.call (container.File_Close k f0) m4) as [m5 closed].
    injection Hrun as <- _ ->.
    apply start_child_nil in Hchild as (extra & fd & f & pid & -> & ->).
    exists (Some f0), extra, fd, f, pid. by repeat split.
  - destruct (container.start_child k pkg _ _ None m2) as [[[p1 c1] m4] err] eqn:Hchild.
    injection Hrun as <- _ ->.
    apply start_child_nil in Hchild as (extra & fd & f & pid & -> & ->).
    exists None, extra, fd, f, pid. by repeat split.
Qed.

(** X18.  When [Container.Start] returns nil the child has been given new
    user, pid, mount, ipc, uts and cgroup namespaces, and a new network
    namespace exactly when the container does not share the one of the host;
    it is killed when its parent dies, leads a new session unless the
    session is retained, holds the three ambient capabilities and joins the
    cgroup by descriptor exactly when a cgroup path is set.  Its argument
    vector is the init name alone, its environment the one variable naming
    the descriptor of the setup pipe, its directory the root, and its extra
    files end with those of the container.  The container holds the setup
    pipe and an open wait channel. *)
Theorem Start_child_attributes (p p' : container.Container F IO C O R)
  (m m' : container.machine W) :
  container.Start k pkg Atoi (Some p) m = (Some p', m', None) →
  ∃ c' attr (pid fd : Z) f extra,
    container.cmd p' = Some c'
    ∧ container.Process c' = Some pid
    ∧ container.setup p' = Some f
    ∧ container.wait p' = Some false
    ∧ container.cmd_Args c' = [container.initName pkg]
    ∧ container.cmd_Env c' = [container.setupEnv pkg +:+ "=" +:+ pretty fd]
    ∧ container.cmd_Dir c' = container.fhs_Root pkg
    ∧ container.cmd_WaitDelay c' = container.WaitDelay p
    ∧ container.cmd_ExtraFiles c' = extra ++ container.ExtraFiles p
    ∧ container.cmd_Cancel c'
      = match container.Cancel p with
        | Some g => container.CancelCustom g
        | None => container.CancelSignalProcess container.SIGUSR2
        end
    ∧ container.cmd_SysProcAttr c' = Some attr
    ∧ container.Cloneflags attr
      = Z.lor
          (Z.lor (Z.lor (Z.lor (Z.lor (Z.lor container.CLONE_NEWUSER container.CLONE_NEWPID)
                                  container.CLONE_NEWNS) container.CLONE_NEWIPC)
                    container.CLONE_NEWUTS) container.CLONE_NEWCGROUP)
          (if container.HostNet (container.params p) then 0 else container.CLONE_NEWNET)
    ∧ container.Pdeathsig attr = container.SIGKILL
    ∧ container.Setsid attr = negb (container.RetainSession (container.params p))
    ∧ container.AmbientCaps attr
      = [container.CAP_SYS_ADMIN pkg; container.CAP_SETPCAP pkg;
         container.CAP_DAC_OVERRIDE pkg]
    ∧ container.UseCgroupFD attr
      = bool_decide (container.CgroupPath (container.params p) ≠ None).
Proof.
  intros Hrun.
  apply Start_nil in Hrun
    as (c & uid & gid & cgroupFile & extra & fd & f & pid & Hcmd & Hprocess & Hcgroup & Hp').
  injection Hp' as ->.
  assert (Hsame : ∀ q : container.Params O R,
            container.RetainSession (container.start_params pkg q uid gid)
            = container.RetainSession q
            ∧ container.HostNet (container.start_params pkg q uid gid)
              = container.HostNet q).
  { intros q. unfold container.start_params.
    repeat match goal with |- context [if ?b then _ else _] => destruct b end; done. }
  destruct (Hsame (container.params p)) as [Hretain Hnet].
  eexists _, _, pid, fd, f, extra.
  repeat (split; [reflexivity|]).
  unfold container.start_attr. rewrite Hretain, Hnet.
  destruct (container.HostNet (container.params p)), cgroupFile as [f0|];
    cbn [negb container.Cloneflags container.Pdeathsig container.Setsid
         container.AmbientCaps container.UseCgroupFD];
    rewrite ?Z.lor_0_r; repeat (split; [reflexivity|]); symmetry.
  all: first [ apply bool_decide_eq_true_2; intros Hnone; apply Hcgroup in Hnone; done
             | apply bool_decide_eq_false_2; intros Hsome; apply Hsome, Hcgroup; done ].
Qed.

Lemma start_params_eq (q : container.Params O R) (uid gid : Z) :
  container.start_params pkg q uid gid
  = container.set_AdoptWaitDelay
      (container.set_SeccompPresets
         (container.set_ids q
            (if container.Uid q <? 1 then uid else container.Uid q)
            (if container.Gid q <? 1 then gid else container.Gid q))
         (if container.RetainSession q then container.SeccompPresets q
          else Z.lor (container.SeccompPresets q) (container.PresetDenyTTY pkg)))
      (if container.AdoptWaitDelay q =? 0 then 5000000000
       else if container.AdoptWaitDelay q <? 0 then 0
       else container.AdoptWaitDelay q).
Proof.
  destruct q as [dir env path args cgroup forward delay puid pgid host
    ops rules sflags presets disable perm retain net abstract privileged].
  unfold container.start_params. simpl.
  destruct retain; simpl; destruct (delay =? 0) eqn:Hzero; simpl;
    try reflexivity; destruct (delay <? 0); reflexivity.
Qed.

(** The parameters [Start] leaves when it returns nil, with the ids that the
    kernel reported. *)
Lemma Start_nil_ids (p p' : container.Container F IO C O R) (m m' : container.machine W) :
  container.Start k pkg Atoi (Some p) m = (Some p', m', None) →
  let q := container.params p in
  let w := container.os (container.ensureCloseOnExec k Atoi m).1 in
  let uid := container.OverflowUid k w in
  let gid := container.OverflowGid k (if container.Uid q <? 1 then uid.1 else w) in
  container.params p'
  = container.start_params pkg q
      (if container.Uid q <? 1 then uid.2 else 0)
      (if container.Gid q <? 1 then gid.2 else 0).
Proof.
  cbv zeta. unfold container.Start.
  destruct (container.cmd p) as [c|] eqn:Hcmd; [|done].
  destruct (container.Ops (container.params p)) as [[|op ops]|]; [done| |done].
  case_bool_decide as Hprocess; [done|].
  destruct (container.ensureCloseOnExec k Atoi m) as [m0 [err|]]; [done|].
  cbn [fst]. unfold container.call at 1 2.
  destruct (container.Uid (container.params p) <? 1);
    [destruct (container.OverflowUid k (container.os m0)) as [w1 uid]|];
    cbn [fst snd container.os container.set_os];
    (destruct (container.Gid (container.params p) <? 1);
       [destruct (container.OverflowGid k _) as [w2 gid]|]);
    cbn [snd container.params container.set_params container.set_Container];
    rewrite start_params_CgroupPath;
    destruct (container.CgroupPath (container.params p)) as [pathname|].
  all: try (destruct (container.call (container.os_OpenFile k _ _ _) _)
              as [m3 [f0|err]]; [|done]).
  all: destruct (container.start_child k pkg _ _ _ _) as [[[p1 c1] m4] err] eqn:Hchild.
  all: try destruct (container.call (container.File_Close k _) m4) as [m5 closed].
  all: intros [= <- _ ->].
  all: by apply start_child_nil in Hchild as (extra & fd & f & pid & -> & ->).
Qed.

(** X19.  When [Container.Start] returns nil it has adjusted the parameters
    of the container like this and not otherwise: a uid below one has become
    the overflow uid that the kernel reports once the descriptors are swept,
    a gid below one the overflow gid that it reports next, and an id that is
    not below one is kept; the seccomp presets include the one that denies
    the terminal unless the session is retained, in which case they are as
    they were; an adopt wait delay of zero has become five seconds, a
    negative one zero, and a positive one is kept. *)
Theorem Start_parameters (p p' : container.Container F IO C O R)
  (m m' : container.machine W) :
  container.Start k pkg Atoi (Some p) m = (Some p', m', None) →
  let q := container.params p in
  let q' := container.params p' in
  let w := container.os (container.ensureCloseOnExec k Atoi m).1 in
  let uid := container.OverflowUid k w in
  let gid := container.OverflowGid k (if container.Uid q <? 1 then uid.1 else w) in
  container.Uid q' = (if container.Uid q <? 1 then uid.2 else container.Uid q)
  ∧ container.Gid q' = (if container.Gid q <? 1 then gid.2 else container.Gid q)
  ∧ (1 <= container.Uid q → container.Uid q' = container.Uid q)
  ∧ (1 <= container.Gid q → container.Gid q' = container.Gid q)
  ∧ container.SeccompPresets q'
    = (if container.RetainSession q then container.SeccompPresets q
       else Z.lor (container.SeccompPresets q) (container.PresetDenyTTY pkg))
  ∧ container.AdoptWaitDelay q'
    = (if container.AdoptWaitDelay q =? 0 then 5000000000
       else if container.AdoptWaitDelay q <? 0 then 0
       else container.AdoptWaitDelay q)
  ∧ 0 <= container.AdoptWaitDelay q'
  ∧ container.set_AdoptWaitDelay
      (container.set_SeccompPresets (container.set_ids q' 0 0) 0) 0
    = container.set_AdoptWaitDelay
        (container.set_SeccompPresets (container.set_ids q 0 0) 0) 0.
Proof.
  intros Hrun. pose proof (Start_nil_ids p p' m m' Hrun) as Hq. cbv zeta in *.
  rewrite Hq, start_params_eq.
  cbn [container.Uid container.Gid container.SeccompPresets container.AdoptWaitDelay
       container.set_AdoptWaitDelay container.set_SeccompPresets container.set_ids].
  split; [|split; [|split; [|split; [|split; [|split; [|split]]]]]]; try reflexivity.
  - by destruct (container.Uid (container.params p) <? 1).
  - by destruct (container.Gid (container.params p) <? 1).
  - intros Huid. by destruct (Z.ltb_spec (container.Uid (container.params p)) 1); [lia|].
  - intros Hgid. by destruct (Z.ltb_spec (container.Gid (container.params p)) 1); [lia|].
  - destruct (Z.eqb_spec (container.AdoptWaitDelay (container.params p)) 0); [lia|].
    destruct (Z.ltb_spec (container.AdoptWaitDelay (container.params p)) 0); lia.
Qed.

(** X22.  [Container.Serve] is to be called once: a call that returns has
    taken the setup pipe out of the container, whatever it returns, and any
    later call panics with "invalid serve", as does a call on a container
    that [Start] has not given a pipe.  After a [Start] that returned nil,
    on a container that has a cancel function, the first call does
    return. *)
Theorem Serve_once (p : container.Container F IO C O R) (m : container.machine W) :
  (∀ p' m' r, container.Serve k pkg p m = Returned (p', m', r) →
      container.setup p' = None
      ∧ ∀ m'', container.Serve k pkg p' m'' = Panicked "invalid serve")
  ∧ (container.setup p = None → container.Serve k pkg p m = Panicked "invalid serve")
  ∧ (∀ p0 m0 m1 b,
       container.Start k pkg Atoi (Some p0) m0 = (Some p, m1, None) →
       container.cancel p0 = Some b →
       ∃ p' m' r, container.Serve k pkg p m = Returned (p', m', r)).
Proof.
  assert (Hnone : ∀ (q : container.Container F IO C O R) m0,
            container.setup q = None → container.Serve k pkg q m0 = Panicked "invalid serve").
  { intros q m0 Hq. unfold container.Serve. by rewrite Hq. }
  assert (Hcancel : ∀ (q q' : container.Container F IO C O R),
            container.do_cancel q = Returned q' → container.setup q' = container.setup q).
  { intros q q'. unfold container.do_cancel.
    destruct (container.cancel q); [|done]. by intros [= <-]. }
  split; [|split; [apply Hnone|]].
  - intros p' m' r. unfold container.Serve.
    destruct (container.setup p) as [pipe|]; [|done].
    destruct (container.call _ m) as [m1 [err|]].
    { intros [= <- _ _]. split; [done|]. intros m''. by apply Hnone. }
    destruct (container.Path _).
    + destruct (container.call (container.gob_Encode k pipe _) m1) as [m2 err].
      destruct (container.call (container.File_Close k pipe) m2) as [m3 closed].
      destruct err as [err|].
      * destruct (container.do_cancel _) as [p2|msg] eqn:Hp2; [|done].
        intros [= <- _ _]. apply Hcancel in Hp2.
        split; [done|]. intros m''. by apply Hnone.
      * intros [= <- _ _]. split; [done|]. intros m''. by apply Hnone.
    + destruct (container.do_cancel _) as [p2|msg] eqn:Hp2; [|done].
      intros [= <- _ _]. apply Hcancel in Hp2.
      split; [done|]. intros m''. by apply Hnone.
  - intros p0 m0 m1 b Hstart Hb.
    apply Start_nil in Hstart
      as (c & uid & gid & cgroupFile & extra & fd & f & pid & _ & _ & _ & Hp).
    injection Hp as ->. unfold container.Serve, container.do_cancel.
    cbn [container.setup container.set_Container container.params container.cancel
         container.set_params].
    rewrite Hb.
    destruct (container.call _ m) as [m2 [err|]]; [by eexists _, _, _|].
    destruct (container.Path _); [|by eexists _, _, _].
    destruct (container.call (container.gob_Encode k f _) m2) as [m3 err].
    destruct (container.call (container.File_Close k f) m3) as [m4 closed].
    destruct err; by eexists _, _, _.
Qed.

(** X23.  [Container.Wait] on a container that has no command or whose
    process has not been started returns EINVAL and does nothing else.
    After a [Start] that returned nil, on a container that has a cancel
    function, it waits for the process, cancels the context whatever the
    wait returned, and returns what the wait returned; it closes the channel
    that keeps the locked thread exactly when the wait returned nil, so
    after a failed wait the channel stays open. *)
Theorem Wait_keepalive (p : container.Container F IO C O R) (m : container.machine W) :
  ((container.cmd p = None
    ∨ ∃ c, container.cmd p = Some c ∧ container.Process c = None) →
   container.Wait k p m = Returned (p, m, Some (container.Other (Errno EINVAL))))
  ∧ (∀ p0 m0 m1 b,
       container.Start k pkg Atoi (Some p0) m0 = (Some p, m1, None) →
       container.cancel p0 = Some b →
       ∃ c p' m',
         container.cmd p = Some c
         ∧ container.Wait k p m
           = Returned (p', m', container.Other <$> (container.exec_Wait k c (container.os m)).2)
         ∧ container.os m' = (container.exec_Wait k c (container.os m)).1
         ∧ container.cancel p' = Some true
         ∧ container.wait p'
           = Some (bool_decide ((container.exec_Wait k c (container.os m)).2 = None))).
Proof.
  split.
  - unfold container.Wait. intros [->|(c & -> & ->)]; [done|].
    by rewrite bool_decide_eq_true_2.
  - intros p0 m0 m1 b Hstart Hb.
    apply Start_nil in Hstart
      as (c & uid & gid & cgroupFile & extra & fd & f & pid & _ & _ & _ & Hp).
    injection Hp as ->. unfold container.Wait, container.do_cancel, container.call.
    cbn [container.cmd container.set_Container container.Process container.set_launch
         container.cancel container.wait].
    rewrite Hb. rewrite bool_decide_eq_false_2 by done.
    match goal with
    | |- context [container.exec_Wait k ?c0 (container.os m)] => exists c0
    end.
    destruct (container.exec_Wait k _ (container.os m)) as [w [err|]];
      cbn [fst snd fmap option_fmap option_map container.wait container.set_Container];
      eexists _, _; (split; [reflexivity|]); (split; [reflexivity|]);
      by repeat split.
Qed.

End ContainerProps.

(** ** The calls of [Start], in order *)

Section ContainerJournal.

Context {IO C O R : Type}.
Variable o : kjournal.oracle IO C O R.
Variable pkg : @container.constants.
Variable Atoi : string → Z + error.

Lemma landlock_journal (q : container.Params O R) m m1 r :
  container.start_landlock (kjournal.k o) pkg q m = (m1, r) →
  ∃ landlock,
    container.os m1 = container.os m ++ [kjournal.LandlockGetABI] ++ landlock
    ∧ filter is_file_call landlock = []
    ∧ (r = None →
       confined o pkg q (container.os m ++ [kjournal.LandlockGetABI]) landlock).
Proof.
  unfold container.start_landlock, confined, landlock_scope, container.call.
  cbn [container.LandlockGetABI container.RulesetAttr_Create container.LandlockRestrictSelf
       container.Close kjournal.k kjournal.ask].
  intros Hrun. destruct (container.HostAbstract q); cbn [negb] in Hrun.
  all: repeat match type of Hrun with
         | context [match ?x with _ => _ end] =>
             lazymatch x with
             | (_, _) => fail
             | _ => destruct x eqn:?
             end
         | _ => progress cbn [container.os container.set_os container.say] in Hrun
         end;
    injection Hrun as <- <-;
    cbn [container.os container.set_os container.say] in *;
    rewrite <- ?app_assoc in *; cbn [app] in *.
  all: try (eexists; split; [reflexivity|]; split; [reflexivity|]; done).
  all: try (exists []; split; [done|]; split; [done|]; intros _; by left).
  all: eexists; split; [reflexivity|]; split; [reflexivity|];
    intros _; right; eexists; split; [reflexivity|].
  all: rewrite <- ?app_assoc; done.
Qed.

Lemma thread_journal (q : container.Params O R) c c1 m m1 :
  container.start_thread (kjournal.k o) pkg q c m = (c1, m1, None) →
  ∃ landlock,
    container.os m1
    = container.os m ++ [kjournal.SetNoNewPrivs; kjournal.LandlockGetABI] ++ landlock
      ++ [kjournal.ExecStart c]
    ∧ kjournal.failed o (container.os m ++ [kjournal.SetNoNewPrivs]) = None
    ∧ confined o pkg q
        (container.os m ++ [kjournal.SetNoNewPrivs; kjournal.LandlockGetABI]) landlock.
Proof.
  unfold container.start_thread, container.call.
  cbn [container.SetNoNewPrivs container.exec_Start kjournal.k kjournal.ask].
  destruct (kjournal.failed o (container.os m ++ [kjournal.SetNoNewPrivs])) as [err|] eqn:Hnnp;
    [done|].
  destruct (container.start_landlock _ pkg q _) as [m2 [err|]] eqn:Hlandlock; [done|].
  apply landlock_journal in Hlandlock as (landlock & Hos & _ & Hconfined).
  cbn [container.os container.set_os container.say] in *.
  destruct (kjournal.opened o _) as [pid|err]; [|done].
  intros [= _ <-]. exists landlock. cbn [container.os container.set_os].
  rewrite Hos, <- !app_assoc. split; [done|]. split; [done|].
  specialize (Hconfined eq_refl). by rewrite <- app_assoc in Hconfined.
Qed.

Lemma child_journal (p p1 : container.Container Z IO C O R) c c1 cgroupFile m m1 :
  container.start_child (kjournal.k o) pkg p c cgroupFile m = (p1, c1, m1, None) →
  ∃ extra landlock c2,
    container.os m1
    = container.os m
      ++ [kjournal.Setup extra; kjournal.LockOSThread; kjournal.SetNoNewPrivs;
          kjournal.LandlockGetABI] ++ landlock ++ [kjournal.ExecStart c2]
    ∧ kjournal.failed o
        (container.os m
         ++ [kjournal.Setup extra; kjournal.LockOSThread; kjournal.SetNoNewPrivs]) = None
    ∧ confined o pkg (container.params p)
        (container.os m
         ++ [kjournal.Setup extra; kjournal.LockOSThread; kjournal.SetNoNewPrivs;
             kjournal.LandlockGetABI]) landlock.
Proof.
  unfold container.start_child, container.call.
  cbn [container.Setup container.LockOSThread kjournal.k kjournal.ask].
  destruct (kjournal.piped o _) as [[[extra fd] f]|err]; [|done].
  cbn [container.os container.set_os container.params container.set_Container].
  destruct (container.start_thread _ pkg _ _ _) as [[c2 m2] [err|]] eqn:Hthread; [done|].
  apply thread_journal in Hthread as (landlock & Hos & Hnnp & Hconfined).
  cbn [container.os container.set_os] in *. rewrite <- !app_assoc in *. cbn [app] in *.
  intros [= _ _ <-]. by eexists _, landlock, _.
Qed.

(** The calls of the descriptor sweep. *)
Lemma sweep_journal m :
  ∃ l, container.os (container.ensureCloseOnExec (kjournal.k o) Atoi m).1
       = container.os m ++ l
       ∧ filter is_file_call l = [].
Proof.
  assert (Hrange : ∀ entries (w : kjournal.t IO C O R),
            ∃ l, (container.closeOnExec_range (kjournal.k o) Atoi entries w).1 = w ++ l
                 ∧ filter is_file_call l = []).
  { induction entries as [|ent rest IH]; intros w; simpl.
    { exists []. by rewrite app_nil_r. }
    destruct (Atoi ent) as [fd|err]; [|exists []; by rewrite app_nil_r].
    destruct (IH (w ++ [kjournal.CloseOnExec fd])) as (l & -> & Hl).
    exists (kjournal.CloseOnExec fd :: l). by rewrite <- app_assoc. }
  unfold container.ensureCloseOnExec.
  destruct (container.closeOnExecOnce m).
  { exists []. rewrite app_nil_r. by destruct (container.closeOnExecErr m). }
  cbn [container.os_ReadDir kjournal.k kjournal.ask].
  destruct (kjournal.entries o _) as [entries|err].
  - destruct (Hrange entries (container.os m ++ [kjournal.ReadDir "/proc/self/fd/"]))
      as (l & Hl & Hfilter).
    destruct (container.closeOnExec_range _ Atoi entries _) as [w err].
    cbn [fst] in Hl. subst w.
    exists (kjournal.ReadDir "/proc/self/fd/" :: l). rewrite <- app_assoc.
    by destruct err.
  - by exists [kjournal.ReadDir "/proc/self/fd/"].
Qed.

(** The calls of [Start] once past the cgroup directory, whatever they
    come to. *)
Lemma child_calls (p : container.Container Z IO C O R) c cgroupFile m :
  ∃ l, container.os (container.start_child (kjournal.k o) pkg p c cgroupFile m).1.2
       = container.os m ++ l
       ∧ filter is_file_call l = [].
Proof.
  destruct (container.start_child _ pkg p c cgroupFile m) as [[[p1 c1] m1] r] eqn:Hrun.
  cbn [fst snd]. revert Hrun.
  unfold container.start_child, container.start_thread, container.call.
  cbn [container.Setup container.LockOSThread container.SetNoNewPrivs container.exec_Start
       kjournal.k kjournal.ask].
  destruct (kjournal.piped o _) as [[[extra fd] f]|err].
  2:{ intros [= _ _ <- _]. by eexists [_]. }
  cbn [container.os container.set_os container.params container.set_Container].
  destruct (kjournal.failed o _) as [err|].
  { intros [= _ _ <- _]. cbn [container.os container.set_os]. rewrite <- !app_assoc.
    by eexists. }
  destruct (container.start_landlock _ pkg _ _) as [m2 r2] eqn:Hlandlock.
  apply landlock_journal in Hlandlock as (landlock & Hos & Hfilter & _).
  cbn [container.os container.set_os] in Hos.
  destruct r2 as [err|].
  { intros [= _ _ <- _]. rewrite Hos, <- !app_assoc. eexists. split; [reflexivity|].
    cbn [app]. rewrite !filter_cons. cbn [is_file_call]. done. }
  cbn [container.os container.set_os container.say].
  destruct (kjournal.opened o _) as [pid|err];
    intros [= _ _ <- _]; cbn [container.os container.set_os]; rewrite Hos, <- !app_assoc;
    (eexists; split; [reflexivity|]); cbn [app]; rewrite !filter_cons; cbn [is_file_call];
    by rewrite filter_app, Hfilter.
Qed.

Lemma start_params_HostAbstract (q : container.Params O R) uid gid :
  container.HostAbstract (container.start_params pkg q uid gid) = container.HostAbstract q.
Proof. by rewrite start_params_eq. Qed.

Lemma confined_start_params (q : container.Params O R) uid gid h landlock :
  confined o pkg (container.start_params pkg q uid gid) h landlock →
  confined o pkg q h landlock.
Proof.
  unfold confined, landlock_scope. by rewrite start_params_HostAbstract.
Qed.

(** X20.  When [Container.Start] returns nil, the child was started last of
    all, but for the closing of the cgroup directory, and directly before it,
    in this order: the setup pipe was installed, the thread locked, new
    privileges given up, which succeeded, the Landlock ABI queried, and a
    ruleset created, enforced, which succeeded, and closed.  The ruleset
    scopes signals, and abstract unix sockets unless the container shares
    those of the host; only such a container is started without a ruleset,
    when Landlock is missing or too old. *)
Theorem Start_confined (p : container.Container Z IO C O R)
  (p' : option (container.Container Z IO C O R))
  (m m' : container.machine (kjournal.t IO C O R)) :
  container.Start (kjournal.k o) pkg Atoi (Some p) m = (p', m', None) →
  ∃ pre extra landlock c post,
    container.os m'
    = container.os m ++ pre
      ++ [kjournal.Setup extra; kjournal.LockOSThread; kjournal.SetNoNewPrivs;
          kjournal.LandlockGetABI] ++ landlock ++ [kjournal.ExecStart c] ++ post
    ∧ kjournal.failed o
        (container.os m ++ pre
         ++ [kjournal.Setup extra; kjournal.LockOSThread; kjournal.SetNoNewPrivs]) = None
    ∧ confined o pkg (container.params p)
        (container.os m ++ pre
         ++ [kjournal.Setup extra; kjournal.LockOSThread; kjournal.SetNoNewPrivs;
             kjournal.LandlockGetABI]) landlock
    ∧ (post = [] ∨ ∃ f, post = [kjournal.FileClose f]).
Proof.
  unfold container.Start.
  destruct (container.cmd p) as [c|] eqn:Hcmd; [|done].
  destruct (container.Ops (container.params p)) as [[|op ops]|]; [done| |done].
  case_bool_decide as Hprocess; [done|].
  destruct (sweep_journal m) as (l0 & Hl0 & _).
  destruct (container.ensureCloseOnExec (kjournal.k o) Atoi m) as [m0 [err|]]; [done|].
  cbn [fst] in Hl0.
  assert (∃ l1, container.os
                  (if container.Uid (container.params p) <? 1
                   then container.call (container.OverflowUid (kjournal.k o)) m0
                   else (m0, 0)).1 = container.os m ++ l1) as [l1 Hl1].
  { destruct (_ <? 1); cbn; rewrite Hl0, <- ?app_assoc; by eexists. }
  destruct (if container.Uid (container.params p) <? 1 then _ else _) as [m1 uid].
  cbn [fst] in Hl1.
  assert (∃ l2, container.os
                  (if container.Gid (container.params p) <? 1
                   then container.call (container.OverflowGid (kjournal.k o)) m1
                   else (m1, 0)).1 = container.os m ++ l2) as [l2 Hl2].
  { destruct (_ <? 1); cbn; rewrite Hl1, <- ?app_assoc; by eexists. }
  destruct (if container.Gid (container.params p) <? 1 then _ else _) as [m2 gid].
  cbn [fst] in Hl2.
  cbn [container.params container.set_params container.set_Container].
  destruct (container.CgroupPath _) as [pathname|].
  - unfold container.call at 1.
    cbn [container.os_OpenFile container.File_Close kjournal.k kjournal.ask].
    destruct (kjournal.opened o _) as [f0|err]; [|done].
    destruct (container.start_child _ pkg _ _ (Some f0) _) as [[[p1 c1] m4] r] eqn:Hchild.
    unfold container.call.
    cbn [container.os_OpenFile container.File_Close kjournal.k kjournal.ask].
    intros Hrun.
    assert (r = None) as -> by (by destruct (kjournal.failed o _); injection Hrun).
    apply child_journal in Hchild as (extra & landlock & c2 & Hos & Hnnp & Hconfined).
    cbn [container.os container.set_os container.params container.set_Container] in *.
    apply confined_start_params in Hconfined.
    rewrite Hl2, <- !app_assoc in *.
    exists (l2 ++ [kjournal.OpenFile (check.pathname pathname)
                     (Z.lor container.O_RDONLY container.O_CLOEXEC) 0]),
      extra, landlock, c2, [kjournal.FileClose f0].
    rewrite <- !app_assoc.
    split; [|split; [exact Hnnp|split; [exact Hconfined|right; by eexists]]].
    destruct (kjournal.failed o (container.os m4 ++ _)); injection Hrun as _ <-;
      cbn [container.os container.set_os container.say];
      rewrite Hos, <- !app_assoc; cbn [app]; reflexivity.
  - destruct (container.start_child _ pkg _ _ None _) as [[[p1 c1] m4] r] eqn:Hchild.
    intros [= _ <- ->].
    apply child_journal in Hchild as (extra & landlock & c2 & Hos & Hnnp & Hconfined).
    cbn [container.os container.set_os container.params container.set_Container] in *.
    apply confined_start_params in Hconfined.
    rewrite Hl2, <- !app_assoc in *.
    exists l2, extra, landlock, c2, [].
    split; [|split; [exact Hnnp|split; [exact Hconfined|by left]]].
    rewrite Hos, <- ?app_assoc. cbn [app]. reflexivity.
Qed.

(** X21.  Whatever [Container.Start] comes to, it calls [os.OpenFile] at
    most once, on the cgroup directory, read only and close-on-exec, and
    only when a cgroup path is set.  If the directory cannot be opened, that
    call is the last one [Start] makes, and [Start] returns the error of the
    call as a start error that is not fatal.  If it can, the last call
    [Start] makes, whether the child was started or not, is the [Close] of
    the file it was given, and it calls [Close] on no file before.  (The
    setup pipe and the descriptor of the Landlock ruleset are not opened by
    [os.OpenFile] nor closed by the method of a file.) *)
Theorem Start_cgroup_descriptor (p : container.Container Z IO C O R)
  (m : container.machine (kjournal.t IO C O R)) :
  ∃ l,
    container.os (container.Start (kjournal.k o) pkg Atoi (Some p) m).1.2
    = container.os m ++ l
    ∧ (container.CgroupPath (container.params p) = None → filter is_file_call l = [])
    ∧ (filter is_file_call l = []
       ∨ (∃ pathname err l1,
            container.CgroupPath (container.params p) = Some pathname
            ∧ l = l1 ++ [kjournal.OpenFile (check.pathname pathname)
                           (Z.lor container.O_RDONLY container.O_CLOEXEC) 0]
            ∧ filter is_file_call l1 = []
            ∧ kjournal.opened o (container.os m ++ l) = inr err
            ∧ (container.Start (kjournal.k o) pkg Atoi (Some p) m).2
              = Some (container.Started
                        {| container.Fatal := false;
                           container.Step := "open cgroup directory";
                           container.Err := err; container.Origin := false;
                           container.Passthrough := false |}))
       ∨ (∃ pathname f l1 l2,
            container.CgroupPath (container.params p) = Some pathname
            ∧ l = l1 ++ [kjournal.OpenFile (check.pathname pathname)
                           (Z.lor container.O_RDONLY container.O_CLOEXEC) 0]
                    ++ l2 ++ [kjournal.FileClose f]
            ∧ kjournal.opened o
                (container.os m ++ l1
                 ++ [kjournal.OpenFile (check.pathname pathname)
                       (Z.lor container.O_RDONLY container.O_CLOEXEC) 0]) = inl f
            ∧ filter is_file_call l1 = []
            ∧ filter is_file_call l2 = [])).
Proof.
  unfold container.Start.
  destruct (container.cmd p) as [c|] eqn:Hcmd.
  2:{ exists []. rewrite app_nil_r. (split; [done|split; [done|by left]]). }
  destruct (container.Ops (container.params p)) as [[|op ops]|].
  1,3: exists []; rewrite app_nil_r; (split; [done|split; [done|by left]]).
  case_bool_decide as Hprocess.
  { exists []. rewrite app_nil_r. (split; [done|split; [done|by left]]). }
  destruct (sweep_journal m) as (l0 & Hl0 & Hf0).
  destruct (container.ensureCloseOnExec (kjournal.k o) Atoi m) as [m0 [err|]];
    cbn [fst] in Hl0.
  { exists l0. cbn [fst snd]. (split; [done|split; [done|by left]]). }
  assert (∃ l1, container.os
                  (if container.Uid (container.params p) <? 1
                   then container.call (container.OverflowUid (kjournal.k o)) m0
                   else (m0, 0)).1 = container.os m ++ l1
                ∧ filter is_file_call l1 = []) as (l1 & Hl1 & Hf1).
  { destruct (_ <? 1); cbn; rewrite Hl0, <- ?app_assoc; eexists; (split; [reflexivity|]);
      rewrite ?filter_app, Hf0; done. }
  destruct (if container.Uid (container.params p) <? 1 then _ else _) as [m1 uid].
  cbn [fst] in Hl1.
  assert (∃ l2, container.os
                  (if container.Gid (container.params p) <? 1
                   then container.call (container.OverflowGid (kjournal.k o)) m1
                   else (m1, 0)).1 = container.os m ++ l2
                ∧ filter is_file_call l2 = []) as (l2 & Hl2 & Hf2).
  { destruct (_ <? 1); cbn; rewrite Hl1, <- ?app_assoc; eexists; (split; [reflexivity|]);
      rewrite ?filter_app, Hf1; done. }
  destruct (if container.Gid (container.params p) <? 1 then _ else _) as [m2 gid].
  cbn [fst] in Hl2.
  cbn [container.params container.set_params container.set_Container].
  rewrite start_params_CgroupPath.
  destruct (container.CgroupPath (container.params p)) as [pathname|].
  - unfold container.call.
    cbn [container.os_OpenFile container.File_Close kjournal.k kjournal.ask].
    destruct (kjournal.opened o _) as [f0|err] eqn:Hopen.
    + pose proof (child_calls
                    (container.set_Container p
                       (container.start_params pkg (container.params p) uid gid)
                       (container.setup p) (container.cancel p) (container.wait p)
                       (container.cmd p))
                    (container.prepare_cmd pkg
                       (container.set_Container p
                          (container.start_params pkg (container.params p) uid gid)
                          (container.setup p) (container.cancel p) (container.wait p)
                          (container.cmd p)) c)
                    (Some f0)
                    (container.set_os m2
                       (container.os m2
                        ++ [kjournal.OpenFile (check.pathname pathname)
                              (Z.lor container.O_RDONLY container.O_CLOEXEC) 0])))
        as (l3 & Hl3 & Hf3).
      destruct (container.start_child _ pkg _ _ (Some f0) _) as [[[p1 c1] m4] r].
      cbn [fst snd container.os container.set_os] in Hl3.
      exists (l2 ++ [kjournal.OpenFile (check.pathname pathname)
                       (Z.lor container.O_RDONLY container.O_CLOEXEC) 0]
                ++ l3 ++ [kjournal.FileClose f0]).
      split; [|split; [done|]].
      * destruct (kjournal.failed o _); cbn [fst snd container.os container.set_os
          container.say]; by rewrite Hl3, Hl2, <- !app_assoc.
      * right. right. exists pathname, f0, l2, l3.
        rewrite Hl2, <- app_assoc in Hopen. by repeat split.
    + exists (l2 ++ [kjournal.OpenFile (check.pathname pathname)
                       (Z.lor container.O_RDONLY container.O_CLOEXEC) 0]).
      cbn [fst snd container.os container.set_os]. rewrite Hl2, <- app_assoc.
      split; [done|]. split; [done|]. right. left. exists pathname, err, l2.
      rewrite Hl2, <- app_assoc in Hopen. by repeat split.
  - pose proof (child_calls
                  (container.set_Container p
                     (container.start_params pkg (container.params p) uid gid)
                     (container.setup p) (container.cancel p) (container.wait p)
                     (container.cmd p))
                  (container.prepare_cmd pkg
                     (container.set_Container p
                        (container.start_params pkg (container.params p) uid gid)
                        (container.setup p) (container.cancel p) (container.wait p)
                        (container.cmd p)) c)
                  None m2) as (l3 & Hl3 & Hf3).
    destruct (container.start_child _ pkg _ _ None _) as [[[p1 c1] m4] r].
    cbn [fst snd] in *. exists (l2 ++ l3). rewrite Hl3, Hl2, <- app_assoc.
    split; [done|]. rewrite filter_app, Hf2, Hf3. split; [done|by left].
Qed.

(** X24.  With an executable set, once the deadline of five seconds is on
    the pipe, [Container.Serve] encodes the parameters to the pipe and then
    closes the pipe, whether the encoding failed or not, and makes no other
    call.  What it encodes are the parameters of the container, with the
    root as directory where none was set and an empty list of seccomp rules
    where there was nil, and the number of extra files.  It returns what
    the encoding returned, and cancels the context exactly when that is an
    error. *)
Theorem Serve_transmits (p : container.Container Z IO C O R)
  (m : container.machine (kjournal.t IO C O R)) (pipe : Z) (b : bool)
  (pathname : check.Absolute) :
  container.setup p = Some pipe →
  container.cancel p = Some b →
  container.Path (container.params p) = Some pathname →
  kjournal.failed o
    (container.os m ++ [kjournal.SetDeadline pipe container.initSetupTimeout]) = None →
  ∃ p' m' v,
    container.Serve (kjournal.k o) pkg p m
    = Returned (p', m',
                container.Other
                  <$> kjournal.failed o
                        (container.os m
                         ++ [kjournal.SetDeadline pipe 5000000000; kjournal.Encode pipe v]))
    ∧ container.os m'
      = container.os m
        ++ [kjournal.SetDeadline pipe 5000000000; kjournal.Encode pipe v;
            kjournal.FileClose pipe]
    ∧ container.init_Params v = container.params p'
    ∧ container.Dir (container.params p')
      = Some (default (container.fhs_AbsRoot pkg) (container.Dir (container.params p)))
    ∧ container.SeccompRules (container.params p')
      = Some (default [] (container.SeccompRules (container.params p)))
    ∧ container.set_Dir_SeccompRules (container.params p') None None
      = container.set_Dir_SeccompRules (container.params p) None None
    ∧ container.Count v = Z.of_nat (length (container.ExtraFiles p))
    ∧ container.init_Verbose v = container.IsVerbose m
    ∧ container.cancel p'
      = Some (match kjournal.failed o
                      (container.os m
                       ++ [kjournal.SetDeadline pipe 5000000000; kjournal.Encode pipe v])
              with
              | Some _ => true
              | None => b
              end).
Proof.
  intros Hsetup Hcancel Hpath Hdeadline.
  unfold container.Serve, container.call, container.do_cancel. rewrite Hsetup.
  cbn [container.File_SetDeadline container.gob_Encode container.File_Close
       kjournal.k kjournal.ask].
  rewrite Hdeadline.
  cbn [container.params container.set_Container container.set_params container.cancel
       container.os container.set_os container.ExtraFiles container.IsVerbose].
  rewrite Hpath, Hcancel.
  match goal with
  | |- context [kjournal.Encode pipe ?v0] => exists
      (container.set_Container p (container.init_Params v0) None
         (Some (match kjournal.failed o
                        (container.os m
                         ++ [kjournal.SetDeadline pipe 5000000000; kjournal.Encode pipe v0])
                with
                | Some _ => true
                | None => b
                end))
         (container.wait p) (container.cmd p));
      eexists; exists v0
  end.
  rewrite <- !app_assoc. cbn [app].
  change container.initSetupTimeout with 5000000000.
  destruct (kjournal.failed o (container.os m ++ [_; kjournal.Encode pipe _])) as [err|];
    cbn [fmap option_fmap option_map];
    (split; [reflexivity|]);
    cbn [container.os container.set_os container.params container.set_Container
         container.init_Params container.Count container.init_Verbose container.cancel
         container.Dir container.SeccompRules container.set_Dir_SeccompRules];
    rewrite <- ?app_assoc; cbn [app];
    repeat split;
    try (by destruct (container.Dir (container.params p)));
    try (by destruct (container.SeccompRules (container.params p))).
Qed.

End ContainerJournal.

(** ** A run on the journal kernel *)

Lemma Start_refuses_witness :
  ∃ text,
    container.Start (kjournal.k willing_oracle) example_constants decimal_Atoi
      (Some started_box) started_machine
    = (Some started_box, started_machine, Some (container.Other (errorString text))).
Proof.
  apply Start_refuses. right. exists started_box. split; [reflexivity|].
  right. right. right. eexists _, 7. split; reflexivity.
Defined.

Lemma Start_child_attributes_witness :
  ∃ c' attr,
    container.cmd started_box = Some c'
    ∧ container.cmd_SysProcAttr c' = Some attr
    ∧ container.Cloneflags attr = 0x7e020000
    ∧ container.UseCgroupFD attr = true.
Proof.
  destruct (Start_child_attributes (kjournal.k willing_oracle) example_constants
              decimal_Atoi example_box started_box fresh_machine started_machine
              ltac:(vm_compute; reflexivity))
    as (c' & attr & pid & fd & f & extra & Hcmd & _ & _ & _ & _ & _ & _ & _ & _ & _
        & Hattr & Hflags & _ & _ & _ & Hcgroup).
  exists c', attr. split; [exact Hcmd|]. split; [exact Hattr|].
  split; [exact Hflags|exact Hcgroup].
Defined.

Lemma Start_parameters_witness :
  container.Uid (container.params started_box) = 65534
  ∧ container.Gid (container.params started_box) = 1000
  ∧ container.SeccompPresets (container.params started_box) = 5
  ∧ container.AdoptWaitDelay (container.params started_box) = 5000000000.
Proof.
  destruct (Start_parameters (kjournal.k willing_oracle) example_constants
              decimal_Atoi example_box started_box fresh_machine started_machine
              ltac:(vm_compute; reflexivity))
    as (Huid & Hgid & _ & _ & Hpresets & Hdelay & _).
  split; [exact Huid|]. split; [exact Hgid|]. split; [exact Hpresets|exact Hdelay].
Defined.

Lemma Start_confined_witness :
  ∃ pre extra landlock c post,
    container.os started_machine
    = pre ++ [kjournal.Setup extra; kjournal.LockOSThread; kjournal.SetNoNewPrivs;
              kjournal.LandlockGetABI] ++ landlock ++ [kjournal.ExecStart c] ++ post
    ∧ confined willing_oracle example_constants (container.params example_box)
        (pre ++ [kjournal.Setup extra; kjournal.LockOSThread; kjournal.SetNoNewPrivs;
                 kjournal.LandlockGetABI]) landlock.
Proof.
  destruct (Start_confined willing_oracle example_constants decimal_Atoi example_box
              (Some started_box) fresh_machine started_machine
              ltac:(vm_compute; reflexivity))
    as (pre & extra & landlock & c & post & Hos & _ & Hconfined & _).
  exists pre, extra, landlock, c, post. split; [exact Hos|exact Hconfined].
Defined.

Lemma Serve_transmits_witness :
  ∃ p' m',
    container.Serve (kjournal.k willing_oracle) example_constants started_box started_machine
    = Returned (p', m', None)
    ∧ container.Dir (container.params p') = Some (check.unsafeAbs "/")
    ∧ container.SeccompRules (container.params p') = Some [].
Proof.
  destruct (Serve_transmits willing_oracle example_constants started_box started_machine
              4 false (check.unsafeAbs "/bin/app") eq_refl eq_refl eq_refl eq_refl)
    as (p' & m' & v & Hserve & _ & _ & Hdir & Hrules & _).
  exists p', m'. split; [exact Hserve|]. split; [exact Hdir|exact Hrules].
Defined.
